(** * Texas Hold'em engine: hand evaluator, player record, game state.

    A shallow embedding of [poker_ai_bot/core] (deck.py, hand_evaluator.py,
    player.py, game_state.py) and of [poker_shared.py].  Python integers are [Z]; Python lists are
    [list]; the dictionary of per-round action logs is a [gmap string];
    exceptions are values of [exn]; methods that mutate an object are
    functions of the object's state in a state-and-exception monad whose
    state survives a raise, as an object's fields do in Python. *)

From Stdlib Require Import ZArith List Bool Lia.
From stdpp Require Import base list strings gmap sorting.
Import ListNotations.

Local Open Scope Z_scope.

(** ** Exceptions and the two monads *)

Inductive value_error :=
| CannotDeal (num_cards remaining : Z)   (* Deck.deal *)
| NeedFiveCards                          (* HandEvaluator.evaluate_hand *)
| EmptySequence.                         (* max() / min() of an empty list *)

Inductive exn :=
| ValueError (why : value_error)
| IndexError
| ZeroDivisionError
| TypeError.

(** Pure code that may raise. *)
Inductive result (A : Type) :=
| Ok (a : A)
| Err (e : exn).
Arguments Ok {A} a.
Arguments Err {A} e.

Definition rbind {A B} (m : result A) (k : A -> result B) : result B :=
  match m with
  | Ok a => k a
  | Err e => Err e
  end.

(** Code that mutates a state [S]: it returns, or raises (the state reached
    so far stays), or its loop has not finished within the fuel given. *)
Inductive outcome (S A : Type) :=
| Done (a : A) (s : S)
| Raised (e : exn) (s : S)
| OutOfFuel.
Arguments Done {S A} a s.
Arguments Raised {S A} e s.
Arguments OutOfFuel {S A}.

Definition M (S A : Type) := S -> outcome S A.

Definition ret {S A} (a : A) : M S A := fun s => Done a s.
Definition raise {S A} (e : exn) : M S A := fun s => Raised e s.
Definition bind {S A B} (m : M S A) (k : A -> M S B) : M S B :=
  fun s => match m s with
           | Done a s' => k a s'
           | Raised e s' => Raised e s'
           | OutOfFuel => OutOfFuel
           end.
Definition get {S} : M S S := fun s => Done s s.
Definition put {S} (s : S) : M S unit := fun _ => Done tt s.
Definition modify {S} (f : S -> S) : M S unit := fun s => Done tt (f s).
Definition lift_result {S A} (r : result A) : M S A :=
  match r with
  | Ok a => ret a
  | Err e => raise e
  end.

Declare Scope py_scope.
Delimit Scope py_scope with py.
Notation "x <- m ;; k" := (bind m (fun x => k))
  (at level 100, m at next level, right associativity) : py_scope.
Notation "m ;;; k" := (bind m (fun _ => k))
  (at level 100, right associativity) : py_scope.
Notation "x <~ m ;; k" := (rbind m (fun x => k))
  (at level 100, m at next level, right associativity) : py_scope.

(** ** Python list primitives *)

(** [l[i]] with Python's negative indices and [IndexError]. *)
Definition py_index {A} (l : list A) (i : Z) : result A :=
  let n := Z.of_nat (length l) in
  let j := if i <? 0 then i + n else i in
  if (j <? 0) || (n <=? j) then Err IndexError
  else match l !! Z.to_nat j with
       | Some x => Ok x
       | None => Err IndexError
       end.

(** [l[0]] *)
Definition first {A} (l : list A) : result A :=
  match l with
  | x :: _ => Ok x
  | [] => Err IndexError
  end.

(** [l.pop()]: removes and returns the last element. *)
Fixpoint pop {A} (l : list A) : option (A * list A) :=
  match l with
  | [] => None
  | [x] => Some (x, [])
  | x :: t => match pop t with
              | Some (y, t') => Some (y, x :: t')
              | None => None
              end
  end.

Fixpoint eqb_list (l1 l2 : list Z) : bool :=
  match l1, l2 with
  | [], [] => true
  | x :: t1, y :: t2 => (x =? y) && eqb_list t1 t2
  | _, _ => false
  end.

Definition py_max (l : list Z) : result Z :=
  match l with
  | [] => Err (ValueError EmptySequence)
  | x :: t => Ok (fold_left Z.max t x)
  end.

Definition py_min (l : list Z) : result Z :=
  match l with
  | [] => Err (ValueError EmptySequence)
  | x :: t => Ok (fold_left Z.min t x)
  end.

(** [sorted(l, reverse=True)] on integers. *)
Fixpoint insert_desc (x : Z) (l : list Z) : list Z :=
  match l with
  | [] => [x]
  | y :: t => if y <? x then x :: y :: t else y :: insert_desc x t
  end.

Definition sorted_desc (l : list Z) : list Z :=
  fold_left (fun acc x => insert_desc x acc) l [].

(** [collections.Counter(l)]: keys in order of first occurrence. *)
Fixpoint counter_add (v : Z) (cs : list (Z * nat)) : list (Z * nat) :=
  match cs with
  | [] => [(v, 1%nat)]
  | (k, c) :: t => if k =? v then (k, S c) :: t else (k, c) :: counter_add v t
  end.

Definition Counter (l : list Z) : list (Z * nat) :=
  fold_left (fun cs v => counter_add v cs) l [].

(** [itertools.combinations(l, k)], in its lexicographic order of positions. *)
Fixpoint combinations {A} (l : list A) (k : nat) : list (list A) :=
  match k with
  | O => [[]]
  | S k' => match l with
            | [] => []
            | x :: t => map (cons x) (combinations t k') ++ combinations t k
            end
  end.

(** ** deck.py *)

Module Deck.

Inductive Suit := SPADES | HEARTS | DIAMONDS | CLUBS.

Inductive Rank :=
| TWO | THREE | FOUR | FIVE | SIX | SEVEN | EIGHT
| NINE | TEN | JACK | QUEEN | KING | ACE.

Definition numeric_value (r : Rank) : Z :=
  match r with
  | TWO => 2 | THREE => 3 | FOUR => 4 | FIVE => 5 | SIX => 6
  | SEVEN => 7 | EIGHT => 8 | NINE => 9 | TEN => 10
  | JACK => 11 | QUEEN => 12 | KING => 13 | ACE => 14
  end.

Record Card := mkCard { rank : Rank; suit : Suit }.

#[export] Instance Suit_eq_dec : EqDecision Suit.
Proof. solve_decision. Defined.
#[export] Instance Rank_eq_dec : EqDecision Rank.
Proof. solve_decision. Defined.
#[export] Instance Card_eq_dec : EqDecision Card.
Proof. solve_decision. Defined.

Definition all_ranks : list Rank :=
  [TWO; THREE; FOUR; FIVE; SIX; SEVEN; EIGHT; NINE; TEN; JACK; QUEEN; KING; ACE].
Definition all_suits : list Suit := [SPADES; HEARTS; DIAMONDS; CLUBS].

(** [[Card(rank, suit) for rank in Rank for suit in Suit]] *)
Definition fresh_cards : list Card :=
  flat_map (fun r => map (fun s => mkCard r s) all_suits) all_ranks.

(** The deck object is its [cards] list; the top of the deck is the end of
    the list. *)
Definition t := list Card.

Fixpoint pop_n (n : nat) (cards : list Card) (dealt : list Card)
  : option (list Card * list Card) :=
  match n with
  | O => Some (dealt, cards)
  | S n' => match pop cards with
            | Some (c, cards') => pop_n n' cards' (dealt ++ [c])
            | None => None
            end
  end.

Definition deal (num_cards : Z) : M t (list Card) :=
  fun cards =>
    if Z.of_nat (length cards) <? num_cards
    then Raised (ValueError (CannotDeal num_cards (Z.of_nat (length cards)))) cards
    else match pop_n (Z.to_nat num_cards) cards [] with
         | Some (dealt, cards') => Done dealt cards'
         | None => Raised IndexError cards   (* pop from empty list: excluded by the guard *)
         end.

Definition deal_one : M t Card :=
  (cs <- deal 1 ;; lift_result (first cs))%py.

(** [random.shuffle] is the caller's: [shuffle] is the order it produces. *)
Definition reset (shuffle : list Card -> list Card) : M t unit :=
  put (shuffle fresh_cards).

(** [Card.__lt__], [__le__], [__gt__], [__ge__]: by rank only. *)
Definition card_lt (self other : Card) : bool :=
  numeric_value (rank self) <? numeric_value (rank other).
Definition card_le (self other : Card) : bool :=
  numeric_value (rank self) <=? numeric_value (rank other).
Definition card_gt (self other : Card) : bool :=
  numeric_value (rank other) <? numeric_value (rank self).
Definition card_ge (self other : Card) : bool :=
  numeric_value (rank other) <=? numeric_value (rank self).

Definition cards_remaining (cards : t) : Z := Z.of_nat (length cards).

(** [list.remove(card)]: drops the first element equal to [card]. *)
Fixpoint list_remove (card : Card) (cards : list Card) : result (list Card) :=
  match cards with
  | [] => Err (ValueError EmptySequence)   (* list.remove(x): x not in list *)
  | c :: rest =>
      if bool_decide (c = card) then Ok rest
      else match list_remove card rest with
           | Ok rest' => Ok (c :: rest')
           | Err e => Err e
           end
  end.

Fixpoint remove_cards (cards_to_remove : list Card) : M t unit :=
  match cards_to_remove with
  | [] => ret tt
  | card :: rest =>
      (cards <- get ;;
       (if bool_decide (card ∈ cards)
        then cards' <- lift_result (list_remove card cards) ;; put cards'
        else ret tt) ;;;
       remove_cards rest)%py
  end.

End Deck.
Export Deck.

(** ** hand_evaluator.py *)

Module HandEvaluator.

Inductive HandRank :=
| HIGH_CARD | ONE_PAIR | TWO_PAIR | THREE_OF_A_KIND | STRAIGHT
| FLUSH | FULL_HOUSE | FOUR_OF_A_KIND | STRAIGHT_FLUSH | ROYAL_FLUSH.

(** The [IntEnum] value. *)
Definition rank_value (r : HandRank) : Z :=
  match r with
  | HIGH_CARD => 1 | ONE_PAIR => 2 | TWO_PAIR => 3 | THREE_OF_A_KIND => 4
  | STRAIGHT => 5 | FLUSH => 6 | FULL_HOUSE => 7 | FOUR_OF_A_KIND => 8
  | STRAIGHT_FLUSH => 9 | ROYAL_FLUSH => 10
  end.

Record HandStrength := mkHandStrength {
  hand_rank : HandRank;
  primary_value : Z;
  secondary_value : Z;
  kickers : list Z
}.

(** The [for ... in zip(self.kickers, other.kickers)] loop of [__lt__]. *)
Fixpoint kickers_lt (mine other : list Z) : bool :=
  match mine, other with
  | my_kicker :: mine', other_kicker :: other' =>
      if negb (my_kicker =? other_kicker) then my_kicker <? other_kicker
      else kickers_lt mine' other'
  | _, _ => false
  end.

Definition lt (self other : HandStrength) : bool :=
  if negb (rank_value (hand_rank self) =? rank_value (hand_rank other))
  then rank_value (hand_rank self) <? rank_value (hand_rank other)
  else if negb (primary_value self =? primary_value other)
  then primary_value self <? primary_value other
  else if negb (secondary_value self =? secondary_value other)
  then secondary_value self <? secondary_value other
  else kickers_lt (kickers self) (kickers other).

Definition eq (self other : HandStrength) : bool :=
  (rank_value (hand_rank self) =? rank_value (hand_rank other))
  && (primary_value self =? primary_value other)
  && (secondary_value self =? secondary_value other)
  && eqb_list (kickers self) (kickers other).

Definition gt (self other : HandStrength) : bool :=
  negb (lt self other || eq self other).

Definition is_flush (cards : list Card) : bool :=
  if (length cards <? 5)%nat then false
  else (length (remove_dups (map suit cards)) =? 1)%nat.

Fixpoint consecutive (values : list Z) : bool :=
  match values with
  | x :: (y :: _) as t => (x - 1 =? y) && consecutive t
  | _ => true
  end.

Definition wheel : list Z := [14; 5; 4; 3; 2].

Definition is_straight (values : list Z) : bool :=
  if (length values <? 5)%nat then false
  else if eqb_list values wheel then true
  else consecutive values.

Definition get_straight_high_card (values : list Z) : result Z :=
  if eqb_list values wheel then Ok 5 else py_max values.

(** [c in value_counts.values()] *)
Definition has_count (c : nat) (value_counts : list (Z * nat)) : bool :=
  existsb (fun vc => (snd vc =? c)%nat) value_counts.

(** [[v for v, c in value_counts.items() if c == n]] *)
Definition values_with_count (n : nat) (value_counts : list (Z * nat)) : list Z :=
  map fst (List.filter (fun vc => (snd vc =? n)%nat) value_counts).

(** The cascade of [_evaluate_five_cards] once its four locals are bound. *)
Definition classify (values : list Z) (value_counts : list (Z * nat))
    (is_flush is_straight : bool) : result HandStrength :=
  (royal <~ (if is_flush && is_straight
             then (hi <~ py_max values ;;
                   if hi =? 14
                   then (lo <~ py_min values ;; Ok (lo =? 10))
                   else Ok false)
             else Ok false) ;;
   if royal then Ok (mkHandStrength ROYAL_FLUSH 14 0 [])
   else if is_flush && is_straight then
     (high_card <~ get_straight_high_card values ;;
      Ok (mkHandStrength STRAIGHT_FLUSH high_card 0 []))
   else if has_count 4 value_counts then
     (quad_value <~ first (values_with_count 4 value_counts) ;;
      kicker <~ first (values_with_count 1 value_counts) ;;
      Ok (mkHandStrength FOUR_OF_A_KIND quad_value 0 [kicker]))
   else if has_count 3 value_counts && has_count 2 value_counts then
     (trips_value <~ first (values_with_count 3 value_counts) ;;
      pair_value <~ first (values_with_count 2 value_counts) ;;
      Ok (mkHandStrength FULL_HOUSE trips_value pair_value []))
   else if is_flush then Ok (mkHandStrength FLUSH 0 0 values)
   else if is_straight then
     (high_card <~ get_straight_high_card values ;;
      Ok (mkHandStrength STRAIGHT high_card 0 []))
   else if has_count 3 value_counts then
     (trips_value <~ first (values_with_count 3 value_counts) ;;
      Ok (mkHandStrength THREE_OF_A_KIND trips_value 0
            (sorted_desc (values_with_count 1 value_counts))))
   else
     let pairs := values_with_count 2 value_counts in
     if (length pairs =? 2)%nat then
       let pairs := sorted_desc pairs in
       (kicker <~ first (values_with_count 1 value_counts) ;;
        hi <~ py_index pairs 0 ;;
        lo <~ py_index pairs 1 ;;
        Ok (mkHandStrength TWO_PAIR hi lo [kicker]))
     else if (length pairs =? 1)%nat then
       (pair_value <~ py_index pairs 0 ;;
        Ok (mkHandStrength ONE_PAIR pair_value 0
              (sorted_desc (values_with_count 1 value_counts))))
     else Ok (mkHandStrength HIGH_CARD 0 0 values))%py.

Definition _evaluate_five_cards (cards : list Card) : result HandStrength :=
  let values := sorted_desc (map (fun card => numeric_value (rank card)) cards) in
  let value_counts := Counter values in
  classify values value_counts (is_flush cards) (is_straight values).

(** The [for five_cards in itertools.combinations(cards, 5)] loop. *)
Fixpoint best_of (combos : list (list Card)) (best_hand : option HandStrength)
  : result (option HandStrength) :=
  match combos with
  | [] => Ok best_hand
  | five_cards :: rest =>
      (hand_strength <~ _evaluate_five_cards five_cards ;;
       best_of rest
         (match best_hand with
          | None => Some hand_strength
          | Some best => if gt hand_strength best then Some hand_strength
                         else Some best
          end))%py
  end.

Definition evaluate_hand (cards : list Card) : result (option HandStrength) :=
  if (length cards <? 5)%nat then Err (ValueError NeedFiveCards)
  else best_of (combinations cards 5) None.

Definition compare_hands (hand1 hand2 : list Card) : result Z :=
  (s1 <~ evaluate_hand hand1 ;;
   s2 <~ evaluate_hand hand2 ;;
   match s1, s2 with
   | Some strength1, Some strength2 =>
       if gt strength1 strength2 then Ok 1
       else if lt strength1 strength2 then Ok (-1)
       else Ok 0
   | _, _ => Err TypeError
   end)%py.

(** [descriptions[strength.rank]] *)
Definition descriptions (r : HandRank) : string :=
  match r with
  | HIGH_CARD => "High Card"
  | ONE_PAIR => "One Pair"
  | TWO_PAIR => "Two Pair"
  | THREE_OF_A_KIND => "Three of a Kind"
  | STRAIGHT => "Straight"
  | FLUSH => "Flush"
  | FULL_HOUSE => "Full House"
  | FOUR_OF_A_KIND => "Four of a Kind"
  | STRAIGHT_FLUSH => "Straight Flush"
  | ROYAL_FLUSH => "Royal Flush"
  end.

Definition get_hand_description (cards : list Card) : result string :=
  (strength <~ evaluate_hand cards ;;
   match strength with
   | Some strength => Ok (descriptions (hand_rank strength))
   | None => Err TypeError   (* no five-card subset: excluded by the length guard *)
   end)%py.

End HandEvaluator.
Export HandEvaluator.

(** ** player.py *)

Module Player.

Inductive Action := FOLD | CALL | RAISE | CHECK | ALL_IN.

Record ActionHistory := mkActionHistory {
  actions : list (Action * Z);
  bets : list Z;
  round_actions : gmap string (list (Action * Z))
}.

Definition new_history : ActionHistory :=
  mkActionHistory [] []
    (<["preflop" := []]> (<["flop" := []]> (<["turn" := []]> (<["river" := []]> ∅)))).

Definition add_action (action : Action) (amount : Z) (round_name : string)
    (self : ActionHistory) : ActionHistory :=
  mkActionHistory
    (actions self ++ [(action, amount)])
    (bets self ++ [amount])
    (match round_actions self !! round_name with
     | Some log => <[round_name := log ++ [(action, amount)]]> (round_actions self)
     | None => round_actions self
     end).

Definition get_total_invested (self : ActionHistory) : Z :=
  fold_right Z.add 0 (bets self).

Definition clear (self : ActionHistory) : ActionHistory :=
  mkActionHistory [] [] ((fun _ => []) <$> round_actions self).

Record t := mkPlayer {
  name : string;
  stack : Z;
  hole_cards : list Card;
  current_bet : Z;
  folded : bool;
  all_in : bool;
  action_history : ActionHistory
}.

Definition new (name : string) (stack : Z) : t :=
  mkPlayer name stack [] 0 false false new_history.

Definition set_stack (v : Z) (p : t) : t :=
  mkPlayer (name p) v (hole_cards p) (current_bet p) (folded p) (all_in p) (action_history p).
Definition set_hole_cards (v : list Card) (p : t) : t :=
  mkPlayer (name p) (stack p) v (current_bet p) (folded p) (all_in p) (action_history p).
Definition set_current_bet (v : Z) (p : t) : t :=
  mkPlayer (name p) (stack p) (hole_cards p) v (folded p) (all_in p) (action_history p).
Definition set_folded (v : bool) (p : t) : t :=
  mkPlayer (name p) (stack p) (hole_cards p) (current_bet p) v (all_in p) (action_history p).
Definition set_all_in (v : bool) (p : t) : t :=
  mkPlayer (name p) (stack p) (hole_cards p) (current_bet p) (folded p) v (action_history p).
Definition set_action_history (v : ActionHistory) (p : t) : t :=
  mkPlayer (name p) (stack p) (hole_cards p) (current_bet p) (folded p) (all_in p) v.

Definition receive_cards (cards : list Card) : M t unit :=
  modify (set_hole_cards cards).

Definition bet (amount : Z) : M t Z :=
  fun self =>
    if stack self <? amount then
      (* All-in scenario *)
      let actual_bet := stack self in
      let self := set_all_in true (set_stack 0 self) in
      Done actual_bet (set_current_bet (current_bet self + actual_bet) self)
    else
      let actual_bet := amount in
      let self := set_stack (stack self - amount) self in
      Done actual_bet (set_current_bet (current_bet self + actual_bet) self).

Definition call (amount_to_call : Z) : M t Z := bet amount_to_call.

Definition fold : M t unit := modify (set_folded true).

Definition check : M t unit := ret tt.

Definition reset_for_new_hand : M t unit :=
  modify (fun self =>
    set_action_history (clear (action_history self))
      (set_all_in false (set_folded false (set_current_bet 0 (set_hole_cards [] self))))).

Definition add_chips (amount : Z) : M t unit :=
  modify (fun self => set_stack (stack self + amount) self).

Definition can_bet (amount : Z) (self : t) : bool :=
  (amount <=? stack self) && negb (folded self) && negb (all_in self).

End Player.

(** ** game_state.py *)

Module GameState.
Import Player.

Inductive BettingRound := PREFLOP | FLOP | TURN | RIVER.

Definition value (r : BettingRound) : string :=
  match r with
  | PREFLOP => "preflop"
  | FLOP => "flop"
  | TURN => "turn"
  | RIVER => "river"
  end.

(** The table.  [players] is the store of the seated [Player] objects: a
    reference to a player is the index of the seat, and the objects at
    different seats are different objects. *)
Record t := mkGameState {
  players : list Player.t;
  deck : Deck.t;
  community_cards : list Card;
  pot : Z;
  side_pots : list Z;
  current_bet : Z;
  small_blind : Z;
  big_blind : Z;
  dealer_position : Z;
  current_round : BettingRound;
  action_position : Z;
  hand_number : Z
}.

Definition new (players : list Player.t) (small_blind big_blind : Z)
    (shuffle : list Card -> list Card) : t :=
  mkGameState players (shuffle fresh_cards) [] 0 [] 0 small_blind big_blind 0
    PREFLOP 0 0.

Definition set_players v g :=
  mkGameState v (deck g) (community_cards g) (pot g) (side_pots g) (current_bet g)
    (small_blind g) (big_blind g) (dealer_position g) (current_round g)
    (action_position g) (hand_number g).
Definition set_deck v g :=
  mkGameState (players g) v (community_cards g) (pot g) (side_pots g) (current_bet g)
    (small_blind g) (big_blind g) (dealer_position g) (current_round g)
    (action_position g) (hand_number g).
Definition set_community_cards v g :=
  mkGameState (players g) (deck g) v (pot g) (side_pots g) (current_bet g)
    (small_blind g) (big_blind g) (dealer_position g) (current_round g)
    (action_position g) (hand_number g).
Definition set_pot v g :=
  mkGameState (players g) (deck g) (community_cards g) v (side_pots g) (current_bet g)
    (small_blind g) (big_blind g) (dealer_position g) (current_round g)
    (action_position g) (hand_number g).
Definition set_side_pots v g :=
  mkGameState (players g) (deck g) (community_cards g) (pot g) v (current_bet g)
    (small_blind g) (big_blind g) (dealer_position g) (current_round g)
    (action_position g) (hand_number g).
Definition set_current_bet v g :=
  mkGameState (players g) (deck g) (community_cards g) (pot g) (side_pots g) v
    (small_blind g) (big_blind g) (dealer_position g) (current_round g)
    (action_position g) (hand_number g).
Definition set_dealer_position v g :=
  mkGameState (players g) (deck g) (community_cards g) (pot g) (side_pots g) (current_bet g)
    (small_blind g) (big_blind g) v (current_round g)
    (action_position g) (hand_number g).
Definition set_current_round v g :=
  mkGameState (players g) (deck g) (community_cards g) (pot g) (side_pots g) (current_bet g)
    (small_blind g) (big_blind g) (dealer_position g) v
    (action_position g) (hand_number g).
Definition set_action_position v g :=
  mkGameState (players g) (deck g) (community_cards g) (pot g) (side_pots g) (current_bet g)
    (small_blind g) (big_blind g) (dealer_position g) (current_round g)
    v (hand_number g).
Definition set_hand_number v g :=
  mkGameState (players g) (deck g) (community_cards g) (pot g) (side_pots g) (current_bet g)
    (small_blind g) (big_blind g) (dealer_position g) (current_round g)
    (action_position g) v.

(** A method of the deck object, run on [self.deck]. *)
Definition on_deck {A} (m : M Deck.t A) : M t A :=
  fun g => match m (deck g) with
           | Done a d => Done a (set_deck d g)
           | Raised e d => Raised e (set_deck d g)
           | OutOfFuel => OutOfFuel
           end.

(** A method of the player object at seat [i]. *)
Definition on_player {A} (i : nat) (m : M Player.t A) : M t A :=
  fun g => match players g !! i with
           | None => Raised IndexError g
           | Some p =>
               match m p with
               | Done a p' => Done a (set_players (<[i := p']> (players g)) g)
               | Raised e p' => Raised e (set_players (<[i := p']> (players g)) g)
               | OutOfFuel => OutOfFuel
               end
           end.

(** Reading the player object at seat [i]. *)
Definition player_at (i : nat) : M t Player.t := on_player i get.

(** [a % len(self.players)] *)
Definition mod_seats (a : Z) : M t Z :=
  fun g => let n := Z.of_nat (length (players g)) in
           if n =? 0 then Raised ZeroDivisionError g else Done (a mod n) g.

(** [self.players[pos]]: the seat that the subscript designates. *)
Definition seat_at (pos : Z) : M t nat :=
  fun g => let n := Z.of_nat (length (players g)) in
           let j := if pos <? 0 then pos + n else pos in
           if (j <? 0) || (n <=? j) then Raised IndexError g
           else Done (Z.to_nat j) g.

(** [for player in self.players: body(player)] *)
Fixpoint for_seats (seats : list nat) (body : nat -> M t unit) : M t unit :=
  match seats with
  | [] => ret tt
  | i :: rest => (body i ;;; for_seats rest body)%py
  end.

Definition for_each_player (body : nat -> M t unit) : M t unit :=
  (g <- get ;; for_seats (seq 0 (length (players g))) body)%py.

Definition deal_hole_cards : M t unit :=
  for_each_player (fun i =>
    (player <- player_at i ;;
     if negb (folded player) then
       (cards <- on_deck (Deck.deal 2) ;;
        on_player i (receive_cards cards))
     else ret tt)%py).

Definition post_blinds : M t unit :=
  (g <- get ;;
   small_blind_pos <- mod_seats (dealer_position g + 1) ;;
   big_blind_pos <- mod_seats (dealer_position g + 2) ;;
   (* Post small blind *)
   sb_player <- seat_at small_blind_pos ;;
   sb_amount <- on_player sb_player
                  (fun p => bet (Z.min (small_blind g) (stack p)) p) ;;
   modify (fun g => set_pot (pot g + sb_amount) g) ;;;
   (* Post big blind *)
   bb_player <- seat_at big_blind_pos ;;
   bb_amount <- on_player bb_player
                  (fun p => bet (Z.min (big_blind g) (stack p)) p) ;;
   modify (fun g => set_pot (pot g + bb_amount) g) ;;;
   modify (set_current_bet bb_amount) ;;;
   (* Set action position (first to act preflop) *)
   first_to_act <- mod_seats (big_blind_pos + 1) ;;
   modify (set_action_position first_to_act))%py.

Definition start_new_hand (shuffle : list Card -> list Card) : M t unit :=
  (modify (fun g => set_hand_number (hand_number g + 1) g) ;;;
   on_deck (Deck.reset shuffle) ;;;
   modify (set_community_cards []) ;;;
   modify (set_pot 0) ;;;
   modify (set_side_pots []) ;;;
   modify (set_current_bet 0) ;;;
   modify (set_current_round PREFLOP) ;;;
   for_each_player (fun i => on_player i reset_for_new_hand) ;;;
   deal_hole_cards ;;;
   post_blinds)%py.

(** The [while] loop of [reset_betting_round]; [fuel] bounds the number of
    times its body runs. *)
Fixpoint scan_seats (fuel : nat) : M t unit :=
  (g <- get ;;
   seat <- seat_at (action_position g) ;;
   player <- player_at seat ;;
   if folded player || all_in player then
     match fuel with
     | O => fun _ => OutOfFuel
     | S fuel' =>
         next <- mod_seats (action_position g + 1) ;;
         modify (set_action_position next) ;;;
         scan_seats fuel'
     end
   else ret tt)%py.

Definition reset_betting_round (fuel : nat) : M t unit :=
  (modify (set_current_bet 0) ;;;
   for_each_player (fun i => on_player i (modify (Player.set_current_bet 0))) ;;;
   (* Set action to first active player after dealer *)
   g <- get ;;
   start <- mod_seats (dealer_position g + 1) ;;
   modify (set_action_position start) ;;;
   scan_seats fuel)%py.

Definition extend_community (cards : list Card) : M t unit :=
  modify (fun g => set_community_cards (community_cards g ++ cards) g).

Definition deal_flop (fuel : nat) : M t unit :=
  (on_deck Deck.deal_one ;;;  (* Burn card *)
   cards <- on_deck (Deck.deal 3) ;;
   extend_community cards ;;;
   modify (set_current_round FLOP) ;;;
   reset_betting_round fuel)%py.

Definition deal_turn (fuel : nat) : M t unit :=
  (on_deck Deck.deal_one ;;;  (* Burn card *)
   cards <- on_deck (Deck.deal 1) ;;
   extend_community cards ;;;
   modify (set_current_round TURN) ;;;
   reset_betting_round fuel)%py.

Definition deal_river (fuel : nat) : M t unit :=
  (on_deck Deck.deal_one ;;;  (* Burn card *)
   cards <- on_deck (Deck.deal 1) ;;
   extend_community cards ;;;
   modify (set_current_round RIVER) ;;;
   reset_betting_round fuel)%py.

(** The [if/elif] chain of [execute_action]: [false] is its early
    [return False], [true] falls through to the recording of the action. *)
Definition apply_action (player : nat) (action : Action) (amount : Z) : M t bool :=
  (match action with
   | FOLD => on_player player fold ;;; ret true
   | CHECK =>
       g <- get ;;
       p <- player_at player ;;
       if Player.current_bet p <? current_bet g then ret false
       else ret true
   | CALL =>
       g <- get ;;
       p <- player_at player ;;
       let amount_to_call := current_bet g - Player.current_bet p in
       if amount_to_call <=? 0 then ret false
       else
         actual_amount <- on_player player (bet amount_to_call) ;;
         modify (fun g => set_pot (pot g + actual_amount) g) ;;;
         ret true
   | RAISE =>
       g <- get ;;
       p <- player_at player ;;
       let total_bet := current_bet g + amount in
       let amount_to_bet := total_bet - Player.current_bet p in
       if stack p <? amount_to_bet then
         (* All-in *)
         actual_amount <- on_player player (bet (stack p)) ;;
         modify (fun g => set_pot (pot g + actual_amount) g) ;;;
         p' <- player_at player ;;
         modify (set_current_bet (Player.current_bet p')) ;;;
         ret true
       else
         actual_amount <- on_player player (bet amount_to_bet) ;;
         modify (fun g => set_pot (pot g + actual_amount) g) ;;;
         modify (set_current_bet total_bet) ;;;
         ret true
   | ALL_IN => ret true
   end)%py.

Definition execute_action (player : nat) (action : Action) (amount : Z) : M t bool :=
  (p <- player_at player ;;
   if folded p || all_in p then ret false
   else
     proceed <- apply_action player action amount ;;
     if proceed then
       (* Record action in history *)
       g <- get ;;
       on_player player
         (modify (fun p => set_action_history
                    (add_action action amount (value (current_round g))
                       (action_history p)) p)) ;;;
       ret true
     else ret false)%py.

(** [[p for p in self.players if not p.folded]], each with its seat. *)
Definition get_active_players (g : t) : list (nat * Player.t) :=
  List.filter (fun ip => negb (folded (snd ip))) (imap (fun i p => (i, p)) (players g)).

Definition is_betting_round_complete (g : t) : bool :=
  let active_players := get_active_players g in
  if (length active_players <=? 1)%nat then true
  else forallb (fun ip => negb (negb (all_in (snd ip))
                                && (Player.current_bet (snd ip) <? current_bet g)))
         active_players.

(** [list.sort(key=lambda x: x[1], reverse=True)]: Python's sort is stable,
    also under [reverse=True], and compares keys with [<] only. *)
Fixpoint insert_hand {A} (x : A * HandStrength) (sorted : list (A * HandStrength))
  : list (A * HandStrength) :=
  match sorted with
  | [] => [x]
  | y :: rest => if HandEvaluator.lt (snd y) (snd x) then x :: y :: rest
                 else y :: insert_hand x rest
  end.

Definition sort_hands {A} (l : list (A * HandStrength)) : list (A * HandStrength) :=
  fold_left (fun sorted x => insert_hand x sorted) l [].

(** The showdown loop: the hand of every active player. *)
Fixpoint evaluate_players (community : list Card) (active : list (nat * Player.t))
  : result (list (nat * HandStrength)) :=
  match active with
  | [] => Ok []
  | (i, player) :: rest =>
      (best <~ evaluate_hand (hole_cards player ++ community) ;;
       match best with
       | None => Err TypeError   (* no five-card subset: excluded by the length guard *)
       | Some hand_strength =>
           others <~ evaluate_players community rest ;;
           Ok ((i, hand_strength) :: others)
       end)%py
  end.

(** The [for player, hand_strength in player_hands] loop with its [break]. *)
Fixpoint leading_ties (best_hand : HandStrength) (player_hands : list (nat * HandStrength))
  : list nat :=
  match player_hands with
  | [] => []
  | (player, hand_strength) :: rest =>
      if HandEvaluator.eq hand_strength best_hand
      then player :: leading_ties best_hand rest
      else []
  end.

(** The [for i, winner in enumerate(winners)] loop. *)
Fixpoint split_pot (winnings_per_player remainder : Z) (i : Z) (winners : list nat)
  : list (nat * Z) :=
  match winners with
  | [] => []
  | winner :: rest =>
      let amount := if i <? remainder then winnings_per_player + 1
                    else winnings_per_player in
      (winner, amount) :: split_pot winnings_per_player remainder (i + 1) rest
  end.

Definition determine_winners (g : t) : result (list (nat * Z)) :=
  let active_players := get_active_players g in
  match active_players with
  | [(winner, _)] => Ok [(winner, pot g)]
  | _ =>
      (player_hands <~ evaluate_players (community_cards g) active_players ;;
       let player_hands := sort_hands player_hands in
       top <~ first player_hands ;;
       let best_hand := snd top in
       let winners := leading_ties best_hand player_hands in
       let n := Z.of_nat (length winners) in
       if n =? 0 then Err ZeroDivisionError
       else
         let winnings_per_player := pot g / n in
         let remainder := pot g mod n in
         Ok (split_pot winnings_per_player remainder 0 winners))%py
  end.

Definition advance_dealer : M t unit :=
  (g <- get ;;
   next <- mod_seats (dealer_position g + 1) ;;
   modify (set_dealer_position next))%py.

(** The [while True] loop of [get_next_to_act]; [fuel] bounds the number of
    times it goes round again. *)
Fixpoint next_to_act_loop (fuel : nat) (start_pos current_pos : Z) : M t (option nat) :=
  (g <- get ;;
   seat <- seat_at current_pos ;;
   player <- player_at seat ;;
   if negb (folded player) && negb (all_in player)
      && (Player.current_bet player <? current_bet g)
   then ret (Some seat)
   else
     next <- mod_seats (current_pos + 1) ;;
     if next =? start_pos then ret None
     else match fuel with
          | O => fun _ => OutOfFuel
          | S fuel' => next_to_act_loop fuel' start_pos next
          end)%py.

(** Returns the seat of the player to act, or [None]. *)
Definition get_next_to_act (fuel : nat) : M t (option nat) :=
  (g <- get ;;
   if is_betting_round_complete g then ret None
   else next_to_act_loop fuel (action_position g) (action_position g))%py.

(** [{player.name: player.stack for player in self.players}]: a later player
    of the same name overwrites an earlier one. *)
Definition get_effective_stack_sizes (g : t) : gmap string Z :=
  fold_left (fun sizes player => <[name player := stack player]> sizes) (players g) ∅.

End GameState.

(** ** poker_shared.py *)

(** The evaluator that [poker_game.py] imports, on cards whose rank and suit
    are strings. *)
Module Shared.

Record Card := mkCard { rank : string; suit : string }.

Definition RANKS : list string :=
  ["2"; "3"; "4"; "5"; "6"; "7"; "8"; "9"; "10"; "J"; "Q"; "K"; "A"].
Definition HAND_RANKINGS : list string :=
  ["High Card"; "One Pair"; "Two Pair"; "Three of a Kind";
   "Straight"; "Flush"; "Full House"; "Four of a Kind";
   "Straight Flush"; "Royal Flush"].

(** What this module can raise: the [ValueError] of [list.index] and that of
    [max] on an empty list. *)
Inductive error := NotInList (x : string) | MaxOfEmpty.

(** [l.index(x)] *)
Fixpoint index (x : string) (l : list string) : error + Z :=
  match l with
  | [] => inl (NotInList x)
  | y :: t => if bool_decide (y = x) then inr 0
              else match index x t with
                   | inr i => inr (i + 1)
                   | inl e => inl e
                   end
  end.

Definition card_value (card : Card) : error + Z := index (rank card) RANKS.

(** [[card_value(card) for card in cards]] *)
Fixpoint card_values (cards : list Card) : error + list Z :=
  match cards with
  | [] => inr []
  | card :: rest =>
      match card_value card with
      | inl e => inl e
      | inr v => match card_values rest with
                 | inl e => inl e
                 | inr vs => inr (v :: vs)
                 end
      end
  end.

Definition is_flush (cards : list Card) : bool :=
  (length (remove_dups (map suit cards)) =? 1)%nat.

(** [sorted(l)] on integers. *)
Fixpoint insert_asc (x : Z) (l : list Z) : list Z :=
  match l with
  | [] => [x]
  | y :: t => if x <? y then x :: y :: t else y :: insert_asc x t
  end.

Definition sorted_asc (l : list Z) : list Z :=
  fold_left (fun acc x => insert_asc x acc) l [].

(** [all(values[i] + 1 == values[i + 1] for i in range(len(values) - 1))] *)
Fixpoint steps_of_one (values : list Z) : bool :=
  match values with
  | x :: (y :: _) as t => (x + 1 =? y) && steps_of_one t
  | _ => true
  end.

Definition is_straight (cards : list Card) : error + bool :=
  match card_values cards with
  | inl e => inl e
  | inr values => inr (steps_of_one (sorted_asc values))
  end.

(** [list(counts.values()).count(n)] *)
Definition count_of (n : nat) (counts : list (Z * nat)) : nat :=
  length (List.filter (fun vc => (snd vc =? n)%nat) counts).

Definition get_hand_rank (cards : list Card) : error + string :=
  match card_values cards with
  | inl e => inl e
  | inr values =>
      let values := sorted_desc values in
      let counts := Counter values in
      match (if is_flush cards then is_straight cards else inr false) with
      | inl e => inl e
      | inr true =>
          match py_max values, index "A" RANKS with
          | Err _, _ => inl MaxOfEmpty
          | _, inl e => inl e
          | Ok top, inr ace =>
              inr (if top =? ace then "Royal Flush" else "Straight Flush")
          end
      | inr false =>
          if has_count 4 counts then inr "Four of a Kind"
          else if has_count 3 counts && has_count 2 counts then inr "Full House"
          else if is_flush cards then inr "Flush"
          else
            match is_straight cards with
            | inl e => inl e
            | inr true => inr "Straight"
            | inr false =>
                if has_count 3 counts then inr "Three of a Kind"
                else if (count_of 2 counts =? 2)%nat then inr "Two Pair"
                else if has_count 2 counts then inr "One Pair"
                else inr "High Card"
            end
      end
  end.

(** The [for combo in itertools.combinations(cards, 5)] loop. *)
Fixpoint best_of (combos : list (list Card)) (best_rank : string) : error + string :=
  match combos with
  | [] => inr best_rank
  | combo :: rest =>
      match get_hand_rank combo with
      | inl e => inl e
      | inr rank =>
          match index rank HAND_RANKINGS, index best_rank HAND_RANKINGS with
          | inl e, _ => inl e
          | _, inl e => inl e
          | inr i, inr j => best_of rest (if j <? i then rank else best_rank)
          end
      end
  end.

Definition evaluate_hand (cards : list Card) : error + string :=
  best_of (combinations cards 5) "High Card".

End Shared.

Import Player.
Import GameState.

(** ** Definitions used by the statements *)

(** The number of kickers that [_evaluate_five_cards] stores with each
    category. *)
Definition kicker_count (r : HandRank) : nat :=
  match r with
  | HIGH_CARD | FLUSH => 5
  | ONE_PAIR => 3
  | THREE_OF_A_KIND => 2
  | TWO_PAIR | FOUR_OF_A_KIND => 1
  | STRAIGHT | FULL_HOUSE | STRAIGHT_FLUSH | ROYAL_FLUSH => 0
  end.

Definition well_formed (h : HandStrength) : Prop :=
  length (kickers h) = kicker_count (hand_rank h).

(** [a <= b] in the order of [HandStrength.__lt__]. *)
Definition le_strength (a b : HandStrength) : Prop :=
  HandEvaluator.lt a b = true \/ a = b.

Definition sum_counts (cs : list (Z * nat)) : nat :=
  fold_right (fun vc acc => (snd vc + acc)%nat) 0%nat cs.

(** The hands of the worked examples. *)
Definition royal_spades : list Card :=
  [mkCard ACE SPADES; mkCard KING SPADES; mkCard QUEEN SPADES;
   mkCard JACK SPADES; mkCard TEN SPADES].
Definition wheel_spades : list Card :=
  [mkCard FIVE SPADES; mkCard FOUR SPADES; mkCard THREE SPADES;
   mkCard TWO SPADES; mkCard ACE SPADES].
Definition six_high_spades : list Card :=
  [mkCard SIX SPADES; mkCard FIVE SPADES; mkCard FOUR SPADES;
   mkCard THREE SPADES; mkCard TWO SPADES].
Definition aces_over_kings : list Card :=
  [mkCard ACE CLUBS; mkCard ACE DIAMONDS; mkCard ACE HEARTS;
   mkCard KING CLUBS; mkCard KING DIAMONDS; mkCard TWO SPADES;
   mkCard THREE SPADES].

(** A table on which seat 0 holds 50 chips and faces a bet of 20. *)
Definition short_stack_table : GameState.t :=
  mkGameState [Player.new "hero" 50; Player.new "villain" 1000]
    fresh_cards [] 30 [] 20 10 20 0 PREFLOP 0 1.

(** The same seats, facing a bet of 120. *)
Definition big_bet_table : GameState.t :=
  mkGameState [Player.new "hero" 50; Player.new "villain" 1000]
    fresh_cards [] 130 [] 120 10 20 0 PREFLOP 0 1.

(** A table whose seat 1 has folded. *)
Definition folded_seat_table : GameState.t :=
  mkGameState [Player.new "hero" 50; Player.set_folded true (Player.new "villain" 1000)]
    fresh_cards [] 30 [] 20 10 20 0 PREFLOP 0 1.

(** A table whose deck is down to three cards. *)
Definition three_card_table : GameState.t :=
  mkGameState [Player.new "hero" 1000; Player.new "villain" 1000]
    [mkCard TWO CLUBS; mkCard SEVEN HEARTS; mkCard KING SPADES]
    [] 30 [] 20 10 20 0 PREFLOP 0 1.

(** A player who can still act. *)
Definition can_act (p : Player.t) : bool := negb (folded p || all_in p).

(** A table with an all-in seat and a live seat, and one with none live. *)
Definition one_live_table : GameState.t :=
  mkGameState [Player.set_all_in true (Player.new "hero" 0);
               Player.set_folded true (Player.new "fish" 700);
               Player.new "villain" 1000]
    fresh_cards [] 30 [] 20 10 20 0 PREFLOP 0 1.
Definition no_live_table : GameState.t :=
  mkGameState [Player.set_all_in true (Player.new "hero" 0);
               Player.set_folded true (Player.new "villain" 1000)]
    fresh_cards [] 30 [] 20 10 20 0 PREFLOP 0 1.

(** The chips held at the table. *)
Definition sum_stacks (ps : list Player.t) : Z :=
  fold_right (fun p acc => stack p + acc) 0 ps.

(** The chips each player has put in since [before]: the sum over the seats
    of the stack then minus the stack now. *)
Definition chips_committed (before now : list Player.t) : Z :=
  fold_right Z.add 0 (zip_with (fun p0 p => stack p0 - stack p) before now).

(** A sequence of calls of [execute_action], each of which returns [True]. *)
Fixpoint run_actions (acts : list (nat * Action * Z)) (g : GameState.t)
  : option GameState.t :=
  match acts with
  | [] => Some g
  | (player, action, amount) :: rest =>
      match execute_action player action amount g with
      | Done true g' => run_actions rest g'
      | _ => None
      end
  end.

(** [max(p.current_bet for p in self.players if not p.folded)] *)
Definition max_active_bet (g : GameState.t) : result Z :=
  py_max (map (fun ip => Player.current_bet (snd ip)) (get_active_players g)).

(** Three seats with blinds 10/20; on the second table the big blind, seat
    2, holds 5 chips. *)
Definition full_stack_table : GameState.t :=
  GameState.new [Player.new "a" 1000; Player.new "b" 1000; Player.new "c" 1000]
    10 20 (fun cards => cards).
Definition short_blind_table : GameState.t :=
  GameState.new [Player.new "a" 1000; Player.new "b" 1000; Player.new "c" 5]
    10 20 (fun cards => cards).

(** The table's own chip fields. *)
Definition table_chips (g : GameState.t) : Z * Z * Z * Z * Z :=
  (pot g, GameState.current_bet g, small_blind g, big_blind g, dealer_position g).

(** The first hand at [full_stack_table], and the table after seat 0 has
    raised by 100, seat 1 has called and seat 2 has folded. *)
Definition first_hand : GameState.t :=
  match start_new_hand (fun cards => cards) full_stack_table with
  | Done _ g => g
  | _ => full_stack_table
  end.
Definition three_actions : list (nat * Action * Z) :=
  [(0%nat, RAISE, 100); (1%nat, CALL, 0); (2%nat, FOLD, 0)].
Definition after_three_actions : GameState.t :=
  match run_actions three_actions first_hand with
  | Some g => g
  | None => first_hand
  end.

(** The showdown as the spec words it: the strength of each player still in
    the hand, and the players that no other strength beats. *)
Definition strength_of (community : list Card) (p : Player.t) : option HandStrength :=
  match evaluate_hand (hole_cards p ++ community) with
  | Ok (Some h) => Some h
  | _ => None
  end.

Definition showdown (g : GameState.t) : list (nat * option HandStrength) :=
  map (fun ip => (fst ip, strength_of (community_cards g) (snd ip)))
      (get_active_players g).

Definition not_beaten (mine : option HandStrength)
    (other : nat * option HandStrength) : bool :=
  match mine, snd other with
  | Some a, Some b => negb (HandEvaluator.lt a b)
  | _, _ => true
  end.

(** The seats tied for the best strength, in seating order. *)
Definition tied_winners (g : GameState.t) : list nat :=
  map fst (List.filter (fun x => forallb (not_beaten (snd x)) (showdown g))
             (showdown g)).

(** Strengths sorted from the best down: nothing is below what follows it. *)
Fixpoint descending (l : list (nat * HandStrength)) : Prop :=
  match l with
  | [] => True
  | x :: rest =>
      Forall (fun y => HandEvaluator.lt (snd x) (snd y) = false) rest /\
      descending rest
  end.

Definition all_well_formed (l : list (nat * HandStrength)) : Prop :=
  Forall (fun x => well_formed (snd x)) l.

Definition ties_with (s : HandStrength) (l : list (nat * HandStrength))
  : list (nat * HandStrength) :=
  List.filter (fun x => HandEvaluator.eq (snd x) s) l.

(** A royal flush on the board: the three players still in share a pot of
    100; seat 1 has folded. *)
Definition board_plays_table : GameState.t :=
  mkGameState
    [Player.set_hole_cards [mkCard TWO CLUBS; mkCard SEVEN HEARTS] (Player.new "a" 900);
     Player.set_folded true
       (Player.set_hole_cards [mkCard ACE CLUBS; mkCard ACE HEARTS] (Player.new "b" 900));
     Player.set_hole_cards [mkCard THREE CLUBS; mkCard EIGHT HEARTS] (Player.new "c" 900);
     Player.set_hole_cards [mkCard FOUR CLUBS; mkCard NINE HEARTS] (Player.new "d" 900)]
    [] royal_spades 100 [] 0 10 20 0 RIVER 1 1.

(** Case analysis on the counts of a [Counter], and on the tests of a cascade. *)
Ltac next_count :=
  match goal with
  | H : Forall _ (_ :: _) |- _ => inversion H; subst; clear H
  | H : Forall _ [] |- _ => clear H
  | c : nat |- _ => destruct c; simpl in *; try lia
  | cs : list (Z * nat) |- _ => destruct cs as [|[? ?] ?]; simpl in *; try lia
  end.

Ltac split_ifs :=
  repeat (cbn;
          match goal with
          | |- context [if ?b then _ else _] => destruct b
          end).

(** A [Counter] written out again as a list: each key as often as counted. *)
Definition expand (cs : list (Z * nat)) : list Z :=
  flat_map (fun vc => replicate (snd vc) (fst vc)) cs.

(** The five ranks that a strength stands for. *)
Definition ranks_of (h : HandStrength) : list Z :=
  let p := primary_value h in
  let s := secondary_value h in
  match hand_rank h with
  | HIGH_CARD | FLUSH => kickers h
  | ONE_PAIR => p :: p :: kickers h
  | TWO_PAIR => p :: p :: s :: s :: kickers h
  | THREE_OF_A_KIND => p :: p :: p :: kickers h
  | STRAIGHT | STRAIGHT_FLUSH =>
      if p =? 5 then [14; 5; 4; 3; 2] else [p; p - 1; p - 2; p - 3; p - 4]
  | FULL_HOUSE => [p; p; p; s; s]
  | FOUR_OF_A_KIND => p :: p :: p :: p :: kickers h
  | ROYAL_FLUSH => [14; 13; 12; 11; 10]
  end.

Definition card_values (cards : list Card) : list Z :=
  map (fun card => numeric_value (rank card)) cards.

Ltac split_tests :=
  repeat (cbn -[Z.max Z.min Z.eqb Z.ltb Z.leb Z.sub Z.add sorted_desc];
          match goal with
          | |- context [if ?x =? ?y then _ else _] =>
              destruct (Z.eqb_spec x y); try (exfalso; lia)
          | |- context [if ?x <? ?y then _ else _] =>
              destruct (Z.ltb_spec x y); try (exfalso; lia)
          | |- context [if (?x <? ?y) || (?u <=? ?v) then _ else _] =>
              destruct (Z.ltb_spec x y); destruct (Z.leb_spec u v);
              try (exfalso; simpl in *; lia)
          | |- context [if ?b then _ else _] => destruct b eqn:?
          end);
  cbn -[Z.max Z.min Z.eqb Z.ltb Z.leb Z.sub Z.add sorted_desc].

(** The hole cards of all the seats, in seating order. *)
Definition all_hole_cards (g : GameState.t) : list Card :=
  concat (map hole_cards (players g)).

(** A player after posting a blind of at most [blind]. *)
Definition post_blind (blind : Z) (p : Player.t) : Player.t :=
  Player.set_current_bet (Player.current_bet p + Z.min blind (stack p))
    (set_stack (stack p - Z.min blind (stack p)) p).

(** [reset_for_new_hand] as a function of the player. *)
Definition fresh_player (p : Player.t) : Player.t :=
  set_action_history (clear (action_history p))
    (set_all_in false (set_folded false (Player.set_current_bet 0 (set_hole_cards [] p)))).

(** A table of [n] seats with 1000 chips each. *)
Definition table_of (n : nat) : GameState.t :=
  GameState.new (replicate n (Player.new "p" 1000)) 10 20 (fun cards => cards).

(** Whether the player at seat [pos] modulo the number of seats can act. *)
Definition live_at (ps : list Player.t) (pos : Z) : bool :=
  match ps !! Z.to_nat (pos mod Z.of_nat (length ps)) with
  | Some p => can_act p
  | None => false
  end.

(** A player who can act and has less in than the table's bet. *)
Definition owes (g : GameState.t) (p : Player.t) : bool :=
  negb (folded p) && negb (all_in p)
  && (Player.current_bet p <? GameState.current_bet g).

Definition owes_at (g : GameState.t) (pos : Z) : bool :=
  match players g !! Z.to_nat (pos mod Z.of_nat (length (players g))) with
  | Some p => owes g p
  | None => false
  end.

(** A player after moving [amount] chips from the stack to the bet. *)
Definition commit (amount : Z) (p : Player.t) : Player.t :=
  Player.set_current_bet (Player.current_bet p + amount)
    (set_stack (stack p - amount) p).

(** A player after [bet amount]. *)
Definition after_bet (amount : Z) (p : Player.t) : Player.t :=
  if stack p <? amount then set_all_in true (commit (stack p) p)
  else commit amount p.

(** A player after the action has been added to the history. *)
Definition recorded (action : Action) (amount : Z) (round : BettingRound)
    (p : Player.t) : Player.t :=
  set_action_history
    (add_action action amount (value round) (action_history p)) p.

(** The actions that [execute_action] accepts from a player who can act. *)
Definition accepted (g : GameState.t) (p : Player.t) (action : Action) : bool :=
  match action with
  | CHECK => GameState.current_bet g <=? Player.current_bet p
  | CALL => Player.current_bet p <? GameState.current_bet g
  | FOLD | RAISE | ALL_IN => true
  end.

(** Closes the facts about one seat after an action. *)
Ltac seat_facts :=
  unfold recorded, commit; simpl;
  repeat split; auto; try lia; try discriminate;
  try (intros [?|[? _]]; congruence);
  try (intros _; right; auto).

(** The actions of seat [i] in a sequence of calls of [execute_action]. *)
Definition actions_of (i : nat) (acts : list (nat * Action * Z)) : list (Action * Z) :=
  map (fun x => (snd (fst x), snd x))
    (List.filter (fun x => Nat.eqb (fst (fst x)) i) acts).

(** [k] calls of [advance_dealer], one after the other. *)
Fixpoint advance_dealer_times (k : nat) : M GameState.t unit :=
  match k with
  | O => ret tt
  | S k' => (advance_dealer ;;; advance_dealer_times k')%py
  end.

(** A use of an [ActionHistory]: [add_action] or [clear]. *)
Inductive history_op :=
| Add (action : Action) (amount : Z) (round_name : string)
| Clear.

Definition apply_op (h : ActionHistory) (op : history_op) : ActionHistory :=
  match op with
  | Add action amount round_name => add_action action amount round_name h
  | Clear => clear h
  end.

(** The history object after the uses [ops], from its creation on. *)
Definition run_history (ops : list history_op) : ActionHistory :=
  fold_left apply_op ops new_history.

(** The actions added since the last [clear] under a round name that [keep]
    selects. *)
Definition log_since_clear (keep : string -> bool) (ops : list history_op)
  : list (Action * Z) :=
  fold_left (fun log op =>
               match op with
               | Add action amount round_name =>
                   if keep round_name then log ++ [(action, amount)] else log
               | Clear => []
               end) ops [].

(** The keys of [round_actions]. *)
Definition round_names : list string := ["preflop"; "flop"; "turn"; "river"].

(** How often the rank value [v] occurs among [values]. *)
Definition occurrences (values : list Z) (v : Z) : nat :=
  count_occ Z.eq_dec values v.

(** Some rank occurs exactly [n] times. *)
Definition occurs (n : nat) (values : list Z) : Prop :=
  exists v, occurrences values v = n.

(** All cards are of one suit. *)
Definition suited (cards : list Card) : Prop :=
  exists s, Forall (fun c => suit c = s) cards.

(** Five consecutive ranks, the ace counting low in the wheel. *)
Definition run (values : list Z) : Prop :=
  Permutation values wheel \/
  exists hi, Permutation values [hi; hi - 1; hi - 2; hi - 3; hi - 4].

Definition broadway : list Z := [14; 13; 12; 11; 10].

(** The test for a royal flush in [_evaluate_five_cards]. *)
Definition royal_test (values : list Z) : bool :=
  match py_max values, py_min values with
  | Ok hi, Ok lo => (hi =? 14) && (lo =? 10)
  | _, _ => false
  end.

(** The category that the cascade of [_evaluate_five_cards] selects, from
    the outcomes of its tests. *)
Definition selected (fl st royal q4 q3 q2 : bool) (pairs : nat) : HandRank :=
  if fl && st then (if royal then ROYAL_FLUSH else STRAIGHT_FLUSH)
  else if q4 then FOUR_OF_A_KIND
  else if q3 && q2 then FULL_HOUSE
  else if fl then FLUSH
  else if st then STRAIGHT
  else if q3 then THREE_OF_A_KIND
  else if (pairs =? 2)%nat then TWO_PAIR
  else if (pairs =? 1)%nat then ONE_PAIR
  else HIGH_CARD.

(** Turns a test that has been decided into the fact that it stands for. *)
Ltac settle H :=
  match type of H with
  | true = true <-> _ => apply proj1 in H; specialize (H eq_refl)
  | false = true <-> ?P =>
      let N := fresh in
      assert (~ P) as N by (let HP := fresh in intros HP; apply H in HP; discriminate HP);
      clear H
  end.

(** A card of the engine written as a card of [poker_shared]: the rank as
    in [RANKS], the suit by its symbol. *)
Definition shared_rank (r : Rank) : string :=
  match r with
  | TWO => "2" | THREE => "3" | FOUR => "4" | FIVE => "5" | SIX => "6"
  | SEVEN => "7" | EIGHT => "8" | NINE => "9" | TEN => "10"
  | JACK => "J" | QUEEN => "Q" | KING => "K" | ACE => "A"
  end.
Definition shared_suit (s : Suit) : string :=
  match s with
  | SPADES => "♠" | HEARTS => "♥" | DIAMONDS => "♦" | CLUBS => "♣"
  end.
Definition shared_card (c : Card) : Shared.Card :=
  Shared.mkCard (shared_rank (rank c)) (shared_suit (suit c)).

(** The seat of the big blind. *)
Definition big_blind_seat (g : GameState.t) : nat :=
  Z.to_nat ((dealer_position g + 2) mod Z.of_nat (length (players g))).

(** The seat whose bet the table's bet is after the calls [acts]: [start]
    until a raise is made, from then on the seat of the last raise. *)
Definition bet_setter (start : nat) (acts : list (nat * Action * Z)) : nat :=
  fold_left (fun seat act => match snd (fst act) with
                             | RAISE => fst (fst act)
                             | _ => seat
                             end) acts start.

(** ** The order on hand strengths *)

Lemma rank_value_inj r1 r2 : rank_value r1 = rank_value r2 -> r1 = r2.
Proof. destruct r1, r2; simpl; intros H; try reflexivity; discriminate H. Qed.

Lemma eqb_list_true l1 l2 : eqb_list l1 l2 = true <-> l1 = l2.
Proof.
  revert l2; induction l1 as [|x t IH]; intros [|y t2]; simpl; split;
    try congruence; try discriminate.
  - intros H. apply andb_true_iff in H as [Hx Ht].
    apply Z.eqb_eq in Hx. apply IH in Ht. congruence.
  - intros H. inversion H; subst. rewrite Z.eqb_refl. simpl. now apply IH.
Qed.

Lemma eq_true_iff a b : HandEvaluator.eq a b = true <-> a = b.
Proof.
  unfold HandEvaluator.eq. rewrite !andb_true_iff, !Z.eqb_eq, eqb_list_true.
  split.
  - intros [[[Hr Hp] Hs] Hk]. apply rank_value_inj in Hr.
    destruct a, b; simpl in *; congruence.
  - intros ->. auto.
Qed.

Lemma kickers_lt_irrefl l : kickers_lt l l = false.
Proof. induction l as [|x t IH]; simpl; [reflexivity|]. now rewrite Z.eqb_refl. Qed.

Lemma kickers_lt_asym l1 l2 : kickers_lt l1 l2 = true -> kickers_lt l2 l1 = false.
Proof.
  revert l2; induction l1 as [|x t IH]; intros [|y t2]; simpl; try discriminate.
  destruct (Z.eqb_spec x y) as [->|Hne]; simpl.
  - rewrite Z.eqb_refl. simpl. apply IH.
  - destruct (Z.eqb_spec y x) as [->|_]; [congruence|]. simpl.
    rewrite !Z.ltb_lt, Z.ltb_ge. lia.
Qed.

Lemma kickers_lt_trans l1 l2 l3 :
  length l1 = length l2 -> length l2 = length l3 ->
  kickers_lt l1 l2 = true -> kickers_lt l2 l3 = true -> kickers_lt l1 l3 = true.
Proof.
  revert l2 l3; induction l1 as [|x t IH]; intros [|y t2] [|z t3]; simpl;
    try discriminate.
  intros H12 H23.
  destruct (Z.eqb_spec x y) as [->|Hxy]; simpl.
  - destruct (Z.eqb_spec y z) as [->|Hyz]; simpl; [|tauto].
    apply IH; congruence.
  - destruct (Z.eqb_spec y z) as [->|Hyz]; simpl.
    + destruct (Z.eqb_spec x z); [contradiction|]. simpl. tauto.
    + rewrite !Z.ltb_lt. intros Hlt1 Hlt2.
      destruct (Z.eqb_spec x z); [lia|]. simpl. apply Z.ltb_lt. lia.
Qed.

Lemma kickers_lt_total l1 l2 :
  length l1 = length l2 -> l1 <> l2 ->
  kickers_lt l1 l2 = true \/ kickers_lt l2 l1 = true.
Proof.
  revert l2; induction l1 as [|x t IH]; intros [|y t2]; simpl;
    try discriminate; try congruence.
  intros Hlen Hne.
  destruct (Z.eqb_spec x y) as [->|Hxy]; simpl.
  - rewrite Z.eqb_refl. simpl. apply IH; congruence.
  - destruct (Z.eqb_spec y x); [congruence|]. simpl.
    rewrite !Z.ltb_lt. lia.
Qed.

(** [__lt__] is the lexicographic order on (rank, primary, secondary,
    kickers). *)
Lemma lt_true_iff a b :
  HandEvaluator.lt a b = true <->
  rank_value (hand_rank a) < rank_value (hand_rank b) \/
  (rank_value (hand_rank a) = rank_value (hand_rank b) /\
   (primary_value a < primary_value b \/
    (primary_value a = primary_value b /\
     (secondary_value a < secondary_value b \/
      (secondary_value a = secondary_value b /\
       kickers_lt (kickers a) (kickers b) = true))))).
Proof.
  unfold HandEvaluator.lt.
  destruct (Z.eqb_spec (rank_value (hand_rank a)) (rank_value (hand_rank b)));
    simpl; [|rewrite Z.ltb_lt; lia].
  destruct (Z.eqb_spec (primary_value a) (primary_value b));
    simpl; [|rewrite Z.ltb_lt; lia].
  destruct (Z.eqb_spec (secondary_value a) (secondary_value b));
    simpl; [|rewrite Z.ltb_lt; lia].
  intuition lia.
Qed.

Lemma lt_irrefl a : HandEvaluator.lt a a = false.
Proof.
  destruct (HandEvaluator.lt a a) eqn:H; [|reflexivity].
  apply lt_true_iff in H. rewrite kickers_lt_irrefl in H.
  intuition (try lia; discriminate).
Qed.

Lemma lt_asym a b : HandEvaluator.lt a b = true -> HandEvaluator.lt b a = false.
Proof.
  intros H. destruct (HandEvaluator.lt b a) eqn:H'; [|reflexivity].
  apply lt_true_iff in H, H'.
  assert (kickers_lt (kickers a) (kickers b) = true ->
          kickers_lt (kickers b) (kickers a) = true -> False) as Hk.
  { intros H1 H2. apply kickers_lt_asym in H1. congruence. }
  intuition lia.
Qed.

Lemma well_formed_same_length a b :
  well_formed a -> well_formed b ->
  rank_value (hand_rank a) = rank_value (hand_rank b) ->
  length (kickers a) = length (kickers b).
Proof.
  unfold well_formed. intros Ha Hb Hr. apply rank_value_inj in Hr. congruence.
Qed.

Lemma lt_trans a b c :
  well_formed a -> well_formed b -> well_formed c ->
  HandEvaluator.lt a b = true -> HandEvaluator.lt b c = true ->
  HandEvaluator.lt a c = true.
Proof.
  intros Ha Hb Hc H1 H2. apply lt_true_iff in H1, H2. apply lt_true_iff.
  assert (rank_value (hand_rank a) = rank_value (hand_rank b) ->
          rank_value (hand_rank b) = rank_value (hand_rank c) ->
          kickers_lt (kickers a) (kickers b) = true ->
          kickers_lt (kickers b) (kickers c) = true ->
          kickers_lt (kickers a) (kickers c) = true) as Hk.
  { intros E1 E2. apply kickers_lt_trans; now apply well_formed_same_length. }
  destruct H1 as [H1|[E1 [H1|[E1' [H1|[E1'' H1]]]]]];
    destruct H2 as [H2|[E2 [H2|[E2' [H2|[E2'' H2]]]]]];
    try (left; lia); right; (split; [lia|]);
    try (left; lia); right; (split; [lia|]);
    try (left; lia); right; (split; [lia|]); auto.
Qed.

Lemma lt_total a b :
  well_formed a -> well_formed b ->
  HandEvaluator.lt a b = true \/ a = b \/ HandEvaluator.lt b a = true.
Proof.
  intros Ha Hb. rewrite !lt_true_iff.
  destruct (Z.lt_total (rank_value (hand_rank a)) (rank_value (hand_rank b)))
    as [?|[Er|?]]; [left; lia| |right; right; lia].
  destruct (Z.lt_total (primary_value a) (primary_value b))
    as [?|[Ep|?]]; [left; lia| |right; right; lia].
  destruct (Z.lt_total (secondary_value a) (secondary_value b))
    as [?|[Es|?]]; [left; lia| |right; right; lia].
  destruct (decide (kickers a = kickers b)) as [Ek|Hne].
  - right; left. apply rank_value_inj in Er.
    destruct a, b; simpl in *; congruence.
  - destruct (kickers_lt_total (kickers a) (kickers b)) as [H|H]; auto.
    + now apply well_formed_same_length.
    + left. right. intuition.
    + right; right. right. intuition.
Qed.

Lemma gt_is_lt_flipped a b :
  well_formed a -> well_formed b -> HandEvaluator.gt a b = HandEvaluator.lt b a.
Proof.
  intros Ha Hb. unfold HandEvaluator.gt.
  destruct (lt_total a b Ha Hb) as [H|[->|H]].
  - rewrite H. simpl. symmetry. now apply lt_asym.
  - rewrite lt_irrefl. simpl.
    replace (HandEvaluator.eq b b) with true; [reflexivity|].
    symmetry. now apply eq_true_iff.
  - rewrite H. rewrite (lt_asym _ _ H). simpl.
    destruct (HandEvaluator.eq a b) eqn:E; [|reflexivity].
    apply eq_true_iff in E. subst. rewrite lt_irrefl in H. discriminate.
Qed.

Lemma le_strength_refl a : le_strength a a.
Proof. now right. Qed.

Lemma le_strength_trans a b c :
  well_formed a -> well_formed b -> well_formed c ->
  le_strength a b -> le_strength b c -> le_strength a c.
Proof.
  intros Ha Hb Hc [H1| ->] [H2| <-]; try (left; assumption); try (now right).
  left. now apply (lt_trans a b c).
Qed.

(** ** The five-card evaluation always yields a well-formed strength *)

Lemma insert_desc_length x l : length (insert_desc x l) = S (length l).
Proof.
  induction l as [|y t IH]; simpl; [reflexivity|].
  destruct (y <? x); simpl; congruence.
Qed.

Lemma sorted_desc_length l : length (sorted_desc l) = length l.
Proof.
  unfold sorted_desc.
  assert (forall acc, length (fold_left (fun acc x => insert_desc x acc) l acc)
                      = (length acc + length l)%nat) as H.
  { induction l as [|x t IH]; intros acc; simpl; [lia|].
    rewrite IH, insert_desc_length. lia. }
  apply H.
Qed.

Lemma counter_add_sum v cs : sum_counts (counter_add v cs) = S (sum_counts cs).
Proof.
  induction cs as [|[k c] t IH]; simpl; [reflexivity|].
  destruct (k =? v); simpl; [reflexivity|]. rewrite IH. lia.
Qed.

Lemma counter_add_positive v cs :
  Forall (fun vc => (1 <= snd vc)%nat) cs ->
  Forall (fun vc => (1 <= snd vc)%nat) (counter_add v cs).
Proof.
  induction 1 as [|[k c] t Hc Ht IH]; simpl.
  - repeat constructor.
  - destruct (k =? v); constructor; simpl in *; auto; lia.
Qed.

Lemma Counter_sum l : sum_counts (Counter l) = length l.
Proof.
  unfold Counter.
  assert (forall cs, sum_counts (fold_left (fun cs v => counter_add v cs) l cs)
                     = (sum_counts cs + length l)%nat) as H.
  { induction l as [|x t IH]; intros cs; simpl; [lia|].
    rewrite IH, counter_add_sum. lia. }
  apply H.
Qed.

Lemma Counter_positive l : Forall (fun vc => (1 <= snd vc)%nat) (Counter l).
Proof.
  unfold Counter.
  assert (forall cs, Forall (fun vc => (1 <= snd vc)%nat) cs ->
            Forall (fun vc => (1 <= snd vc)%nat)
              (fold_left (fun cs v => counter_add v cs) l cs)) as H.
  { induction l as [|x t IH]; intros cs Hcs; simpl; [assumption|].
    apply IH. now apply counter_add_positive. }
  apply H. constructor.
Qed.

Lemma classify_well_formed values cs fl st :
  length values = 5%nat ->
  Forall (fun vc => (1 <= snd vc)%nat) cs -> sum_counts cs = 5%nat ->
  exists h, classify values cs fl st = Ok h /\ well_formed h.
Proof.
  intros Hlen Hpos Hsum.
  do 6 (destruct values as [|? values]; try discriminate Hlen). clear Hlen.
  repeat next_count.
  all: destruct fl, st;
    unfold classify, well_formed, get_straight_high_card, py_max, py_min.
  all: split_ifs.
  all: eexists; split; [reflexivity|]; reflexivity.
Qed.

Lemma evaluate_five_cards_well_formed cards :
  length cards = 5%nat ->
  exists h, _evaluate_five_cards cards = Ok h /\ well_formed h.
Proof.
  intros Hlen. unfold _evaluate_five_cards.
  apply classify_well_formed.
  - now rewrite sorted_desc_length, length_map.
  - apply Counter_positive.
  - now rewrite Counter_sum, sorted_desc_length, length_map.
Qed.

(** ** [itertools.combinations] enumerates the sub-lists of a given length *)

Lemma combinations_0 {A} (l : list A) : combinations l 0 = [[]].
Proof. destruct l; reflexivity. Qed.

Lemma combinations_sublist {A} (l : list A) k five :
  In five (combinations l k) <-> sublist five l /\ length five = k.
Proof.
  split.
  - revert k five. induction l as [|x t IH]; intros [|k] five; simpl.
    + intros [<-|[]]. split; [constructor|reflexivity].
    + intros [].
    + intros [<-|[]]. split; [apply sublist_nil_l|reflexivity].
    + rewrite in_app_iff, in_map_iff. intros [(f & <- & Hf)|Hf].
      * apply IH in Hf as [Hs <-]. split; [now constructor|reflexivity].
      * apply IH in Hf as [Hs Hl]. split; [now constructor|assumption].
  - intros [Hs Hl]. revert k Hl.
    induction Hs as [|x l1 l2 Hs IH|x l1 l2 Hs IH]; intros k Hl.
    + subst k. now left.
    + simpl in Hl. subst k. simpl. apply in_app_iff. left.
      apply in_map. now apply IH.
    + destruct k as [|k]; [rewrite combinations_0|].
      * destruct l1; [now left|discriminate].
      * simpl. apply in_app_iff. right. now apply IH.
Qed.

Lemma combinations_length {A} (l : list A) k :
  Forall (fun five => length five = k) (combinations l k).
Proof.
  apply List.Forall_forall. intros five H. now apply combinations_sublist in H.
Qed.

Lemma combinations_nonempty {A} (l : list A) k :
  (k <= length l)%nat -> combinations l k <> [].
Proof.
  intros Hk H.
  assert (In (take k l) (combinations l k)) as Hin.
  { apply combinations_sublist. split.
    - apply sublist_take.
    - rewrite length_take. lia. }
  rewrite H in Hin. destruct Hin.
Qed.

(** ** The loop of [evaluate_hand] keeps the greatest strength seen *)

Lemma best_of_from_some combos : forall best,
  Forall (fun five => length five = 5%nat) combos ->
  well_formed best ->
  exists m, best_of combos (Some best) = Ok (Some m) /\
            well_formed m /\
            le_strength best m /\
            (m = best \/ exists five, In five combos /\ _evaluate_five_cards five = Ok m) /\
            (forall five, In five combos ->
               exists h, _evaluate_five_cards five = Ok h /\ le_strength h m).
Proof.
  induction combos as [|five rest IH]; intros best Hlen Hwf.
  - exists best. simpl. repeat split; auto using le_strength_refl.
    intros five [].
  - inversion Hlen as [|? ? H5 Hrest]; subst.
    destruct (evaluate_five_cards_well_formed five H5) as (h & Hh & Hwfh).
    simpl. rewrite Hh. simpl.
    rewrite (gt_is_lt_flipped h best Hwfh Hwf).
    destruct (HandEvaluator.lt best h) eqn:Hlt.
    + destruct (IH h Hrest Hwfh) as (m & Hm & Hwfm & Hle & Hin & Hall).
      exists m. split; [assumption|]. split; [assumption|].
      split; [|split].
      * apply (le_strength_trans best h m); auto. now left.
      * right. destruct Hin as [->|(f & Hf & Hfm)]; [exists five|exists f];
          simpl; auto.
      * intros f [<-|Hf]; [exists h; auto|]. now apply Hall.
    + destruct (IH best Hrest Hwf) as (m & Hm & Hwfm & Hle & Hin & Hall).
      exists m. split; [assumption|]. split; [assumption|].
      split; [assumption|split].
      * destruct Hin as [->|(f & Hf & Hfm)]; [now left|].
        right. exists f. simpl; auto.
      * intros f [<-|Hf]; [|now apply Hall].
        exists h. split; [assumption|].
        apply (le_strength_trans h best m); auto.
        destruct (lt_total best h Hwf Hwfh) as [H|[->|H]];
          [congruence|now right|now left].
Qed.

Lemma evaluate_hand_maximum (cards : list Card) :
  (5 <= length cards)%nat ->
  exists best,
    evaluate_hand cards = Ok (Some best) /\
    well_formed best /\
    (exists five, sublist five cards /\ length five = 5%nat /\
                  _evaluate_five_cards five = Ok best) /\
    (forall five, sublist five cards -> length five = 5%nat ->
       exists h, _evaluate_five_cards five = Ok h /\ le_strength h best).
Proof.
  intros Hlen. unfold evaluate_hand.
  destruct (length cards <? 5)%nat eqn:Hlt; [apply Nat.ltb_lt in Hlt; lia|].
  pose proof (combinations_length cards 5) as Hall.
  pose proof (combinations_nonempty cards 5 Hlen) as Hne.
  assert (forall five, In five (combinations cards 5) <->
                       sublist five cards /\ length five = 5%nat) as Hsub
    by (intros; apply combinations_sublist).
  destruct (combinations cards 5) as [|c0 rest]; [congruence|].
  inversion Hall as [|? ? H5 Hrest]; subst.
  destruct (evaluate_five_cards_well_formed c0 H5) as (h0 & Hh0 & Hwf0).
  simpl. rewrite Hh0. simpl.
  destruct (best_of_from_some rest h0 Hrest Hwf0) as (m & Hm & Hwfm & Hle & Hin & Hmax).
  exists m. split; [assumption|]. split; [assumption|]. split.
  - destruct Hin as [->|(f & Hf & Hfm)].
    + exists c0. destruct (proj1 (Hsub c0)) as [? ?]; [now left|]. auto.
    + exists f. destruct (proj1 (Hsub f)) as [? ?]; [now right|]. auto.
  - intros five Hs Hl. destruct (proj2 (Hsub five) (conj Hs Hl)) as [<-|Hf].
    + exists h0. auto.
    + now apply Hmax.
Qed.

(** ** Claims on the hand evaluator *)

(** C1. On more than five and at most seven distinct cards, [evaluate_hand]
    returns a strength that some five-card subset attains and that no
    five-card subset exceeds in the order of [__lt__]: the maximum of
    [_evaluate_five_cards] over the five-card subsets.  The seven cards
    A♣ A♦ A♥ K♣ K♦ 2♠ 3♠ give a Full House, primary 14, secondary 13. *)
Theorem evaluate_hand_best_five_of_seven (cards : list Card) :
  NoDup cards -> (5 < length cards <= 7)%nat ->
  (exists best,
     evaluate_hand cards = Ok (Some best) /\
     (exists five, sublist five cards /\ length five = 5%nat /\
                   _evaluate_five_cards five = Ok best) /\
     (forall five, sublist five cards -> length five = 5%nat ->
        exists h, _evaluate_five_cards five = Ok h /\
                  (HandEvaluator.lt h best = true \/ h = best) /\
                  HandEvaluator.gt h best = false)) /\
  evaluate_hand aces_over_kings = Ok (Some (mkHandStrength FULL_HOUSE 14 13 [])).
Proof.
  intros _ [Hlo _]. split; [|reflexivity].
  destruct (evaluate_hand_maximum cards) as (best & Hbest & Hwf & Hatt & Hmax); [lia|].
  exists best. split; [assumption|]. split; [assumption|].
  intros five Hs Hl. destruct (Hmax five Hs Hl) as (h & Hh & Hle).
  exists h. split; [assumption|]. split; [assumption|].
  destruct (evaluate_five_cards_well_formed five Hl) as (h' & Hh' & Hwfh).
  assert (h' = h) by congruence. subst h'.
  rewrite (gt_is_lt_flipped h best Hwfh Hwf).
  destruct Hle as [Hlt| ->]; [now apply lt_asym|apply lt_irrefl].
Qed.

Lemma evaluate_hand_best_five_of_seven_witness :
  NoDup aces_over_kings /\
  (exists best,
     evaluate_hand aces_over_kings = Ok (Some best) /\
     (exists five, sublist five aces_over_kings /\ length five = 5%nat /\
                   _evaluate_five_cards five = Ok best) /\
     (forall five, sublist five aces_over_kings -> length five = 5%nat ->
        exists h, _evaluate_five_cards five = Ok h /\
                  (HandEvaluator.lt h best = true \/ h = best) /\
                  HandEvaluator.gt h best = false)).
Proof.
  assert (NoDup aces_over_kings) as Hnd
    by (apply (bool_decide_unpack _); vm_compute; exact I).
  split; [exact Hnd|].
  apply (evaluate_hand_best_five_of_seven aces_over_kings Hnd).
  simpl. lia.
Defined.

(** C2. On the strengths of five-card hands, [__lt__] is a strict total
    order: asymmetric and transitive; exactly one of [a < b], [a == b],
    [a > b] holds, [a > b] being [b < a]; and when the categories differ the
    category alone decides.  [compare_hands] is antisymmetric accordingly. *)
Theorem hand_strength_strict_total_order (c1 c2 c3 : list Card) :
  length c1 = 5%nat -> length c2 = 5%nat -> length c3 = 5%nat ->
  exists a b c,
    evaluate_hand c1 = Ok (Some a) /\
    evaluate_hand c2 = Ok (Some b) /\
    evaluate_hand c3 = Ok (Some c) /\
    (HandEvaluator.lt a b = true -> HandEvaluator.lt b a = false) /\
    (HandEvaluator.lt a b = true -> HandEvaluator.lt b c = true ->
     HandEvaluator.lt a c = true) /\
    ((HandEvaluator.lt a b = true /\ HandEvaluator.eq a b = false /\
      HandEvaluator.gt a b = false) \/
     (HandEvaluator.lt a b = false /\ HandEvaluator.eq a b = true /\
      HandEvaluator.gt a b = false) \/
     (HandEvaluator.lt a b = false /\ HandEvaluator.eq a b = false /\
      HandEvaluator.gt a b = true)) /\
    HandEvaluator.gt a b = HandEvaluator.lt b a /\
    (hand_rank a <> hand_rank b ->
     HandEvaluator.lt a b = (rank_value (hand_rank a) <? rank_value (hand_rank b))) /\
    (exists r, compare_hands c1 c2 = Ok r /\ compare_hands c2 c1 = Ok (- r)).
Proof.
  intros H1 H2 H3.
  destruct (evaluate_hand_maximum c1) as (a & Ha & Hwa & _); [lia|].
  destruct (evaluate_hand_maximum c2) as (b & Hb & Hwb & _); [lia|].
  destruct (evaluate_hand_maximum c3) as (c & Hc & Hwc & _); [lia|].
  exists a, b, c. do 3 (split; [assumption|]).
  split; [apply lt_asym|].
  split; [now apply lt_trans|].
  pose proof (gt_is_lt_flipped a b Hwa Hwb) as Hgt.
  pose proof (gt_is_lt_flipped b a Hwb Hwa) as Hgt'.
  assert (HandEvaluator.eq a b = true -> HandEvaluator.lt a b = false) as Heq1.
  { intros E. apply eq_true_iff in E. subst. apply lt_irrefl. }
  assert (HandEvaluator.eq a b = true -> HandEvaluator.lt b a = false) as Heq2.
  { intros E. apply eq_true_iff in E. subst. apply lt_irrefl. }
  split; [|split; [assumption|split]].
  - rewrite Hgt.
    destruct (lt_total a b Hwa Hwb) as [H|[H|H]].
    + left. rewrite H, (lt_asym _ _ H).
      destruct (HandEvaluator.eq a b); auto. specialize (Heq1 eq_refl). congruence.
    + right; left. apply eq_true_iff in H. rewrite H. auto.
    + right; right. rewrite H, (lt_asym _ _ H).
      destruct (HandEvaluator.eq a b); auto. specialize (Heq2 eq_refl). congruence.
  - intros Hne. unfold HandEvaluator.lt.
    destruct (Z.eqb_spec (rank_value (hand_rank a)) (rank_value (hand_rank b))) as [E|E];
      [apply rank_value_inj in E; contradiction|reflexivity].
  - unfold compare_hands. rewrite Ha, Hb. simpl. rewrite Hgt, Hgt'.
    destruct (HandEvaluator.lt b a) eqn:Hba.
    + rewrite (lt_asym _ _ Hba). exists 1. auto.
    + destruct (HandEvaluator.lt a b); [exists (-1)|exists 0]; auto.
Qed.

Lemma hand_strength_strict_total_order_witness :
  exists a b c,
    evaluate_hand wheel_spades = Ok (Some a) /\
    evaluate_hand six_high_spades = Ok (Some b) /\
    evaluate_hand royal_spades = Ok (Some c) /\
    (HandEvaluator.lt a b = true -> HandEvaluator.lt b a = false) /\
    (HandEvaluator.lt a b = true -> HandEvaluator.lt b c = true ->
     HandEvaluator.lt a c = true) /\
    ((HandEvaluator.lt a b = true /\ HandEvaluator.eq a b = false /\
      HandEvaluator.gt a b = false) \/
     (HandEvaluator.lt a b = false /\ HandEvaluator.eq a b = true /\
      HandEvaluator.gt a b = false) \/
     (HandEvaluator.lt a b = false /\ HandEvaluator.eq a b = false /\
      HandEvaluator.gt a b = true)) /\
    HandEvaluator.gt a b = HandEvaluator.lt b a /\
    (hand_rank a <> hand_rank b ->
     HandEvaluator.lt a b = (rank_value (hand_rank a) <? rank_value (hand_rank b))) /\
    (exists r, compare_hands wheel_spades six_high_spades = Ok r /\
               compare_hands six_high_spades wheel_spades = Ok (- r)).
Proof.
  apply (hand_strength_strict_total_order wheel_spades six_high_spades royal_spades);
    reflexivity.
Defined.

(** C3. A♠ K♠ Q♠ J♠ T♠ is a Royal Flush; the wheel 5♠ 4♠ 3♠ 2♠ A♠ is a
    Straight Flush of primary value 5, not 14, and it is strictly below
    6♠ 5♠ 4♠ 3♠ 2♠, a Straight Flush of primary value 6. *)
Theorem wheel_straight_flush_below_six_high :
  evaluate_hand royal_spades = Ok (Some (mkHandStrength ROYAL_FLUSH 14 0 [])) /\
  evaluate_hand wheel_spades = Ok (Some (mkHandStrength STRAIGHT_FLUSH 5 0 [])) /\
  evaluate_hand six_high_spades = Ok (Some (mkHandStrength STRAIGHT_FLUSH 6 0 [])) /\
  HandEvaluator.lt (mkHandStrength STRAIGHT_FLUSH 5 0 [])
                   (mkHandStrength STRAIGHT_FLUSH 6 0 []) = true /\
  HandEvaluator.gt (mkHandStrength STRAIGHT_FLUSH 6 0 [])
                   (mkHandStrength STRAIGHT_FLUSH 5 0 []) = true /\
  compare_hands wheel_spades six_high_spades = Ok (-1).
Proof. repeat split; reflexivity. Qed.

(** ** Running a method on a seated player *)

Lemma set_players_id g : set_players (players g) g = g.
Proof. now destruct g. Qed.

Lemma on_player_eq {A} (m : M Player.t A) g i p :
  players g !! i = Some p ->
  on_player i m g =
  match m p with
  | Done a p' => Done a (set_players (<[i := p']> (players g)) g)
  | Raised e p' => Raised e (set_players (<[i := p']> (players g)) g)
  | OutOfFuel => OutOfFuel
  end.
Proof. intros H. unfold on_player. now rewrite H. Qed.

Lemma player_at_eq g i p : players g !! i = Some p -> player_at i g = Done p g.
Proof.
  intros H. unfold player_at. rewrite (on_player_eq _ g i p H). simpl.
  now rewrite (list_insert_id _ _ _ H), set_players_id.
Qed.

(** ** Claims on [execute_action] *)

(** C6. On a player whose [folded] or [all_in] flag is set, [execute_action]
    returns [False] for every action and amount and leaves the whole table
    as it was: pot, stacks, bets, flags and action histories. *)
Theorem execute_action_rejects_inactive (g : GameState.t) (i : nat) (p : Player.t)
    (action : Action) (amount : Z) :
  players g !! i = Some p ->
  folded p = true \/ all_in p = true ->
  execute_action i action amount g = Done false g.
Proof.
  intros Hp Hflag. unfold execute_action, bind.
  rewrite (player_at_eq g i p Hp).
  destruct Hflag as [-> | ->]; [reflexivity|].
  now rewrite orb_true_r.
Qed.

Lemma execute_action_rejects_inactive_witness :
  execute_action 1 RAISE 40 folded_seat_table = Done false folded_seat_table.
Proof.
  apply (execute_action_rejects_inactive folded_seat_table 1
           (Player.set_folded true (Player.new "villain" 1000))).
  - reflexivity.
  - left. reflexivity.
Defined.



(** A raise for more than the stack, on any table: the chips move as an
    all-in would move them, and the flag keeps its value. *)
Lemma raise_beyond_stack (g : GameState.t) (i : nat) (p : Player.t) (amount : Z) :
  players g !! i = Some p ->
  folded p = false -> all_in p = false ->
  stack p < GameState.current_bet g + amount - Player.current_bet p ->
  exists g' p',
    execute_action i RAISE amount g = Done true g' /\
    players g' !! i = Some p' /\
    all_in p' = false /\
    stack p' = 0 /\
    Player.current_bet p' = Player.current_bet p + stack p /\
    GameState.current_bet g' = Player.current_bet p + stack p /\
    pot g' = pot g + stack p.
Proof.
  intros Hp Hf Ha Hlt.
  assert (i < length (players g))%nat as Hi by now apply lookup_lt_Some in Hp.
  unfold execute_action, bind.
  rewrite (player_at_eq g i p Hp), Hf, Ha. simpl.
  unfold apply_action, bind, get.
  rewrite (player_at_eq g i p Hp).
  destruct (Z.ltb_spec (stack p) (GameState.current_bet g + amount - Player.current_bet p));
    [|lia].
  rewrite (on_player_eq _ g i p Hp). unfold bet.
  rewrite Z.ltb_irrefl. simpl.
  unfold player_at, on_player, get. simpl.
  rewrite !list_lookup_insert_eq by (rewrite ?length_insert; assumption).
  simpl. rewrite !list_lookup_insert_eq by (rewrite ?length_insert; assumption).
  eexists. eexists. split; [reflexivity|]. simpl.
  rewrite !list_lookup_insert_eq by (rewrite ?length_insert; assumption).
  split; [reflexivity|]. simpl. repeat split; auto. lia.
Qed.

(** C4. A raise that asks for more than the player's stack: the pot grows
    by the remaining stack and the table's bet becomes the player's
    committed total, but [all_in] stays [False], because [execute_action]
    passes [player.stack] to [Player.bet], whose all-in branch needs
    [amount > self.stack].  A call for more than the stack, the sibling
    path, does set the flag.  Seat 0 holds 50 chips. *)
Theorem raise_beyond_stack_leaves_all_in_unset :
  (exists g' p',
     execute_action 0 RAISE 100 short_stack_table = Done true g' /\
     players g' !! 0%nat = Some p' /\
     all_in p' = false /\
     stack p' = 0 /\
     Player.current_bet p' = 50 /\
     GameState.current_bet g' = 50 /\
     pot g' = pot short_stack_table + 50) /\
  (exists g' p',
     execute_action 0 CALL 0 big_bet_table = Done true g' /\
     players g' !! 0%nat = Some p' /\
     all_in p' = true /\
     stack p' = 0 /\
     pot g' = pot big_bet_table + 50).
Proof.
  split.
  - destruct (raise_beyond_stack short_stack_table 0 (Player.new "hero" 50) 100)
      as (g' & p' & H); try reflexivity.
    exists g', p'. exact H.
  - eexists. eexists. split; [vm_compute; reflexivity|].
    vm_compute. repeat split; reflexivity.
Qed.

(** ** Claims on dealing *)

Lemma set_deck_id g : set_deck (deck g) g = g.
Proof. now destruct g. Qed.

(** C8, as stated, fails: with three cards left [deal_flop] raises the
    [ValueError] of [Deck.deal], but only after the burn card has been
    popped, so the deck is not the deck it was. *)
Lemma deal_flop_failure_keeps_burn :
  (length (deck three_card_table) < 4)%nat /\
  deal_flop 0 three_card_table =
    Raised (ValueError (CannotDeal 3 2))
      (set_deck [mkCard TWO CLUBS; mkCard SEVEN HEARTS] three_card_table) /\
  ~ (exists e, deal_flop 0 three_card_table = Raised e three_card_table).
Proof.
  split; [simpl; lia|]. split; [reflexivity|].
  intros [e H]. vm_compute in H. discriminate H.
Qed.

(** C8, amended.  [Deck.deal] asked for more cards than remain raises its
    [ValueError] and leaves the deck, hence the table, as it was, whatever
    the size of the deck.  [deal_flop] with fewer than four cards left raises
    that error and leaves the players, the community cards, the round, the
    pot, the bets and the action position as they were; the deck is
    unchanged when it was empty, and has otherwise lost its top card, the
    burn. *)
Theorem insufficient_cards_is_a_hard_failure (g : GameState.t) (fuel : nat) :
  (forall (cards : Deck.t) (n : Z),
     Z.of_nat (length cards) < n ->
     Deck.deal n cards =
       Raised (ValueError (CannotDeal n (Z.of_nat (length cards)))) cards) /\
  (forall n : Z,
     Z.of_nat (length (deck g)) < n ->
     on_deck (Deck.deal n) g =
       Raised (ValueError (CannotDeal n (Z.of_nat (length (deck g))))) g) /\
  ((length (deck g) < 4)%nat ->
   exists k r g',
     deal_flop fuel g = Raised (ValueError (CannotDeal k r)) g' /\
     players g' = players g /\
     community_cards g' = community_cards g /\
     current_round g' = current_round g /\
     pot g' = pot g /\
     GameState.current_bet g' = GameState.current_bet g /\
     action_position g' = action_position g /\
     (deck g = [] -> g' = g) /\
     (deck g <> [] -> exists burn, deck g = deck g' ++ [burn])).
Proof.
  assert (forall (cards : Deck.t) (n : Z),
            Z.of_nat (length cards) < n ->
            Deck.deal n cards =
              Raised (ValueError (CannotDeal n (Z.of_nat (length cards)))) cards) as Hdeal.
  { intros cards n Hn. unfold Deck.deal.
    destruct (Z.ltb_spec (Z.of_nat (length cards)) n); [reflexivity|lia]. }
  split; [exact Hdeal|]. split.
  { intros n Hn. unfold on_deck. rewrite (Hdeal (deck g) n Hn). now rewrite set_deck_id. }
  intros H4.
  destruct g as [ps d cc p sp cb sb bb dp cr ap hn]. simpl in *.
  destruct d as [|c1 [|c2 [|c3 [|c4 d]]]]; simpl in H4; try lia.
  - exists 1, 0. eexists. split; [reflexivity|]. simpl.
    repeat split; auto. congruence.
  - exists 3, 0. eexists. split; [reflexivity|]. simpl.
    repeat split; auto; try congruence. intros _. now exists c1.
  - exists 3, 1. eexists. split; [reflexivity|]. simpl.
    repeat split; auto; try congruence. intros _. now exists c2.
  - exists 3, 2. eexists. split; [reflexivity|]. simpl.
    repeat split; auto; try congruence. intros _. now exists c3.
Qed.

Lemma insufficient_cards_is_a_hard_failure_witness :
  Deck.deal 53 fresh_cards = Raised (ValueError (CannotDeal 53 52)) fresh_cards /\
  on_deck (Deck.deal 4) three_card_table =
    Raised (ValueError (CannotDeal 4 3)) three_card_table /\
  exists k r g',
    deal_flop 0 three_card_table = Raised (ValueError (CannotDeal k r)) g' /\
    community_cards g' = community_cards three_card_table /\
    current_round g' = current_round three_card_table /\
    exists burn, deck three_card_table = deck g' ++ [burn].
Proof.
  destruct (insufficient_cards_is_a_hard_failure three_card_table 0)
    as (Hdeal & Htable & Hflop).
  split; [apply (Hdeal fresh_cards 53); simpl; lia|].
  split; [apply (Htable 4); simpl; lia|].
  destruct Hflop as (k & r & g' & H & _ & Hc & Hr & _ & _ & _ & _ & Hb);
    [simpl; lia|].
  exists k, r, g'. repeat split; try assumption.
  apply Hb. discriminate.
Defined.

(** ** The seat scan of [reset_betting_round] *)

Lemma for_seats_modify (f : Player.t -> Player.t) (m : nat) : forall k g,
  (k + m = length (players g))%nat ->
  for_seats (seq k m) (fun i => on_player i (modify f)) g =
  Done tt (set_players (take k (players g) ++ (f <$> drop k (players g))) g).
Proof.
  induction m as [|m IH]; intros k g Hk; simpl.
  - rewrite take_ge, drop_ge by lia. simpl.
    now rewrite app_nil_r, set_players_id.
  - destruct (lookup_lt_is_Some_2 (players g) k) as [p Hp]; [lia|].
    unfold bind at 1. rewrite (on_player_eq _ g k p Hp). simpl.
    rewrite IH by (simpl; rewrite length_insert; lia).
    f_equal. unfold set_players. simpl. f_equal.
    assert (k < length (players g))%nat by lia.
    rewrite (take_S_r _ k (f p)) by now apply list_lookup_insert_eq.
    rewrite take_insert_ge by lia. rewrite drop_insert_lt by lia.
    rewrite (drop_S _ p k Hp). simpl. now rewrite <- app_assoc.
Qed.

Lemma for_each_player_modify (f : Player.t -> Player.t) g :
  for_each_player (fun i => on_player i (modify f)) g =
  Done tt (set_players (f <$> players g) g).
Proof.
  unfold for_each_player, bind, get.
  rewrite for_seats_modify by reflexivity. now rewrite take_0, drop_0.
Qed.

Lemma seat_at_in_range a g :
  0 <= a < Z.of_nat (length (players g)) -> seat_at a g = Done (Z.to_nat a) g.
Proof.
  intros Ha. unfold seat_at.
  destruct (Z.ltb_spec a 0); [lia|].
  destruct (Z.ltb_spec a 0); [lia|].
  destruct (Z.leb_spec (Z.of_nat (length (players g))) a); [lia|]. reflexivity.
Qed.

Lemma mod_seats_eq a g :
  players g <> [] ->
  mod_seats a g = Done (a mod Z.of_nat (length (players g))) g.
Proof.
  intros Hne. unfold mod_seats.
  destruct (Z.eqb_spec (Z.of_nat (length (players g))) 0) as [E|_]; [|reflexivity].
  destruct (players g); [congruence|simpl in E; lia].
Qed.

Lemma seats_positive g : players g <> [] -> 0 < Z.of_nat (length (players g)).
Proof. destruct (players g); [congruence|simpl; lia]. Qed.

(** One turn of the loop, at a seat in range. *)
Lemma scan_seats_step fuel a g p :
  0 <= a < Z.of_nat (length (players g)) ->
  players g !! Z.to_nat a = Some p ->
  scan_seats fuel (set_action_position a g) =
  if can_act p then Done tt (set_action_position a g)
  else match fuel with
       | O => OutOfFuel
       | S fuel' =>
           scan_seats fuel'
             (set_action_position ((a + 1) mod Z.of_nat (length (players g))) g)
       end.
Proof.
  intros Ha Hp.
  assert (players g <> []) as Hne by (intros E; rewrite E in Ha; simpl in Ha; lia).
  destruct fuel as [|fuel]; simpl; unfold bind, get.
  all: change (action_position (set_action_position a g)) with a.
  all: rewrite (seat_at_in_range a (set_action_position a g)) by exact Ha.
  all: rewrite (player_at_eq (set_action_position a g) (Z.to_nat a) p) by exact Hp.
  all: unfold can_act; destruct (folded p || all_in p); simpl; try reflexivity.
  rewrite (mod_seats_eq _ (set_action_position a g)) by exact Hne. reflexivity.
Qed.

Lemma scan_seats_finds g : forall d a fuel,
  0 <= a < Z.of_nat (length (players g)) ->
  (d <= fuel)%nat ->
  (exists p, players g !! Z.to_nat ((a + Z.of_nat d) mod Z.of_nat (length (players g)))
             = Some p /\ can_act p = true) ->
  exists a' p,
    scan_seats fuel (set_action_position a g) = Done tt (set_action_position a' g) /\
    0 <= a' < Z.of_nat (length (players g)) /\
    players g !! Z.to_nat a' = Some p /\ can_act p = true.
Proof.
  induction d as [|d IH]; intros a fuel Ha Hfuel (p & Hp & Hact).
  - replace (a + Z.of_nat 0) with a in Hp by lia.
    rewrite Z.mod_small in Hp by exact Ha.
    exists a, p. rewrite (scan_seats_step fuel a g p Ha Hp), Hact. auto.
  - destruct (lookup_lt_is_Some_2 (players g) (Z.to_nat a)) as [q Hq]; [lia|].
    rewrite (scan_seats_step fuel a g q Ha Hq).
    destruct (can_act q) eqn:Hq_act; [exists a, q; auto|].
    destruct fuel as [|fuel]; [lia|].
    apply IH; [apply Z.mod_pos_bound; lia|lia|].
    exists p. split; [|exact Hact].
    rewrite Zplus_mod_idemp_l.
    replace (a + 1 + Z.of_nat d) with (a + Z.of_nat (S d)) by lia. exact Hp.
Qed.

Lemma scan_seats_diverges g :
  Forall (fun p => can_act p = false) (players g) ->
  forall fuel a, 0 <= a < Z.of_nat (length (players g)) ->
  scan_seats fuel (set_action_position a g) = OutOfFuel.
Proof.
  intros Hall. induction fuel as [|fuel IH]; intros a Ha.
  all: destruct (lookup_lt_is_Some_2 (players g) (Z.to_nat a)) as [q Hq]; [lia|].
  all: rewrite (scan_seats_step _ a g q Ha Hq).
  all: rewrite (proj1 (List.Forall_forall _ _) Hall q)
         by (apply list_elem_of_In, list_elem_of_lookup; eauto).
  - reflexivity.
  - apply IH. apply Z.mod_pos_bound. lia.
Qed.

(** The table on which the loop of [reset_betting_round] starts. *)
Lemma reset_betting_round_eq fuel g :
  players g <> [] ->
  reset_betting_round fuel g =
  scan_seats fuel
    (set_action_position
       ((dealer_position g + 1) mod Z.of_nat (length (players g)))
       (set_players (Player.set_current_bet 0 <$> players g)
          (set_current_bet 0 g))).
Proof.
  intros Hne. unfold reset_betting_round, bind at 1. simpl.
  unfold bind at 1. rewrite for_each_player_modify.
  unfold bind at 1, get. unfold bind at 1.
  rewrite mod_seats_eq by (simpl; now destruct (players g)).
  simpl. rewrite length_fmap. reflexivity.
Qed.

Lemma can_act_reset_bet p : can_act (Player.set_current_bet 0 p) = can_act p.
Proof. reflexivity. Qed.

Lemma reset_betting_round_returns g fuel :
  (exists i p, players g !! i = Some p /\ can_act p = true) ->
  (length (players g) <= fuel)%nat ->
  exists g' p,
    reset_betting_round fuel g = Done tt g' /\
    GameState.current_bet g' = 0 /\
    players g' = (Player.set_current_bet 0 <$> players g) /\
    players g' !! Z.to_nat (action_position g') = Some p /\
    can_act p = true.
Proof.
  intros (i & p & Hp & Hact) Hfuel.
  assert (players g <> []) as Hne by (intros E; rewrite E in Hp; discriminate).
  pose proof (seats_positive g Hne) as Hpos.
  rewrite reset_betting_round_eq by exact Hne.
  set (g1 := set_players (Player.set_current_bet 0 <$> players g) (set_current_bet 0 g)).
  set (n := Z.of_nat (length (players g))) in *.
  set (a := (dealer_position g + 1) mod n).
  assert (Z.of_nat (length (players g1)) = n) as Hn1
    by (unfold g1; simpl; now rewrite length_fmap).
  assert (i < length (players g))%nat as Hi by now apply lookup_lt_Some in Hp.
  destruct (scan_seats_finds g1 (Z.to_nat ((Z.of_nat i - a) mod n)) a fuel)
    as (a' & q & Hscan & Ha' & Hq & Hq_act).
  - rewrite Hn1. apply Z.mod_pos_bound. lia.
  - pose proof (Z.mod_pos_bound (Z.of_nat i - a) n Hpos). lia.
  - exists (Player.set_current_bet 0 p). split; [|exact Hact].
    rewrite Hn1, Z2Nat.id by (apply Z.mod_pos_bound; lia).
    rewrite Zplus_mod_idemp_r.
    replace (a + (Z.of_nat i - a)) with (Z.of_nat i) by lia.
    rewrite Z.mod_small by lia. rewrite Nat2Z.id.
    unfold g1. simpl. rewrite list_lookup_fmap, Hp. reflexivity.
  - exists (set_action_position a' g1), q. split; [exact Hscan|].
    simpl. auto.
Qed.

Lemma reset_betting_round_diverges g fuel :
  players g <> [] ->
  Forall (fun p => can_act p = false) (players g) ->
  reset_betting_round fuel g = OutOfFuel.
Proof.
  intros Hne Hall. rewrite reset_betting_round_eq by exact Hne.
  apply scan_seats_diverges.
  - simpl. apply List.Forall_forall. intros q Hq.
    apply list_elem_of_In, list_elem_of_fmap in Hq as (q0 & -> & Hq0).
    rewrite can_act_reset_bet.
    apply (proj1 (List.Forall_forall _ _) Hall). now apply list_elem_of_In.
  - simpl. rewrite length_fmap. apply Z.mod_pos_bound. now apply seats_positive.
Qed.

Lemma can_act_true p : can_act p = true <-> folded p = false /\ all_in p = false.
Proof. unfold can_act. destruct (folded p), (all_in p); simpl; intuition congruence. Qed.

Lemma can_act_false p : can_act p = false <-> folded p = true \/ all_in p = true.
Proof. unfold can_act. destruct (folded p), (all_in p); simpl; intuition congruence. Qed.

Lemma deal_never_out_of_fuel n d : Deck.deal n d <> OutOfFuel.
Proof.
  unfold Deck.deal. destruct (_ <? _); [discriminate|].
  destruct (pop_n _ _ _) as [[? ?]|]; discriminate.
Qed.

Lemma deal_one_never_out_of_fuel d : Deck.deal_one d <> OutOfFuel.
Proof.
  unfold Deck.deal_one, bind.
  pose proof (deal_never_out_of_fuel 1 d) as H.
  destruct (Deck.deal 1 d) as [cs d'|e d'|]; [|discriminate|congruence].
  destruct cs; discriminate.
Qed.

(** A deal followed by the reset of the round: the three phases. *)
Lemma deal_phase_terminates (n : Z) (round : BettingRound) g fuel :
  (exists i p, players g !! i = Some p /\ can_act p = true) ->
  (length (players g) <= fuel)%nat ->
  (on_deck Deck.deal_one ;;;
   cards <- on_deck (Deck.deal n) ;;
   extend_community cards ;;;
   modify (set_current_round round) ;;;
   reset_betting_round fuel)%py g <> OutOfFuel.
Proof.
  intros Hact Hfuel. unfold bind at 1. unfold on_deck at 1.
  pose proof (deal_one_never_out_of_fuel (deck g)) as H1.
  destruct (Deck.deal_one (deck g)) as [c d1|e d1|]; [|discriminate|congruence].
  unfold bind at 1. unfold on_deck at 1.
  pose proof (deal_never_out_of_fuel n (deck (set_deck d1 g))) as H2.
  destruct (Deck.deal n (deck (set_deck d1 g))) as [cs d2|e d2|];
    [|discriminate|congruence].
  unfold bind, extend_community, modify.
  match goal with
  | |- reset_betting_round fuel ?g3 <> _ =>
      destruct (reset_betting_round_returns g3 fuel Hact Hfuel) as (g' & p & E & _)
  end.
  rewrite E. discriminate.
Qed.

(** C10. With a player who is neither folded nor all-in at the table,
    [reset_betting_round] returns once its loop may run as many times as
    there are seats, with the action on such a player, and so [deal_flop],
    [deal_turn] and [deal_river] do not hang.  With every player folded or
    all-in the call never returns, and once the loop is entered, which takes
    a seat, no number of turns ends it. *)
Theorem reset_betting_round_termination (g : GameState.t) :
  ((exists i p, players g !! i = Some p /\ folded p = false /\ all_in p = false) ->
   forall fuel, (length (players g) <= fuel)%nat ->
     (exists g' p,
        reset_betting_round fuel g = Done tt g' /\
        players g' !! Z.to_nat (action_position g') = Some p /\
        folded p = false /\ all_in p = false) /\
     deal_flop fuel g <> OutOfFuel /\
     deal_turn fuel g <> OutOfFuel /\
     deal_river fuel g <> OutOfFuel) /\
  (Forall (fun p => folded p = true \/ all_in p = true) (players g) ->
   (forall fuel g', reset_betting_round fuel g <> Done tt g') /\
   (players g <> [] -> forall fuel, reset_betting_round fuel g = OutOfFuel)).
Proof.
  split.
  - intros (i & p & Hp & Hf & Ha) fuel Hfuel.
    assert (exists i p, players g !! i = Some p /\ can_act p = true) as Hact
      by (exists i, p; split; [assumption|now apply can_act_true]).
    split; [|repeat split; now apply deal_phase_terminates].
    destruct (reset_betting_round_returns g fuel Hact Hfuel)
      as (g' & q & E & _ & _ & Hq & Hq_act).
    apply can_act_true in Hq_act as [? ?]. exists g', q. auto.
  - intros Hall.
    assert (Forall (fun p => can_act p = false) (players g)) as Hall'.
    { apply List.Forall_forall. intros p Hp. apply can_act_false.
      now apply (proj1 (List.Forall_forall _ _) Hall). }
    split.
    + intros fuel g'. destruct (players g) eqn:E.
      * unfold reset_betting_round, bind at 1. simpl. unfold bind at 1.
        rewrite for_each_player_modify. unfold bind at 1, get.
        unfold bind at 1, mod_seats. simpl. rewrite E. simpl. discriminate.
      * rewrite reset_betting_round_diverges; [discriminate| |now rewrite <- E in Hall'].
        congruence.
    + intros Hne fuel. now apply reset_betting_round_diverges.
Qed.

Lemma reset_betting_round_termination_witness :
  (exists g' p,
     reset_betting_round 3 one_live_table = Done tt g' /\
     players g' !! Z.to_nat (action_position g') = Some p /\
     folded p = false /\ all_in p = false) /\
  deal_flop 3 one_live_table <> OutOfFuel /\
  (forall fuel, reset_betting_round fuel no_live_table = OutOfFuel).
Proof.
  destruct (reset_betting_round_termination one_live_table) as [Hlive _].
  destruct (reset_betting_round_termination no_live_table) as [_ Hdead].
  destruct (Hlive (ex_intro _ 2%nat (ex_intro _ (Player.new "villain" 1000)
              (conj eq_refl (conj eq_refl eq_refl)))) 3%nat)
    as (Hret & Hflop & _); [simpl; lia|].
  destruct Hdead as [_ Hloop].
  - constructor; [right; reflexivity|].
    constructor; [left; reflexivity|constructor].
  - split; [exact Hret|]. split; [exact Hflop|].
    apply Hloop. discriminate.
Defined.

(** ** Chips are conserved *)

Lemma sum_stacks_insert ps : forall i p p',
  ps !! i = Some p ->
  sum_stacks (<[i := p']> ps) = sum_stacks ps - stack p + stack p'.
Proof.
  induction ps as [|q ps IH]; intros [|i] p p' Hp; simpl in *; try discriminate.
  - inversion Hp; subst. lia.
  - rewrite (IH i p p' Hp). lia.
Qed.

Lemma chips_committed_eq before now :
  length before = length now ->
  chips_committed before now = sum_stacks before - sum_stacks now.
Proof.
  revert now. induction before as [|p0 before IH]; intros [|p now] Hlen;
    simpl in *; try discriminate; [reflexivity|].
  unfold chips_committed in *. simpl. rewrite IH by lia. lia.
Qed.

Lemma bet_effect amount p :
  exists actual p',
    bet amount p = Done actual p' /\
    stack p' = stack p - actual /\
    Player.current_bet p' = Player.current_bet p + actual /\
    folded p' = folded p /\
    (all_in p' = true <-> all_in p = true \/ stack p < amount) /\
    (amount <= stack p -> actual = amount).
Proof.
  unfold bet. destruct (Z.ltb_spec (stack p) amount).
  - eexists. eexists. split; [reflexivity|]. simpl.
    repeat split; auto; try lia.
  - eexists. eexists. split; [reflexivity|]. simpl.
    repeat split; auto; try lia. intros [?|?]; [assumption|lia].
Qed.

(** What a call of [execute_action] on a seated player does to the chips:
    either it is refused and nothing changes, or the pot takes what leaves
    the stack, and the table's bet either stays, with the player's own bet
    unchanged or different from it, or becomes the player's bet. *)
Lemma execute_action_effect g i p action amount :
  players g !! i = Some p ->
  exists b g',
    execute_action i action amount g = Done b g' /\
    (b = false -> g' = g) /\
    (b = true ->
     exists p',
       players g' = <[i := p']> (players g) /\
       pot g' + stack p' = pot g + stack p /\
       ((GameState.current_bet g' = GameState.current_bet g /\
         (Player.current_bet p' = Player.current_bet p \/
          Player.current_bet p <> GameState.current_bet g)) \/
        GameState.current_bet g' = Player.current_bet p')).
Proof.
  intros Hp.
  assert (i < length (players g))%nat as Hi by now apply lookup_lt_Some in Hp.
  unfold execute_action, bind at 1.
  rewrite (player_at_eq g i p Hp).
  destruct (folded p || all_in p).
  { exists false, g. split; [reflexivity|]. split; [reflexivity|discriminate]. }
  unfold bind at 1.
  destruct action; unfold apply_action.
  - (* FOLD *)
    unfold bind at 1. rewrite (on_player_eq _ g i p Hp). simpl.
    unfold bind, get. unfold on_player. simpl.
    rewrite list_lookup_insert_eq by exact Hi. simpl.
    eexists. eexists. split; [reflexivity|]. split; [discriminate|].
    intros _. eexists. split; [simpl; apply list_insert_insert_eq|].
    simpl. split; [reflexivity|]. left. auto.
  - (* CALL *)
    unfold bind at 1, get. unfold bind at 1. rewrite (player_at_eq g i p Hp).
    destruct (Z.leb_spec (GameState.current_bet g - Player.current_bet p) 0).
    { simpl. exists false, g. split; [reflexivity|]. split; [reflexivity|discriminate]. }
    unfold bind at 1. rewrite (on_player_eq _ g i p Hp).
    destruct (bet_effect (GameState.current_bet g - Player.current_bet p) p)
      as (actual & p1 & -> & Hs & Hb & _).
    simpl. unfold bind, get, on_player. simpl.
    rewrite list_lookup_insert_eq by exact Hi. simpl.
    eexists. eexists. split; [reflexivity|]. split; [discriminate|].
    intros _. eexists. split; [simpl; apply list_insert_insert_eq|].
    simpl. split; [lia|]. left. split; [reflexivity|]. right. lia.
  - (* RAISE *)
    unfold bind at 1, get. unfold bind at 1. rewrite (player_at_eq g i p Hp).
    destruct (Z.ltb_spec (stack p)
                (GameState.current_bet g + amount - Player.current_bet p)) as [Hlt|Hge].
    + unfold bind at 1. rewrite (on_player_eq _ g i p Hp).
      destruct (bet_effect (stack p) p) as (actual & p1 & -> & Hs & Hb & _).
      simpl. unfold bind, get, player_at, on_player, get. simpl.
      rewrite !list_lookup_insert_eq by (rewrite ?length_insert; exact Hi). simpl.
      rewrite !list_lookup_insert_eq by (rewrite ?length_insert; exact Hi). simpl.
      eexists. eexists. split; [reflexivity|]. split; [discriminate|].
      intros _. eexists. split; [simpl; rewrite !list_insert_insert_eq; reflexivity|].
      simpl. split; [lia|]. right. reflexivity.
    + unfold bind at 1. rewrite (on_player_eq _ g i p Hp).
      destruct (bet_effect (GameState.current_bet g + amount - Player.current_bet p) p)
        as (actual & p1 & -> & Hs & Hb & _ & _ & Hexact).
      simpl. unfold bind, get, on_player. simpl.
      rewrite list_lookup_insert_eq by exact Hi. simpl.
      eexists. eexists. split; [reflexivity|]. split; [discriminate|].
      intros _. eexists. split; [simpl; apply list_insert_insert_eq|].
      simpl. split; [lia|]. right. rewrite Hb, (Hexact Hge). lia.
  - (* CHECK *)
    unfold bind at 1, get. unfold bind at 1. rewrite (player_at_eq g i p Hp).
    destruct (Player.current_bet p <? GameState.current_bet g).
    { simpl. exists false, g. split; [reflexivity|]. split; [reflexivity|discriminate]. }
    simpl. unfold bind, get, on_player. rewrite Hp. simpl.
    eexists. eexists. split; [reflexivity|]. split; [discriminate|].
    intros _. eexists. split; [reflexivity|].
    simpl. split; [reflexivity|]. left. auto.
  - (* ALL_IN *)
    simpl. unfold bind, get, on_player. rewrite Hp. simpl.
    eexists. eexists. split; [reflexivity|]. split; [discriminate|].
    intros _. eexists. split; [reflexivity|].
    simpl. split; [reflexivity|]. left. auto.
Qed.

(** Dealing the hole cards moves no chip. *)
Lemma deal_hole_cards_chips {X} (f : Player.t -> X) :
  (forall cards p, f (set_hole_cards cards p) = f p) ->
  forall g g', deal_hole_cards g = Done tt g' ->
  table_chips g' = table_chips g /\ f <$> players g' = f <$> players g.
Proof.
  intros Hf g g'. unfold deal_hole_cards, for_each_player, bind at 1, get.
  generalize (seq 0 (length (players g))). intros seats. revert g.
  induction seats as [|i seats IH]; intros g; simpl.
  - unfold ret. intros H. inversion H; subst. auto.
  - unfold bind at 1. unfold bind at 1.
    destruct (players g !! i) as [p|] eqn:Hp.
    + rewrite (player_at_eq g i p Hp).
      destruct (folded p); simpl.
      * intros H. now apply IH in H.
      * unfold bind at 1. unfold on_deck.
        destruct (Deck.deal 2 (deck g)) as [cards d|e d|]; try discriminate.
        rewrite (on_player_eq _ (set_deck d g) i p Hp). simpl.
        intros H. apply IH in H as [H1 H2]. simpl in *.
        split; [exact H1|]. rewrite H2, list_fmap_insert, Hf.
        apply list_insert_id. now rewrite list_lookup_fmap, Hp.
    + unfold player_at, on_player. rewrite Hp. discriminate.
Qed.

Lemma next_seat_differs (d n : Z) :
  2 <= n -> Z.to_nat ((d + 2) mod n) <> Z.to_nat ((d + 1) mod n).
Proof.
  intros Hn.
  pose proof (Z.mod_pos_bound (d + 1) n ltac:(lia)) as H1.
  replace (d + 2) with (d + 1 + 1) by lia.
  rewrite <- Zplus_mod_idemp_l.
  set (x := (d + 1) mod n) in *.
  destruct (Z.eq_dec (x + 1) n) as [E|E].
  - rewrite E, Z.mod_same by lia. lia.
  - rewrite Z.mod_small by lia. lia.
Qed.

(** Posting the blinds moves chips from two stacks to the pot, and leaves
    the table's bet equal to the bet of the big blind's seat. *)
Lemma post_blinds_effect g g' :
  post_blinds g = Done tt g' ->
  length (players g') = length (players g) /\
  pot g' + sum_stacks (players g') = pot g + sum_stacks (players g) /\
  ((2 <= length (players g))%nat ->
   Forall (fun p => Player.current_bet p = 0) (players g) ->
   exists j q, players g' !! j = Some q /\
               Player.current_bet q = GameState.current_bet g').
Proof.
  unfold post_blinds, bind at 1, get. unfold bind at 1.
  destruct (decide (players g = [])) as [E|Hne].
  { unfold mod_seats. rewrite E. simpl. discriminate. }
  pose proof (seats_positive g Hne) as Hpos.
  set (n := Z.of_nat (length (players g))) in *.
  rewrite mod_seats_eq by exact Hne. fold n.
  unfold bind at 1. rewrite mod_seats_eq by exact Hne. fold n.
  pose proof (Z.mod_pos_bound (dealer_position g + 1) n Hpos) as Hsb.
  pose proof (Z.mod_pos_bound (dealer_position g + 2) n Hpos) as Hbb.
  set (sb := (dealer_position g + 1) mod n) in *.
  set (bb := (dealer_position g + 2) mod n) in *.
  unfold bind at 1. rewrite seat_at_in_range by exact Hsb.
  destruct (lookup_lt_is_Some_2 (players g) (Z.to_nat sb)) as [p Hp]; [lia|].
  unfold bind at 1. rewrite (on_player_eq _ g _ p Hp).
  destruct (bet_effect (Z.min (small_blind g) (stack p)) p)
    as (a1 & p1 & -> & Hs1 & Hb1 & _).
  unfold bind at 1. simpl.
  unfold bind at 1.
  rewrite seat_at_in_range by (simpl; rewrite length_insert; exact Hbb).
  destruct (lookup_lt_is_Some_2 (<[Z.to_nat sb := p1]> (players g)) (Z.to_nat bb))
    as [q Hq]; [rewrite length_insert; lia|].
  unfold bind at 1.
  erewrite on_player_eq by (simpl; exact Hq).
  destruct (bet_effect (Z.min (big_blind g) (stack q)) q)
    as (a2 & q1 & -> & Hs2 & Hb2 & _).
  unfold bind at 1. simpl.
  unfold bind at 1. simpl. unfold bind at 1.
  rewrite mod_seats_eq by (simpl; intros E; apply (f_equal length) in E;
                           rewrite !length_insert in E; simpl in E; lia).
  simpl. intros H. inversion H; subst g'; clear H. simpl.
  split; [now rewrite !length_insert|]. split.
  - rewrite (sum_stacks_insert _ _ q q1 Hq), (sum_stacks_insert _ _ p p1 Hp). lia.
  - intros Hn Hzero. exists (Z.to_nat bb), q1. split.
    + apply list_lookup_insert_eq. rewrite length_insert. lia.
    + rewrite list_lookup_insert_ne in Hq
        by (apply not_eq_sym, next_seat_differs; lia).
      assert (Player.current_bet q = 0) as Hq0.
      { apply (proj1 (List.Forall_forall _ _) Hzero).
        apply list_elem_of_In, list_elem_of_lookup. eauto. }
      lia.
Qed.

Lemma sum_stacks_fmap ps : sum_stacks ps = fold_right Z.add 0 (stack <$> ps).
Proof.
  unfold sum_stacks. induction ps as [|p ps IH]; simpl; [reflexivity|].
  now f_equal.
Qed.

Lemma reset_all_players g :
  exists ps,
    for_each_player (fun i => on_player i reset_for_new_hand) g =
      Done tt (set_players ps g) /\
    stack <$> ps = stack <$> players g /\
    Forall (fun p => Player.current_bet p = 0) ps.
Proof.
  eexists. split; [apply for_each_player_modify|]. split.
  - rewrite <- list_fmap_compose. reflexivity.
  - apply List.Forall_forall. intros p Hp.
    apply list_elem_of_In, list_elem_of_fmap in Hp as (p0 & -> & _). reflexivity.
Qed.

(** After [start_new_hand] the pot holds what has left the stacks, and the
    table's bet is the bet of the big blind's seat. *)
Lemma start_new_hand_effect shuffle g g0 :
  start_new_hand shuffle g = Done tt g0 ->
  length (players g0) = length (players g) /\
  pot g0 + sum_stacks (players g0) = sum_stacks (players g) /\
  ((2 <= length (players g))%nat ->
   exists j q, players g0 !! j = Some q /\
               Player.current_bet q = GameState.current_bet g0).
Proof.
  unfold start_new_hand.
  do 7 (unfold bind at 1; simpl).
  match goal with
  | |- _ ?gA = _ -> _ =>
      destruct (reset_all_players gA) as (ps & E & Hstacks & Hzero)
  end.
  unfold bind at 1. rewrite E. clear E. simpl in Hstacks.
  unfold bind at 1.
  match goal with
  | |- context [deal_hole_cards ?gB] =>
      destruct (deal_hole_cards gB) as [[] g2|e g2|] eqn:Hdeal; try discriminate
  end.
  intros Hpost.
  destruct (deal_hole_cards_chips stack (fun _ _ => eq_refl) _ _ Hdeal) as [Htable Hs].
  destruct (deal_hole_cards_chips Player.current_bet (fun _ _ => eq_refl) _ _ Hdeal)
    as [_ Hb].
  simpl in Htable, Hs, Hb.
  assert (pot g2 = 0) as Hpot by (unfold table_chips in Htable; simpl in Htable; congruence).
  assert (length (players g2) = length (players g)) as Hlen.
  { apply (f_equal length) in Hs, Hstacks. rewrite !length_fmap in *. congruence. }
  destruct (post_blinds_effect g2 g0 Hpost) as (Hlen0 & Hsum & Hseat).
  split; [congruence|]. split.
  - rewrite Hsum, Hpot, !sum_stacks_fmap. rewrite Hs, Hstacks. lia.
  - intros Hn. apply Hseat; [lia|].
    apply List.Forall_forall. intros p Hp.
    apply list_elem_of_In in Hp.
    assert (Player.current_bet p ∈ Player.current_bet <$> players g2) as Hin
      by (apply list_elem_of_fmap; eauto).
    rewrite Hb in Hin. apply list_elem_of_fmap in Hin as (p0 & -> & Hp0).
    apply (proj1 (List.Forall_forall _ _) Hzero). now apply list_elem_of_In.
Qed.

Lemma execute_action_unseated g i action amount :
  players g !! i = None -> execute_action i action amount g = Raised IndexError g.
Proof.
  intros H. unfold execute_action, bind, player_at, on_player. now rewrite H.
Qed.

Lemma run_actions_invariant acts : forall g0 g',
  run_actions acts g0 = Some g' ->
  length (players g') = length (players g0) /\
  pot g' + sum_stacks (players g') = pot g0 + sum_stacks (players g0) /\
  ((exists j q, players g0 !! j = Some q /\
                Player.current_bet q = GameState.current_bet g0) ->
   exists j q, players g' !! j = Some q /\
               Player.current_bet q = GameState.current_bet g').
Proof.
  induction acts as [|[[i action] amount] acts IH]; intros g0 g'; simpl.
  - intros H. inversion H; subst. auto.
  - destruct (players g0 !! i) as [p|] eqn:Hp.
    2: { rewrite execute_action_unseated by exact Hp. discriminate. }
    destruct (execute_action_effect g0 i p action amount Hp) as (b & g1 & E & _ & Ht).
    rewrite E. destruct b; [|discriminate].
    destruct (Ht eq_refl) as (p' & Hps & Hpot & Hbet).
    assert (i < length (players g0))%nat as Hi by now apply lookup_lt_Some in Hp.
    intros H. apply IH in H as (Hlen & Hsum & Hseat).
    split; [rewrite Hlen, Hps; apply length_insert|]. split.
    + rewrite Hsum, Hps, (sum_stacks_insert _ _ p p' Hp). lia.
    + intros (j & q & Hq & Hqb). apply Hseat.
      destruct Hbet as [[Hsame Hown]|Hset].
      * destruct (decide (j = i)) as [->|Hne].
        -- exists i, p'. rewrite Hps. split; [now apply list_lookup_insert_eq|].
           assert (q = p) by congruence. subst q.
           destruct Hown; congruence.
        -- exists j, q. rewrite Hps, Hsame.
           split; [now rewrite list_lookup_insert_ne|exact Hqb].
      * exists i, p'. rewrite Hps. split; [now apply list_lookup_insert_eq|congruence].
Qed.

(** ** Claim on the pot and the table's bet *)

(** C7, as stated, fails on its second half.  A big blind short of the
    blind sets the table's bet to what it could post, below the small
    blind's bet; and a fold by the highest bettor leaves the table's bet
    above every bet still in the hand. *)
Lemma current_bet_is_not_the_maximum_bet :
  (exists g0,
     start_new_hand (fun cards => cards) short_blind_table = Done tt g0 /\
     run_actions [] g0 = Some g0 /\
     GameState.current_bet g0 = 5 /\
     max_active_bet g0 = Ok 10) /\
  (exists g0 g',
     start_new_hand (fun cards => cards) full_stack_table = Done tt g0 /\
     run_actions [(2%nat, FOLD, 0)] g0 = Some g' /\
     GameState.current_bet g' = 20 /\
     max_active_bet g' = Ok 10).
Proof.
  split.
  - eexists. split; [vm_compute; reflexivity|].
    split; [reflexivity|]. split; reflexivity.
  - eexists. eexists. split; [vm_compute; reflexivity|].
    split; [vm_compute; reflexivity|]. split; reflexivity.
Qed.


(** ** The showdown sort is stable and puts the best strength first *)

Lemma insert_hand_in (x z : nat * HandStrength) l :
  In z (insert_hand x l) <-> z = x \/ In z l.
Proof.
  induction l as [|y t IH]; simpl; [intuition|].
  destruct (HandEvaluator.lt (snd y) (snd x)); simpl; [intuition|].
  rewrite IH. intuition.
Qed.

Lemma insert_hand_descending x l :
  well_formed (snd x) -> all_well_formed l -> descending l ->
  descending (insert_hand x l).
Proof.
  intros Hx. induction l as [|y t IH]; intros Hwf Hd; simpl.
  - split; [constructor|exact I].
  - inversion Hwf as [|? ? Hy Ht]; subst. destruct Hd as [Hyt Hdt].
    destruct (HandEvaluator.lt (snd y) (snd x)) eqn:Hlt; simpl.
    + split; [|split; assumption].
      constructor; [now apply lt_asym|].
      apply List.Forall_forall. intros z Hz.
      destruct (HandEvaluator.lt (snd x) (snd z)) eqn:Hxz; [|reflexivity].
      assert (HandEvaluator.lt (snd y) (snd z) = true) as Hyz.
      { apply (lt_trans _ (snd x)); auto.
        apply (proj1 (List.Forall_forall _ _) Ht z Hz). }
      rewrite (proj1 (List.Forall_forall _ _) Hyt z Hz) in Hyz. discriminate.
    + split; [|now apply IH].
      apply List.Forall_forall. intros z Hz. apply insert_hand_in in Hz as [->|Hz].
      * exact Hlt.
      * apply (proj1 (List.Forall_forall _ _) Hyt z Hz).
Qed.

Lemma insert_hand_well_formed x l :
  well_formed (snd x) -> all_well_formed l -> all_well_formed (insert_hand x l).
Proof.
  intros Hx Hl. apply List.Forall_forall. intros z Hz.
  apply insert_hand_in in Hz as [->|Hz]; [exact Hx|].
  apply (proj1 (List.Forall_forall _ _) Hl z Hz).
Qed.

Lemma ties_with_none s l :
  (forall z, In z l -> HandEvaluator.eq (snd z) s = false) -> ties_with s l = [].
Proof.
  induction l as [|y t IH]; intros H; simpl; [reflexivity|].
  rewrite (H y) by now left. apply IH. intros z Hz. apply H. now right.
Qed.

(** Stability: a hand inserted goes behind the hands it ties with. *)
Lemma insert_hand_ties s x l :
  descending l ->
  ties_with s (insert_hand x l) = ties_with s l ++ ties_with s [x].
Proof.
  induction l as [|y t IH]; intros Hd; simpl; [reflexivity|].
  destruct Hd as [Hyt Hdt].
  destruct (HandEvaluator.lt (snd y) (snd x)) eqn:Hlt.
  - simpl. destruct (HandEvaluator.eq (snd x) s) eqn:Hxs.
    + apply eq_true_iff in Hxs. subst s.
      assert (ties_with (snd x) (y :: t) = []) as E.
      { apply ties_with_none. intros z Hz.
        destruct (HandEvaluator.eq (snd z) (snd x)) eqn:Hzx; [|reflexivity].
        apply eq_true_iff in Hzx. destruct Hz as [<-|Hz].
        - rewrite Hzx, lt_irrefl in Hlt. discriminate.
        - pose proof (proj1 (List.Forall_forall _ _) Hyt z Hz) as Hyz.
          simpl in Hyz. rewrite Hzx in Hyz. congruence. }
      simpl in E. rewrite E. reflexivity.
    + now rewrite app_nil_r.
  - simpl. rewrite (IH Hdt). now destruct (HandEvaluator.eq (snd y) s).
Qed.

Lemma sort_hands_spec l :
  all_well_formed l ->
  descending (sort_hands l) /\
  all_well_formed (sort_hands l) /\
  (forall z, In z (sort_hands l) <-> In z l) /\
  (forall s, ties_with s (sort_hands l) = ties_with s l).
Proof.
  unfold sort_hands.
  assert (forall acc, all_well_formed acc -> descending acc -> all_well_formed l ->
            descending (fold_left (fun sorted x => insert_hand x sorted) l acc) /\
            all_well_formed (fold_left (fun sorted x => insert_hand x sorted) l acc) /\
            (forall z, In z (fold_left (fun sorted x => insert_hand x sorted) l acc)
                       <-> In z acc \/ In z l) /\
            (forall s, ties_with s (fold_left (fun sorted x => insert_hand x sorted) l acc)
                       = ties_with s acc ++ ties_with s l)) as H.
  { induction l as [|x t IH]; intros acc Hacc Hd Hl; simpl.
    - repeat split; auto; try tauto. intros s. now rewrite app_nil_r.
    - inversion Hl as [|? ? Hx Ht]; subst.
      destruct (IH (insert_hand x acc)) as (H1 & H2 & H3 & H4); auto.
      + now apply insert_hand_well_formed.
      + now apply insert_hand_descending.
      + split; [exact H1|]. split; [exact H2|]. split.
        * intros z. rewrite H3, insert_hand_in. simpl. intuition congruence.
        * intros s. rewrite H4, insert_hand_ties by exact Hd.
          rewrite <- app_assoc. simpl.
          now destruct (HandEvaluator.eq (snd x) s). }
  intros Hl.
  destruct (H [] ltac:(constructor) I Hl) as (H1 & H2 & H3 & H4).
  split; [exact H1|]. split; [exact H2|]. split; [|exact H4].
  intros z. rewrite H3. simpl. tauto.
Qed.

(** In a descending list the hands equal to a strength that none exceeds
    are the leading ones. *)
Lemma leading_ties_are_ties best l :
  well_formed best -> all_well_formed l -> descending l ->
  (forall z, In z l -> HandEvaluator.lt best (snd z) = false) ->
  leading_ties best l = map fst (ties_with best l).
Proof.
  intros Hb. induction l as [|[i h] t IH]; intros Hwf Hd Hmax; simpl; [reflexivity|].
  inversion Hwf as [|? ? Hh Ht]; subst. destruct Hd as [Hht Hdt]. simpl in *.
  destruct (HandEvaluator.eq h best) eqn:Heq; simpl.
  - f_equal. apply IH; auto.
  - rewrite ties_with_none; [reflexivity|].
    intros z Hz. destruct (HandEvaluator.eq (snd z) best) eqn:Hzb; [|reflexivity].
    apply eq_true_iff in Hzb.
    pose proof (proj1 (List.Forall_forall _ _) Hht z Hz) as Hhz. simpl in Hhz.
    rewrite Hzb in Hhz.
    pose proof (Hmax (i, h) (or_introl eq_refl)) as Hbh. simpl in Hbh.
    destruct (lt_total h best Hh Hb) as [H|[H|H]]; try congruence.
    apply eq_true_iff in H. congruence.
Qed.

Lemma descending_head_is_best x t :
  descending (x :: t) ->
  forall z, In z (x :: t) -> HandEvaluator.lt (snd x) (snd z) = false.
Proof.
  intros [Hxt _] z [<-|Hz]; [apply lt_irrefl|].
  apply (proj1 (List.Forall_forall _ _) Hxt z Hz).
Qed.

Lemma evaluate_players_ok community active :
  Forall (fun ip => (5 <= length (hole_cards (snd ip) ++ community))%nat) active ->
  exists hands,
    evaluate_players community active = Ok hands /\
    map (fun ih => (fst ih, Some (snd ih))) hands =
      map (fun ip => (fst ip, strength_of community (snd ip))) active /\
    all_well_formed hands.
Proof.
  induction 1 as [|[i p] rest Hp Hrest (hands & E & Hmap & Hwf)]; simpl.
  - exists []. repeat split. constructor.
  - destruct (evaluate_hand_maximum _ Hp) as (best & Hbest & Hwfb & _).
    simpl in Hbest. rewrite Hbest. simpl. rewrite E. simpl.
    exists ((i, best) :: hands). split; [reflexivity|]. split.
    + simpl. unfold strength_of at 1. rewrite Hbest. now f_equal.
    + now constructor.
Qed.

Lemma forallb_map_commute {X Y} (f : Y -> bool) (h : X -> Y) l :
  forallb f (map h l) = forallb (fun x => f (h x)) l.
Proof. induction l as [|x t IH]; simpl; [reflexivity|]. now rewrite IH. Qed.

Lemma filter_map_commute {X Y} (f : Y -> bool) (h : X -> Y) l :
  List.filter f (map h l) = map h (List.filter (fun x => f (h x)) l).
Proof.
  induction l as [|x t IH]; simpl; [reflexivity|].
  destruct (f (h x)); simpl; now rewrite IH.
Qed.

(** The hands that tie with the best one are those that nothing beats. *)
Lemma unbeaten_are_ties best hands :
  all_well_formed hands ->
  (exists top, In top hands /\ snd top = best) ->
  (forall z, In z hands -> HandEvaluator.lt best (snd z) = false) ->
  map fst (List.filter
             (fun x => forallb (not_beaten (snd x))
                         (map (fun ih => (fst ih, Some (snd ih))) hands))
             (map (fun ih => (fst ih, Some (snd ih))) hands)) =
  map fst (ties_with best hands).
Proof.
  intros Hwf (top & Htop & Hbest) Hmax.
  rewrite filter_map_commute, map_map. simpl.
  unfold ties_with. f_equal. apply List.filter_ext_in.
  intros z Hz. rewrite forallb_map_commute. unfold not_beaten. simpl.
  pose proof (proj1 (List.Forall_forall _ _) Hwf z Hz) as Hwz.
  pose proof (proj1 (List.Forall_forall _ _) Hwf top Htop) as Hwt.
  destruct (HandEvaluator.eq (snd z) best) eqn:Heq.
  - apply eq_true_iff in Heq. apply forallb_forall. intros y Hy.
    rewrite Heq, (Hmax y Hy). reflexivity.
  - apply not_true_is_false. intros Hall.
    rewrite forallb_forall in Hall. specialize (Hall top Htop).
    apply negb_true_iff in Hall. rewrite Hbest in Hall.
    pose proof (Hmax z Hz) as Hbz. rewrite <- Hbest in Hbz, Heq.
    destruct (lt_total (snd z) (snd top) Hwz Hwt) as [H|[H|H]].
    + rewrite Hbest in H. congruence.
    + apply eq_true_iff in H. congruence.
    + congruence.
Qed.

(** ** The split of the pot *)

Lemma split_pot_winners q r ws : forall i, map fst (split_pot q r i ws) = ws.
Proof. induction ws as [|w ws IH]; intros i; simpl; [reflexivity|]. now rewrite IH. Qed.

Lemma split_pot_amount q r ws : forall i k winner amount,
  split_pot q r i ws !! k = Some (winner, amount) ->
  amount = q + (if i + Z.of_nat k <? r then 1 else 0).
Proof.
  induction ws as [|w ws IH]; intros i k winner amount; simpl; [discriminate|].
  destruct k as [|k]; simpl.
  - intros H. inversion H; subst. rewrite Z.add_0_r.
    destruct (i <? r); lia.
  - intros H. apply IH in H. rewrite H.
    replace (i + 1 + Z.of_nat k) with (i + Z.pos (Pos.of_succ_nat k)) by lia.
    reflexivity.
Qed.

Lemma split_pot_sum q r ws : forall i,
  fold_right Z.add 0 (map snd (split_pot q r i ws)) =
  q * Z.of_nat (length ws) + Z.max 0 (Z.min r (i + Z.of_nat (length ws)) - Z.max i 0)
  \/ i < 0.
Proof.
  induction ws as [|w ws IH]; intros i.
  - destruct (Z.ltb_spec i 0); [now right|left]. simpl. lia.
  - destruct (Z.ltb_spec i 0); [now right|left].
    change (length (w :: ws)) with (S (length ws)). rewrite Nat2Z.inj_succ.
    cbn [split_pot map snd fold_right].
    destruct (IH (i + 1)) as [E|?]; [|lia]. rewrite E.
    destruct (Z.ltb_spec i r); lia.
Qed.

(** ** Claim on the showdown *)

(** C5. When some player is still in the hand, and either there is one such
    player or each has five cards or more with the board, [determine_winners]
    returns the players tied for the best strength in seating order; with a
    pot of P and W winners each is paid P // W, the first P mod W of them one
    chip more; the integer payouts add up to P.  A pot of 100 over three
    tied winners is paid 34, 33, 33. *)
Theorem pot_split_among_tied_winners (g : GameState.t) :
  get_active_players g <> [] ->
  (length (get_active_players g) = 1%nat \/
   Forall (fun ip => (5 <= length (hole_cards (snd ip) ++ community_cards g))%nat)
     (get_active_players g)) ->
  (exists results,
     determine_winners g = Ok results /\
     map fst results = tied_winners g /\
     tied_winners g <> [] /\
     (forall k winner amount,
        results !! k = Some (winner, amount) ->
        amount = pot g / Z.of_nat (length (tied_winners g)) +
                 (if Z.of_nat k <? pot g mod Z.of_nat (length (tied_winners g))
                  then 1 else 0)) /\
     fold_right Z.add 0 (map snd results) = pot g) /\
  determine_winners board_plays_table = Ok [(0%nat, 34); (2%nat, 33); (3%nat, 33)].
Proof.
  intros Hne Hcards. split; [|reflexivity].
  unfold determine_winners, tied_winners, showdown.
  destruct (get_active_players g) as [|[i p] [|y rest]] eqn:Hact; [congruence| |].
  - (* one player left *)
    exists [(i, pot g)]. split; [reflexivity|].
    assert (forallb (not_beaten (strength_of (community_cards g) p))
              [(i, strength_of (community_cards g) p)] = true) as E.
    { unfold forallb, not_beaten. cbn [snd].
      destruct (strength_of (community_cards g) p); [|reflexivity].
      now rewrite lt_irrefl. }
    simpl in E. simpl. rewrite E. simpl.
    split; [reflexivity|]. split; [discriminate|]. split; [|lia].
    intros [|k] winner amount H; simpl in H; [|discriminate].
    inversion H; subst. rewrite Z.div_1_r, Z.mod_1_r. simpl. lia.
  - (* showdown *)
    destruct Hcards as [Hone|Hcards]; [discriminate|].
    destruct (evaluate_players_ok _ _ Hcards) as (hands & E & Hmap & Hwf).
    rewrite E. cbn [rbind].
    destruct (sort_hands_spec hands Hwf) as (Hd & Hswf & Hin & Hties).
    destruct (sort_hands hands) as [|top sorted] eqn:Hsort.
    { destruct hands as [|h hands]; [discriminate Hmap|].
      destruct (proj2 (Hin h) (or_introl eq_refl)). }
    cbn [first rbind].
    pose proof (descending_head_is_best top sorted Hd) as Hmax.
    assert (well_formed (snd top)) as Hwt by now inversion Hswf.
    rewrite (leading_ties_are_ties (snd top) (top :: sorted) Hwt Hswf Hd Hmax).
    rewrite Hties.
    rewrite <- Hmap.
    rewrite (unbeaten_are_ties (snd top) hands Hwf).
    2: { exists top. split; [apply Hin; now left|reflexivity]. }
    2: { intros z Hz. apply Hmax, Hin, Hz. }
    set (winners := map fst (ties_with (snd top) hands)).
    assert (winners <> []) as Hwin.
    { unfold winners. rewrite <- Hties. simpl.
      replace (HandEvaluator.eq (snd top) (snd top)) with true
        by (symmetry; now apply eq_true_iff).
      discriminate. }
    assert (0 < Z.of_nat (length winners)) as Hpos
      by (destruct winners; [congruence|simpl; lia]).
    destruct (Z.eqb_spec (Z.of_nat (length winners)) 0); [lia|].
    eexists. split; [reflexivity|].
    split; [apply split_pot_winners|]. split; [exact Hwin|]. split.
    + intros k winner amount H. apply split_pot_amount in H.
      rewrite H. rewrite Z.add_0_l. reflexivity.
    + destruct (split_pot_sum (pot g / Z.of_nat (length winners))
                  (pot g mod Z.of_nat (length winners)) winners 0) as [Hsum|?]; [|lia].
      rewrite Hsum.
      pose proof (Z.mod_pos_bound (pot g) (Z.of_nat (length winners)) Hpos).
      pose proof (Z.div_mod (pot g) (Z.of_nat (length winners))). lia.
Qed.

Lemma pot_split_among_tied_winners_witness :
  exists results,
    determine_winners board_plays_table = Ok results /\
    map fst results = tied_winners board_plays_table /\
    fold_right Z.add 0 (map snd results) = 100.
Proof.
  destruct (pot_split_among_tied_winners board_plays_table)
    as [(results & H & Hw & _ & _ & Hsum) _].
  - discriminate.
  - right. repeat constructor.
  - exists results. split; [exact H|]. split; [exact Hw|exact Hsum].
Defined.

(** * Further properties of the code *)

(** ** The deck *)

Lemma pop_snoc {A} (l : list A) x : pop (l ++ [x]) = Some (x, l).
Proof.
  induction l as [|y t IH]; [reflexivity|].
  simpl. rewrite IH. destruct (t ++ [x]) eqn:E; [|reflexivity].
  destruct t; discriminate.
Qed.

Lemma pop_n_top (top : list Card) : forall rest dealt,
  pop_n (length top) (rest ++ top) dealt = Some (dealt ++ rev top, rest).
Proof.
  induction top as [|x top IH] using rev_ind; intros rest dealt.
  - simpl. now rewrite !app_nil_r.
  - rewrite length_app, Nat.add_comm. simpl.
    rewrite app_assoc, pop_snoc, IH, rev_unit. simpl.
    now rewrite <- app_assoc.
Qed.

(** [Deck.deal] on a deck that has the cards: the last [n] cards, reversed. *)
Lemma deal_eq (cards : list Card) (n : Z) :
  n <= Z.of_nat (length cards) ->
  Deck.deal n cards =
  Done (rev (drop (length cards - Z.to_nat n) cards))
       (take (length cards - Z.to_nat n) cards).
Proof.
  intros Hn. unfold Deck.deal.
  destruct (Z.ltb_spec (Z.of_nat (length cards)) n); [lia|].
  set (k := (length cards - Z.to_nat n)%nat).
  assert (length (drop k cards) = Z.to_nat n) as Hlen
    by (rewrite length_drop; unfold k; lia).
  pose proof (pop_n_top (drop k cards) (take k cards) []) as E.
  rewrite take_drop, Hlen in E. now rewrite E.
Qed.

Lemma deal_from_the_top (cards : list Card) (n : Z) :
  n <= Z.of_nat (length cards) ->
  exists dealt rest,
    Deck.deal n cards = Done dealt rest /\
    cards = rest ++ rev dealt /\
    Z.of_nat (length dealt) = Z.max n 0 /\
    cards_remaining rest = cards_remaining cards - Z.max n 0.
Proof.
  intros Hn. rewrite (deal_eq cards n Hn). do 2 eexists. split; [reflexivity|].
  unfold cards_remaining.
  rewrite rev_involutive, take_drop, length_rev, length_drop, length_take.
  split; [reflexivity|]. lia.
Qed.

(** X1. [Deck.deal(n)] with [n] at most the cards left returns the top
    [max(n, 0)] cards, the top one first, and leaves the others in place: the
    deck before is the deck after followed by the dealt cards reversed. *)
Theorem deal_takes_the_top_cards (cards : list Card) (n : Z) :
  n <= Z.of_nat (length cards) ->
  exists dealt rest,
    Deck.deal n cards = Done dealt rest /\
    cards = rest ++ rev dealt /\
    Z.of_nat (length dealt) = Z.max n 0 /\
    cards_remaining rest = cards_remaining cards - Z.max n 0.
Proof.
  intros Hn.
  set (k := (length cards - Z.to_nat n)%nat).
  exists (rev (drop k cards)), (take k cards).
  split; [exact (deal_eq cards n Hn)|].
  split; [now rewrite rev_involutive, take_drop|].
  unfold cards_remaining.
  rewrite length_rev, length_drop, length_take. unfold k. lia.
Qed.

Lemma deal_takes_the_top_cards_witness :
  exists dealt rest,
    Deck.deal 2 aces_over_kings = Done dealt rest /\
    aces_over_kings = rest ++ rev dealt /\
    Z.of_nat (length dealt) = 2 /\
    cards_remaining rest = 5.
Proof.
  destruct (deal_takes_the_top_cards aces_over_kings 2)
    as (dealt & rest & H1 & H2 & H3 & H4); [simpl; lia|].
  exists dealt, rest. repeat split; assumption.
Defined.

Lemma fresh_cards_complete (c : Card) : c ∈ fresh_cards.
Proof.
  apply list_elem_of_In.
  destruct c as [r s]; destruct r, s; vm_compute; tauto.
Qed.

Lemma fresh_cards_NoDup : NoDup fresh_cards.
Proof. apply (bool_decide_unpack _). vm_compute. exact I. Qed.

(** X2. Whatever permutation the shuffle produces, [Deck.reset] (and so
    [Deck.__init__]) leaves a deck of 52 cards, without duplicates, in which
    every card occurs. *)
Theorem reset_gives_the_52_cards (shuffle : list Card -> list Card) (old : list Card) :
  (forall l, Permutation (shuffle l) l) ->
  exists cards,
    Deck.reset shuffle old = Done tt cards /\
    cards_remaining cards = 52 /\
    NoDup cards /\
    (forall c : Card, c ∈ cards).
Proof.
  intros Hperm. exists (shuffle fresh_cards). split; [reflexivity|].
  pose proof (Hperm fresh_cards) as Hp. split; [|split].
  - unfold cards_remaining. now rewrite (Permutation_length Hp).
  - rewrite Hp. apply fresh_cards_NoDup.
  - intros c. rewrite Hp. apply fresh_cards_complete.
Qed.

Lemma reset_gives_the_52_cards_witness :
  exists cards,
    Deck.reset (@rev Card) [] = Done tt cards /\
    cards_remaining cards = 52 /\
    NoDup cards /\
    (forall c : Card, c ∈ cards).
Proof.
  apply (reset_gives_the_52_cards (@rev Card) []).
  intros l. symmetry. apply Permutation_rev.
Defined.

Lemma list_remove_NoDup card cards :
  NoDup cards -> card ∈ cards ->
  list_remove card cards = Ok (List.filter (fun c => bool_decide (c <> card)) cards).
Proof.
  induction 1 as [|c rest Hc Hnd IH]; intros Hin; [inversion Hin|].
  simpl. destruct (decide (c = card)) as [->|Hne].
  - rewrite bool_decide_eq_true_2 by reflexivity.
    rewrite (bool_decide_eq_false_2 (card <> card)) by tauto.
    f_equal. symmetry. apply List.forallb_filter_id.
    apply forallb_forall. intros x Hx. apply bool_decide_eq_true_2.
    intros ->. apply Hc. now apply list_elem_of_In.
  - rewrite bool_decide_eq_false_2 by exact Hne.
    rewrite (bool_decide_eq_true_2 (c <> card)) by exact Hne.
    rewrite IH; [reflexivity|].
    apply elem_of_cons in Hin as [->|Hin]; [contradiction|exact Hin].
Qed.

Lemma filter_absent card (cards : list Card) :
  card ∉ cards -> List.filter (fun c => bool_decide (c <> card)) cards = cards.
Proof.
  intros Hnot. apply List.forallb_filter_id. apply forallb_forall.
  intros x Hx. apply bool_decide_eq_true_2. intros ->.
  apply Hnot. now apply list_elem_of_In.
Qed.

Lemma NoDup_list_filter (f : Card -> bool) cards : NoDup cards -> NoDup (List.filter f cards).
Proof.
  induction 1 as [|c rest Hc Hnd IH]; simpl; [constructor|].
  destruct (f c); [|exact IH]. constructor; [|exact IH].
  intros Hin. apply Hc. apply list_elem_of_In in Hin.
  apply list_elem_of_In. now apply List.filter_In in Hin as [? _].
Qed.

(** X3. On a deck without duplicates [remove_cards] removes exactly the
    listed cards that are in the deck, keeps the others in their order, and
    never fails: the result is the deck filtered by "not listed". *)
Theorem remove_cards_filters_the_deck (cards_to_remove : list Card) (cards : list Card) :
  NoDup cards ->
  Deck.remove_cards cards_to_remove cards =
    Done tt (List.filter (fun c => bool_decide (c ∉ cards_to_remove)) cards) /\
  NoDup (List.filter (fun c => bool_decide (c ∉ cards_to_remove)) cards).
Proof.
  intros Hnd. split; [|now apply NoDup_list_filter].
  revert cards Hnd. induction cards_to_remove as [|card rest IH]; intros cards Hnd.
  - simpl. unfold ret. f_equal. symmetry. apply List.forallb_filter_id.
    apply forallb_forall. intros x _. reflexivity.
  - simpl. unfold bind at 1, get. unfold bind at 1.
    assert ((if bool_decide (card ∈ cards)
             then (cards' <- lift_result (list_remove card cards) ;; put cards')%py
             else ret tt) cards
            = Done tt (List.filter (fun c => bool_decide (c <> card)) cards)) as E.
    { destruct (decide (card ∈ cards)) as [Hin|Hnot].
      - rewrite bool_decide_eq_true_2 by exact Hin.
        unfold bind. now rewrite (list_remove_NoDup card cards Hnd Hin).
      - rewrite bool_decide_eq_false_2 by exact Hnot.
        now rewrite (filter_absent card cards Hnot). }
    rewrite E. rewrite IH by now apply NoDup_list_filter.
    f_equal. clear. induction cards as [|c cards IHc]; simpl; [reflexivity|].
    destruct (decide (c = card)) as [->|Hne].
    + rewrite (bool_decide_eq_false_2 (card <> card)) by tauto.
      rewrite (bool_decide_eq_false_2 (card ∉ card :: rest))
        by (intros H; apply H; now left).
      exact IHc.
    + rewrite (bool_decide_eq_true_2 (c <> card)) by exact Hne. simpl.
      rewrite IHc.
      destruct (decide (c ∈ rest)) as [Hin|Hnot].
      * rewrite !bool_decide_eq_false_2; [reflexivity| |];
          intros H; apply H; [now right|exact Hin].
      * rewrite !bool_decide_eq_true_2; [reflexivity| |exact Hnot].
        intros H. apply elem_of_cons in H as [?|?]; contradiction.
Qed.

Lemma remove_cards_filters_the_deck_witness :
  Deck.remove_cards [mkCard ACE HEARTS; mkCard NINE CLUBS] aces_over_kings =
    Done tt [mkCard ACE CLUBS; mkCard ACE DIAMONDS; mkCard KING CLUBS;
             mkCard KING DIAMONDS; mkCard TWO SPADES; mkCard THREE SPADES].
Proof.
  destruct (remove_cards_filters_the_deck [mkCard ACE HEARTS; mkCard NINE CLUBS]
              aces_over_kings) as [H _].
  - apply (bool_decide_unpack _). vm_compute. exact I.
  - exact H.
Defined.

(** ** The evaluator does not depend on the order of the cards *)

Lemma insert_desc_perm x l : Permutation (insert_desc x l) (x :: l).
Proof.
  induction l as [|y t IH]; simpl; [reflexivity|].
  destruct (y <? x); [reflexivity|].
  rewrite IH. apply perm_swap.
Qed.

Lemma sorted_desc_perm l : Permutation (sorted_desc l) l.
Proof.
  unfold sorted_desc.
  assert (forall acc, Permutation (fold_left (fun acc x => insert_desc x acc) l acc)
                        (acc ++ l)) as H.
  { induction l as [|x t IH]; intros acc; simpl; [now rewrite app_nil_r|].
    rewrite IH, insert_desc_perm. apply Permutation_middle. }
  apply (H []).
Qed.

Lemma insert_desc_sorted x l :
  StronglySorted (fun a b => b <= a) l ->
  StronglySorted (fun a b => b <= a) (insert_desc x l).
Proof.
  induction 1 as [|y t Ht IH Hy]; simpl; [repeat constructor|].
  destruct (Z.ltb_spec y x).
  - constructor; [now constructor|].
    constructor; [lia|]. eapply Forall_impl; [exact Hy|]. simpl. intros; lia.
  - constructor; [exact IH|].
    rewrite (insert_desc_perm x t). constructor; [lia|exact Hy].
Qed.

Lemma sorted_desc_sorted l : StronglySorted (fun a b => b <= a) (sorted_desc l).
Proof.
  unfold sorted_desc.
  assert (forall acc, StronglySorted (fun a b => b <= a) acc ->
            StronglySorted (fun a b => b <= a)
              (fold_left (fun acc x => insert_desc x acc) l acc)) as H.
  { induction l as [|x t IH]; intros acc Hacc; simpl; [exact Hacc|].
    apply IH. now apply insert_desc_sorted. }
  apply H. constructor.
Qed.

Lemma sorted_desc_permuted l l' : Permutation l l' -> sorted_desc l = sorted_desc l'.
Proof.
  intros Hp.
  apply (StronglySorted_unique_strong (fun a b => b <= a)).
  - intros; lia.
  - apply sorted_desc_sorted.
  - apply sorted_desc_sorted.
  - now rewrite !sorted_desc_perm.
Qed.

Lemma is_flush_permuted (l l' : list Card) : Permutation l l' -> is_flush l = is_flush l'.
Proof.
  intros Hp. unfold is_flush. rewrite (Permutation_length Hp).
  destruct (length l' <? 5)%nat; [reflexivity|].
  assert (Permutation (remove_dups (map suit l)) (remove_dups (map suit l'))) as Hd.
  { apply NoDup_Permutation; try apply NoDup_remove_dups.
    intros s. rewrite !elem_of_remove_dups.
    now rewrite (Permutation_map suit Hp). }
  now rewrite (Permutation_length Hd).
Qed.

Lemma evaluate_five_cards_permuted (l l' : list Card) :
  Permutation l l' -> _evaluate_five_cards l = _evaluate_five_cards l'.
Proof.
  intros Hp. unfold _evaluate_five_cards.
  rewrite (is_flush_permuted l l' Hp).
  now rewrite (sorted_desc_permuted _ _ (Permutation_map _ Hp)).
Qed.

Lemma le_strength_antisym a b : le_strength a b -> le_strength b a -> a = b.
Proof.
  intros [H1| ->] [H2|E]; auto.
  apply lt_asym in H1. congruence.
Qed.

(** The best strength of one hand is not above that of a permutation. *)
Lemma evaluate_hand_permuted_le (l l' : list Card) best best' :
  Permutation l l' -> (5 <= length l)%nat ->
  evaluate_hand l = Ok (Some best) -> evaluate_hand l' = Ok (Some best') ->
  le_strength best best'.
Proof.
  intros Hp Hlen Hb Hb'.
  destruct (evaluate_hand_maximum l Hlen) as (b & Eb & _ & (five & Hs & H5 & Hfive) & _).
  assert (b = best) by congruence. subst b.
  destruct (evaluate_hand_maximum l') as (b' & Eb' & _ & _ & Hmax);
    [now rewrite <- (Permutation_length Hp)|].
  assert (b' = best') by congruence. subst b'.
  destruct (sublist_Permutation five l l' Hs Hp) as (five' & Hp5 & Hs').
  destruct (Hmax five' Hs') as (h & Hh & Hle);
    [now rewrite <- (Permutation_length Hp5)|].
  rewrite <- (evaluate_five_cards_permuted five five' Hp5) in Hh.
  congruence.
Qed.

(** X4. [evaluate_hand] is a function of the cards given, not of their
    order: two lists that are permutations of each other get the same result,
    the same strength or the same error. *)
Theorem evaluate_hand_ignores_the_order (cards cards' : list Card) :
  Permutation cards cards' -> evaluate_hand cards = evaluate_hand cards'.
Proof.
  intros Hp. destruct (le_lt_dec 5 (length cards)) as [Hlen|Hlen].
  - assert (5 <= length cards')%nat as Hlen' by now rewrite <- (Permutation_length Hp).
    destruct (evaluate_hand_maximum cards Hlen) as (b & Eb & _).
    destruct (evaluate_hand_maximum cards' Hlen') as (b' & Eb' & _).
    rewrite Eb, Eb'. do 2 f_equal. apply le_strength_antisym.
    + now apply (evaluate_hand_permuted_le cards cards').
    + apply (evaluate_hand_permuted_le cards' cards); auto. now symmetry.
  - unfold evaluate_hand. rewrite <- (Permutation_length Hp).
    destruct (Nat.ltb_spec (length cards) 5); [reflexivity|lia].
Qed.

Lemma evaluate_hand_ignores_the_order_witness :
  evaluate_hand aces_over_kings = evaluate_hand (rev aces_over_kings).
Proof.
  apply (evaluate_hand_ignores_the_order aces_over_kings (rev aces_over_kings)).
  apply Permutation_rev.
Defined.

Lemma compare_hands_eq (h1 h2 : list Card) a b :
  evaluate_hand h1 = Ok (Some a) -> evaluate_hand h2 = Ok (Some b) ->
  well_formed a -> well_formed b ->
  compare_hands h1 h2 =
  Ok (if HandEvaluator.lt b a then 1 else if HandEvaluator.lt a b then -1 else 0).
Proof.
  intros Ea Eb Hwa Hwb. unfold compare_hands. rewrite Ea, Eb. simpl.
  rewrite gt_is_lt_flipped by assumption.
  destruct (HandEvaluator.lt b a); [reflexivity|].
  now destruct (HandEvaluator.lt a b).
Qed.

(** X5. On hands of five cards or more [compare_hands] returns -1, 0 or 1;
    swapping the hands negates the result; it is 0 exactly when the two
    strengths are equal; and winning is transitive, as is tying. *)
Theorem compare_hands_orders_hands (h1 h2 h3 : list Card) :
  (5 <= length h1)%nat -> (5 <= length h2)%nat -> (5 <= length h3)%nat ->
  exists r12 r21 r23 r13,
    compare_hands h1 h2 = Ok r12 /\ compare_hands h2 h1 = Ok r21 /\
    compare_hands h2 h3 = Ok r23 /\ compare_hands h1 h3 = Ok r13 /\
    (r12 = -1 \/ r12 = 0 \/ r12 = 1) /\
    r21 = - r12 /\
    (r12 = 0 <-> evaluate_hand h1 = evaluate_hand h2) /\
    (r12 = 1 -> r23 = 1 -> r13 = 1) /\
    (r12 = 0 -> r23 = 0 -> r13 = 0).
Proof.
  intros H1 H2 H3.
  destruct (evaluate_hand_maximum h1 H1) as (a & Ea & Hwa & _).
  destruct (evaluate_hand_maximum h2 H2) as (b & Eb & Hwb & _).
  destruct (evaluate_hand_maximum h3 H3) as (c & Ec & Hwc & _).
  rewrite (compare_hands_eq h1 h2 a b), (compare_hands_eq h2 h1 b a),
    (compare_hands_eq h2 h3 b c), (compare_hands_eq h1 h3 a c) by assumption.
  eexists. eexists. eexists. eexists.
  do 4 (split; [reflexivity|]).
  rewrite Ea, Eb.
  assert (Ok (Some a) = Ok (Some b) <-> a = b) as Heq
    by (split; intros E; congruence).
  rewrite Heq. clear Heq.
  pose proof (lt_irrefl a) as Haa.
  destruct (HandEvaluator.lt b a) eqn:Hba.
  - pose proof (lt_asym _ _ Hba) as Hab. rewrite Hab.
    split; [auto|]. split; [reflexivity|].
    split; [split; [discriminate|intros ->; congruence]|].
    split; [|discriminate]. intros _.
    destruct (HandEvaluator.lt c b) eqn:Hcb.
    + intros _. now rewrite (lt_trans c b a Hwc Hwb Hwa Hcb Hba).
    + destruct (HandEvaluator.lt b c); discriminate.
  - destruct (HandEvaluator.lt a b) eqn:Hab.
    + split; [auto|]. split; [reflexivity|].
      split; [split; [discriminate|intros ->; congruence]|].
      split; discriminate.
    + assert (a = b) as ->.
      { destruct (lt_total a b Hwa Hwb) as [?|[?|?]]; congruence. }
      split; [auto|]. split; [reflexivity|].
      split; [tauto|]. split; [discriminate|]. auto.
Qed.

Lemma compare_hands_orders_hands_witness :
  exists r12 r21 r23 r13,
    compare_hands wheel_spades six_high_spades = Ok r12 /\
    compare_hands six_high_spades wheel_spades = Ok r21 /\
    compare_hands six_high_spades aces_over_kings = Ok r23 /\
    compare_hands wheel_spades aces_over_kings = Ok r13 /\
    r21 = - r12.
Proof.
  destruct (compare_hands_orders_hands wheel_spades six_high_spades aces_over_kings)
    as (r12 & r21 & r23 & r13 & E1 & E2 & E3 & E4 & _ & Hneg & _);
    [simpl; lia..|].
  exists r12, r21, r23, r13. repeat split; assumption.
Defined.

(** ** A strength stands for the ranks of the hand *)

Lemma counter_add_expand v cs : Permutation (expand (counter_add v cs)) (v :: expand cs).
Proof.
  induction cs as [|[k c] t IH]; simpl; [reflexivity|].
  destruct (Z.eqb_spec k v) as [->|Hne]; simpl; [reflexivity|].
  unfold expand in IH. rewrite IH. solve_Permutation.
Qed.

Lemma Counter_expand l : Permutation (expand (Counter l)) l.
Proof.
  unfold Counter.
  assert (forall cs, Permutation (expand (fold_left (fun cs v => counter_add v cs) l cs))
                       (expand cs ++ l)) as H.
  { induction l as [|x t IH]; intros cs; simpl; [now rewrite app_nil_r|].
    rewrite IH, counter_add_expand. solve_Permutation. }
  apply (H []).
Qed.

Lemma sorted_desc_pair x y :
  sorted_desc [x; y] = if x <? y then [y; x] else [x; y].
Proof. reflexivity. Qed.

Lemma py_index_single {A} (x : A) : py_index [x] 0 = Ok x.
Proof. reflexivity. Qed.

Lemma py_index_pair_0 {A} (x y : A) : py_index [x; y] 0 = Ok x.
Proof. reflexivity. Qed.

Lemma py_index_pair_1 {A} (x y : A) : py_index [x; y] 1 = Ok y.
Proof. reflexivity. Qed.

Lemma is_straight_five a b c d e :
  is_straight [a; b; c; d; e] = true ->
  [a; b; c; d; e] = wheel \/ (b = a - 1 /\ c = a - 2 /\ d = a - 3 /\ e = a - 4).
Proof.
  unfold is_straight. simpl length. cbn [Nat.ltb Nat.leb].
  destruct (eqb_list [a; b; c; d; e] wheel) eqn:E.
  - intros _. left. now apply eqb_list_true.
  - simpl. rewrite !andb_true_iff, !Z.eqb_eq. intros. right. lia.
Qed.

Lemma straight_run_high a :
  6 <= a ->
  get_straight_high_card [a; a - 1; a - 2; a - 3; a - 4] = Ok a /\
  py_max [a; a - 1; a - 2; a - 3; a - 4] = Ok a /\
  py_min [a; a - 1; a - 2; a - 3; a - 4] = Ok (a - 4).
Proof.
  intros Ha. unfold get_straight_high_card, py_max, py_min.
  assert (eqb_list [a; a - 1; a - 2; a - 3; a - 4] wheel = false) as E.
  { destruct (eqb_list _ wheel) eqn:E; [|reflexivity].
    apply eqb_list_true in E. unfold wheel in E. injection E. lia. }
  rewrite E. simpl. repeat split; f_equal; lia.
Qed.

Lemma classify_stands_for_the_ranks values cs fl h :
  length values = 5%nat ->
  Forall (fun v => 2 <= v) values ->
  Forall (fun vc => (1 <= snd vc)%nat) cs -> sum_counts cs = 5%nat ->
  Permutation (expand cs) values ->
  classify values cs fl (is_straight values) = Ok h ->
  Permutation (ranks_of h) values.
Proof.
  intros Hlen Hlow Hpos Hsum Hperm.
  do 6 (destruct values as [|? values]; try discriminate Hlen). clear Hlen.
  match goal with
  | |- context [is_straight ?vs] => destruct (is_straight vs) eqn:Hst
  end.
  - apply is_straight_five in Hst as [Hw|(-> & -> & -> & ->)].
    + injection Hw as -> -> -> -> ->. clear Hlow.
      assert (get_straight_high_card wheel = Ok 5) as Hhi by reflexivity.
      assert (py_max wheel = Ok 14) as Hmax by reflexivity.
      assert (py_min wheel = Ok 2) as Hmin by reflexivity.
      unfold wheel in Hhi, Hmax, Hmin.
      repeat next_count.
      all: destruct fl; unfold classify; rewrite ?Hhi, ?Hmax, ?Hmin.
      all: split_tests.
      all: intros E; injection E as <-; unfold ranks_of; cbn -[sorted_desc].
      all: try reflexivity.
      all: rewrite <- Hperm; rewrite ?sorted_desc_perm; solve_Permutation.
    + assert (6 <= z) as Hz.
      { apply Forall_cons in Hlow as [_ Hlow]. apply Forall_cons in Hlow as [_ Hlow].
        apply Forall_cons in Hlow as [_ Hlow]. apply Forall_cons in Hlow as [_ Hlow].
        apply Forall_cons in Hlow as [Hlow _]. lia. }
      clear Hlow.
      destruct (straight_run_high z Hz) as (Hhi & Hmax & Hmin).
      repeat next_count.
      all: destruct fl; unfold classify; rewrite ?Hhi, ?Hmax, ?Hmin.
      all: split_tests.
      all: intros E; injection E as <-; unfold ranks_of;
        cbn -[sorted_desc Z.sub Z.eqb].
      all: try reflexivity.
      all: try (destruct (Z.eqb_spec z 5); [lia|reflexivity]).
      all: try (assert (z = 14) as -> by lia; reflexivity).
      all: rewrite <- Hperm; rewrite ?sorted_desc_perm; solve_Permutation.
  - clear Hlow.
    repeat next_count.
    all: destruct fl; unfold classify.
    all: rewrite ?sorted_desc_pair.
    all: split_tests.
    all: rewrite ?sorted_desc_pair.
    all: try match goal with
             | |- context [if ?x <? ?y then _ else _] => destruct (Z.ltb_spec x y)
             end.
    all: rewrite ?py_index_single, ?py_index_pair_0, ?py_index_pair_1; cbn [rbind].
    all: intros E; injection E as <-; unfold ranks_of; cbn -[sorted_desc].
    all: try reflexivity.
    all: rewrite <- Hperm; rewrite ?sorted_desc_perm; solve_Permutation.
Qed.

Lemma numeric_value_bounds r : 2 <= numeric_value r <= 14.
Proof. destruct r; simpl; lia. Qed.

Lemma evaluate_five_stands_for_the_ranks (cards : list Card) :
  length cards = 5%nat ->
  exists h, _evaluate_five_cards cards = Ok h /\
            Permutation (ranks_of h) (card_values cards).
Proof.
  intros Hlen.
  destruct (evaluate_five_cards_well_formed cards Hlen) as (h & Hh & _).
  exists h. split; [exact Hh|].
  unfold _evaluate_five_cards in Hh. fold (card_values cards) in Hh.
  rewrite <- (sorted_desc_perm (card_values cards)).
  apply (classify_stands_for_the_ranks _ (Counter (sorted_desc (card_values cards)))
           (is_flush cards)).
  - unfold card_values. now rewrite sorted_desc_length, length_map.
  - rewrite sorted_desc_perm. unfold card_values.
    apply List.Forall_forall. intros v Hv. apply in_map_iff in Hv as (c & <- & _).
    apply numeric_value_bounds.
  - apply Counter_positive.
  - unfold card_values. now rewrite Counter_sum, sorted_desc_length, length_map.
  - apply Counter_expand.
  - exact Hh.
Qed.

Lemma evaluate_hand_of_five (cards : list Card) :
  length cards = 5%nat ->
  evaluate_hand cards =
  match _evaluate_five_cards cards with
  | Ok h => Ok (Some h)
  | Err e => Err e
  end.
Proof.
  intros Hlen.
  do 6 (destruct cards as [|? cards]; try discriminate Hlen).
  unfold evaluate_hand. simpl.
  now destruct (_evaluate_five_cards _).
Qed.

(** X6. The strength of a five-card hand stands for its five ranks: read
    back by category (a pair as the primary twice and the kickers, a full
    house as the primary three times and the secondary twice, a straight as
    the run below its high card, the wheel for high card 5, and so on), the
    strength gives the ranks of the hand up to order. *)
Theorem strength_stands_for_the_ranks (cards : list Card) :
  length cards = 5%nat ->
  exists h, evaluate_hand cards = Ok (Some h) /\
            Permutation (ranks_of h) (card_values cards).
Proof.
  intros Hlen.
  destruct (evaluate_five_stands_for_the_ranks cards Hlen) as (h & Hh & Hp).
  exists h. split; [|exact Hp].
  now rewrite (evaluate_hand_of_five cards Hlen), Hh.
Qed.

Lemma strength_stands_for_the_ranks_witness :
  exists h, evaluate_hand wheel_spades = Ok (Some h) /\
            Permutation (ranks_of h) (card_values wheel_spades).
Proof. apply (strength_stands_for_the_ranks wheel_spades). reflexivity. Defined.

(** X7. Two five-card hands with the same strength have the same ranks up
    to order; and two hands with the same ranks up to order that are both
    flushes, or both not, have the same strength: suits matter only through
    the flush test. *)
Theorem hands_tie_exactly_on_equal_ranks (c1 c2 : list Card) :
  length c1 = 5%nat -> length c2 = 5%nat ->
  (evaluate_hand c1 = evaluate_hand c2 ->
   Permutation (card_values c1) (card_values c2)) /\
  (Permutation (card_values c1) (card_values c2) ->
   is_flush c1 = is_flush c2 ->
   evaluate_hand c1 = evaluate_hand c2).
Proof.
  intros H1 H2. split.
  - intros E.
    destruct (evaluate_five_stands_for_the_ranks c1 H1) as (h1 & F1 & P1).
    destruct (evaluate_five_stands_for_the_ranks c2 H2) as (h2 & F2 & P2).
    assert (evaluate_hand c1 = Ok (Some h1)) as E1
      by now rewrite (evaluate_hand_of_five c1 H1), F1.
    assert (evaluate_hand c2 = Ok (Some h2)) as E2
      by now rewrite (evaluate_hand_of_five c2 H2), F2.
    assert (h1 = h2) by congruence. subst h2.
    now rewrite <- P1, P2.
  - intros Hp Hf.
    rewrite (evaluate_hand_of_five c1 H1), (evaluate_hand_of_five c2 H2).
    unfold _evaluate_five_cards. fold (card_values c1) (card_values c2).
    now rewrite Hf, (sorted_desc_permuted _ _ Hp).
Qed.

Lemma hands_tie_exactly_on_equal_ranks_witness :
  (evaluate_hand wheel_spades = evaluate_hand (rev wheel_spades) ->
   Permutation (card_values wheel_spades) (card_values (rev wheel_spades))) /\
  (Permutation (card_values wheel_spades) (card_values (rev wheel_spades)) ->
   is_flush wheel_spades = is_flush (rev wheel_spades) ->
   evaluate_hand wheel_spades = evaluate_hand (rev wheel_spades)).
Proof.
  apply (hands_tie_exactly_on_equal_ranks wheel_spades (rev wheel_spades));
    reflexivity.
Defined.

(** X8. More cards never make a hand weaker: when [cards] is obtained from
    [more] by leaving cards out, and has five cards or more, both evaluate
    and the strength of [more] is not below that of [cards]. *)
Theorem more_cards_never_weaken (cards more : list Card) :
  sublist cards more -> (5 <= length cards)%nat ->
  exists best best',
    evaluate_hand cards = Ok (Some best) /\
    evaluate_hand more = Ok (Some best') /\
    HandEvaluator.lt best' best = false /\
    (HandEvaluator.lt best best' = true \/ best = best').
Proof.
  intros Hsub Hlen.
  assert (5 <= length more)%nat as Hlen'
    by (apply sublist_length in Hsub; lia).
  destruct (evaluate_hand_maximum cards Hlen)
    as (best & Eb & Hwf & (five & Hs & H5 & Hfive) & _).
  destruct (evaluate_hand_maximum more Hlen') as (best' & Eb' & Hwf' & _ & Hmax).
  exists best, best'. split; [exact Eb|]. split; [exact Eb'|].
  destruct (Hmax five) as (h & Hh & Hle); [now transitivity cards|exact H5|].
  assert (h = best) by congruence. subst h.
  split; [|exact Hle].
  destruct Hle as [Hlt| ->]; [now apply lt_asym|apply lt_irrefl].
Qed.

Lemma more_cards_never_weaken_witness :
  exists best best',
    evaluate_hand royal_spades = Ok (Some best) /\
    evaluate_hand (mkCard TWO CLUBS :: royal_spades) = Ok (Some best') /\
    HandEvaluator.lt best' best = false /\
    (HandEvaluator.lt best best' = true \/ best = best').
Proof.
  apply (more_cards_never_weaken royal_spades (mkCard TWO CLUBS :: royal_spades)).
  - apply sublist_cons. reflexivity.
  - simpl. lia.
Defined.

(** ** A new hand *)

Lemma all_hole_cards_insert ps : forall k p dealt,
  ps !! k = Some p -> hole_cards p = [] ->
  Permutation (concat (map hole_cards (<[k := set_hole_cards dealt p]> ps)))
    (dealt ++ concat (map hole_cards ps)).
Proof.
  induction ps as [|q ps IH]; intros [|k] p dealt Hp Hhole; simpl in *;
    try discriminate.
  - inversion Hp; subst. now rewrite Hhole.
  - rewrite (IH k p dealt Hp Hhole). solve_Permutation.
Qed.

(** The loop of [deal_hole_cards] from seat [k] on, when no one has folded
    and the seats from [k] on hold no cards. *)
Lemma deal_hole_cards_from (m : nat) : forall k g,
  (k + m <= length (players g))%nat ->
  (2 * m <= length (deck g))%nat ->
  Forall (fun p => folded p = false) (players g) ->
  (forall j p, (k <= j)%nat -> players g !! j = Some p -> hole_cards p = []) ->
  exists g',
    for_seats (seq k m)
      (fun i =>
         (player <- player_at i ;;
          if negb (folded player) then
            (cards <- on_deck (Deck.deal 2) ;;
             on_player i (receive_cards cards))
          else ret tt)%py) g = Done tt g' /\
    length (players g') = length (players g) /\
    (forall j p', (k <= j < k + m)%nat -> players g' !! j = Some p' ->
                  length (hole_cards p') = 2%nat) /\
    take k (players g') = take k (players g) /\
    Permutation (all_hole_cards g' ++ deck g') (all_hole_cards g ++ deck g) /\
    (length (deck g') + 2 * m = length (deck g))%nat /\
    g' = set_players (players g') (set_deck (deck g') g) /\
    Forall (fun p => folded p = false) (players g').
Proof.
  induction m as [|m IH]; intros k g Hk Hdeck Hfold Hempty.
  - exists g. simpl. split; [reflexivity|]. split; [reflexivity|].
    split; [|split; [reflexivity|split; [reflexivity|split;
             [lia|split; [now destruct g|exact Hfold]]]]].
    intros j p' Hj Hp'. lia.
  - destruct (lookup_lt_is_Some_2 (players g) k) as [p Hp]; [lia|].
    assert (folded p = false) as Hf.
    { apply (proj1 (List.Forall_forall _ _) Hfold).
      apply list_elem_of_In, list_elem_of_lookup. eauto. }
    destruct (deal_from_the_top (deck g) 2)
      as (dealt & rest & Hdeal & Hsplit & Hlen & _); [lia|].
    assert (length dealt = 2%nat) as Hlen2 by lia.
    assert (length (deck g) = length rest + 2)%nat as Hrest
      by (rewrite Hsplit at 1; rewrite length_app, length_rev; lia).
    set (g1 := set_players (<[k := set_hole_cards dealt p]> (players g))
                 (set_deck rest g)).
    assert (for_seats (seq k (S m))
              (fun i =>
                 (player <- player_at i ;;
                  if negb (folded player) then
                    (cards <- on_deck (Deck.deal 2) ;;
                     on_player i (receive_cards cards))
                  else ret tt)%py) g
            = for_seats (seq (S k) m)
                (fun i =>
                   (player <- player_at i ;;
                    if negb (folded player) then
                      (cards <- on_deck (Deck.deal 2) ;;
                       on_player i (receive_cards cards))
                    else ret tt)%py) g1) as Estep.
    { simpl. unfold bind at 1. unfold bind at 1.
      rewrite (player_at_eq g k p Hp), Hf. simpl.
      unfold bind at 1. unfold on_deck. rewrite Hdeal.
      rewrite (on_player_eq _ (set_deck rest g) k p Hp). reflexivity. }
    rewrite Estep.
    destruct (IH (S k) g1)
      as (g' & Hrun & Hlen' & Htwo & Htake & Hperm & Hleft & Hshape & Hfold').
    + unfold g1. simpl. rewrite length_insert. lia.
    + unfold g1. simpl. lia.
    + unfold g1. simpl. apply List.Forall_forall. intros q Hq.
      apply list_elem_of_In, list_elem_of_lookup in Hq as [j Hq].
      destruct (decide (j = k)) as [->|Hne].
      * rewrite list_lookup_insert_eq in Hq by (apply lookup_lt_Some in Hp; exact Hp).
        inversion Hq; subst. exact Hf.
      * rewrite list_lookup_insert_ne in Hq by congruence.
        apply (proj1 (List.Forall_forall _ _) Hfold).
        apply list_elem_of_In, list_elem_of_lookup. eauto.
    + intros j q Hj Hq. unfold g1 in Hq. simpl in Hq.
      rewrite list_lookup_insert_ne in Hq by lia.
      apply (Hempty j q); [lia|exact Hq].
    + exists g'. split; [exact Hrun|].
      assert (players g1 !! k = Some (set_hole_cards dealt p)) as Hk1.
      { unfold g1. simpl. apply list_lookup_insert_eq.
        now apply lookup_lt_Some in Hp. }
      split; [|split; [|split; [|split; [|split; [|split; [|exact Hfold']]]]]].
      6: { rewrite Hshape at 1. reflexivity. }
      * rewrite Hlen'. unfold g1. simpl. apply length_insert.
      * intros j p' Hj Hp'. destruct (decide (j = k)) as [->|Hne].
        -- assert (players g' !! k = Some (set_hole_cards dealt p)) as E.
           { rewrite <- Hk1.
             rewrite <- (lookup_take_lt (players g') (S k) k) by lia.
             rewrite Htake. apply lookup_take_lt. lia. }
           rewrite E in Hp'. inversion Hp'; subst. exact Hlen2.
        -- apply (Htwo j p'); [lia|exact Hp'].
      * apply (f_equal (take k)) in Htake.
        rewrite !take_take in Htake.
        replace (k `min` S k)%nat with k in Htake by lia.
        rewrite Htake. unfold g1. simpl. apply take_insert_ge. lia.
      * rewrite Hperm. unfold all_hole_cards, g1. simpl.
        rewrite (all_hole_cards_insert _ k p dealt Hp (Hempty k p (le_n k) Hp)).
        rewrite Hsplit. rewrite <- Permutation_rev. solve_Permutation.
      * unfold g1 in Hleft. simpl in Hleft. lia.
Qed.

Lemma bet_within_stack amount p :
  amount <= stack p ->
  bet amount p = Done amount
    (Player.set_current_bet (Player.current_bet p + amount)
       (set_stack (stack p - amount) p)).
Proof.
  intros H. unfold bet. destruct (Z.ltb_spec (stack p) amount); [lia|reflexivity].
Qed.

(** [post_blinds] written out, at a table with a seat. *)
Lemma post_blinds_eq g :
  players g <> [] ->
  let n := Z.of_nat (length (players g)) in
  let sb := Z.to_nat ((dealer_position g + 1) mod n) in
  let bb := Z.to_nat ((dealer_position g + 2) mod n) in
  exists p q,
    players g !! sb = Some p /\
    <[sb := post_blind (small_blind g) p]> (players g) !! bb = Some q /\
    post_blinds g =
    Done tt
      (set_action_position ((Z.of_nat bb + 1) mod n)
         (GameState.set_current_bet (Z.min (big_blind g) (stack q))
            (set_pot (pot g + Z.min (small_blind g) (stack p)
                      + Z.min (big_blind g) (stack q))
               (set_players
                  (<[bb := post_blind (big_blind g) q]>
                     (<[sb := post_blind (small_blind g) p]> (players g))) g)))).
Proof.
  intros Hne n sb bb.
  pose proof (seats_positive g Hne) as Hpos. fold n in Hpos.
  pose proof (Z.mod_pos_bound (dealer_position g + 1) n Hpos) as Hsb.
  pose proof (Z.mod_pos_bound (dealer_position g + 2) n Hpos) as Hbb.
  destruct (lookup_lt_is_Some_2 (players g) sb) as [p Hp]; [unfold sb, n in *; lia|].
  destruct (lookup_lt_is_Some_2 (<[sb := post_blind (small_blind g) p]> (players g)) bb)
    as [q Hq]; [rewrite length_insert; unfold bb, n in *; lia|].
  exists p, q. split; [exact Hp|]. split; [exact Hq|].
  unfold post_blinds, bind at 1, get. unfold bind at 1.
  rewrite mod_seats_eq by exact Hne. fold n.
  unfold bind at 1. rewrite mod_seats_eq by exact Hne. fold n.
  unfold bind at 1. rewrite seat_at_in_range by exact Hsb.
  unfold bind at 1. fold sb. rewrite (on_player_eq _ g sb p Hp).
  rewrite bet_within_stack by lia. fold (post_blind (small_blind g) p).
  unfold bind at 1. simpl.
  unfold bind at 1.
  rewrite seat_at_in_range by (simpl; rewrite length_insert; exact Hbb).
  unfold bind at 1. fold bb.
  erewrite on_player_eq by (simpl; exact Hq).
  rewrite bet_within_stack by lia. fold (post_blind (big_blind g) q).
  unfold bind at 1. simpl.
  unfold bind at 1. simpl. unfold bind at 1.
  rewrite mod_seats_eq by (simpl; intros E; apply (f_equal length) in E;
                           rewrite !length_insert in E; unfold n in *; simpl in E; lia).
  simpl. rewrite !length_insert. fold n.
  unfold bb. rewrite Z2Nat.id by lia. reflexivity.
Qed.

Lemma fmap_insert_same {X} (f : Player.t -> X) (ps : list Player.t) (k : nat) p p' :
  ps !! k = Some p -> f p' = f p -> f <$> <[k := p']> ps = f <$> ps.
Proof.
  intros Hp Hf. rewrite list_fmap_insert, Hf.
  apply list_insert_id. now rewrite list_lookup_fmap, Hp.
Qed.

(** Posting the blinds touches only stacks and bets. *)
Lemma post_blinds_keeps {X} (f : Player.t -> X) g :
  (forall blind p, f (post_blind blind p) = f p) ->
  players g <> [] ->
  exists g',
    post_blinds g = Done tt g' /\
    f <$> players g' = f <$> players g /\
    deck g' = deck g /\ community_cards g' = community_cards g /\
    current_round g' = current_round g /\ hand_number g' = hand_number g /\
    dealer_position g' = dealer_position g /\
    action_position g' =
      (dealer_position g + 3) mod Z.of_nat (length (players g)).
Proof.
  intros Hf Hne. destruct (post_blinds_eq g Hne) as (p & q & Hp & Hq & E).
  eexists. split; [exact E|]. simpl.
  split; [|repeat split].
  - rewrite (fmap_insert_same f _ _ q) by (auto using Hf).
    now rewrite (fmap_insert_same f _ _ p) by (auto using Hf).
  - pose proof (seats_positive g Hne) as Hpos.
    rewrite Z2Nat.id by (apply Z.mod_pos_bound; lia).
    rewrite Zplus_mod_idemp_l. f_equal. lia.
Qed.

Lemma reset_all_players_eq g :
  for_each_player (fun i => on_player i reset_for_new_hand) g =
  Done tt (set_players (fresh_player <$> players g) g).
Proof. apply (for_each_player_modify fresh_player). Qed.

Lemma all_hole_cards_fresh (ps : list Player.t) :
  concat (map hole_cards (fresh_player <$> ps)) = [].
Proof. induction ps as [|p ps IH]; simpl; [reflexivity|exact IH]. Qed.

(** X9. At a table of 1 to 26 seats, whatever permutation the shuffle
    produces, [start_new_hand] returns; every player then holds two cards and
    is neither folded nor all-in, even one whose whole stack went into a
    blind; the hole cards and the deck together are the 52 cards without
    repetition, so the deck has [52 - 2 * seats] cards; the board is empty,
    the round is preflop, the hand number has grown by one, the dealer has
    not moved, and the action is three seats after the dealer. *)
Theorem start_new_hand_deals_two_cards_each (shuffle : list Card -> list Card)
    (g : GameState.t) :
  (forall l, Permutation (shuffle l) l) ->
  (1 <= length (players g) <= 26)%nat ->
  exists g0,
    start_new_hand shuffle g = Done tt g0 /\
    length (players g0) = length (players g) /\
    Forall (fun p => length (hole_cards p) = 2%nat /\
                     folded p = false /\ all_in p = false) (players g0) /\
    Permutation (all_hole_cards g0 ++ deck g0) fresh_cards /\
    NoDup (all_hole_cards g0 ++ deck g0) /\
    cards_remaining (deck g0) = 52 - 2 * Z.of_nat (length (players g)) /\
    community_cards g0 = [] /\
    current_round g0 = PREFLOP /\
    hand_number g0 = hand_number g + 1 /\
    dealer_position g0 = dealer_position g /\
    action_position g0 =
      (dealer_position g + 3) mod Z.of_nat (length (players g)).
Proof.
  intros Hshuffle Hn.
  unfold start_new_hand.
  do 7 (unfold bind at 1; simpl).
  unfold bind at 1. rewrite reset_all_players_eq. simpl.
  set (gB := set_players _ _).
  assert (length (players gB) = length (players g)) as HlenB
    by (unfold gB; simpl; apply length_fmap).
  assert (length (deck gB) = 52%nat) as HdeckB
    by (unfold gB; simpl; now rewrite (Permutation_length (Hshuffle fresh_cards))).
  destruct (deal_hole_cards_from (length (players gB)) 0 gB)
    as (g2 & Hdeal & Hlen2 & Htwo & _ & Hperm & Hleft & Hshape & _).
  { simpl. lia. }
  { rewrite HlenB, HdeckB. lia. }
  { unfold gB. simpl. apply List.Forall_forall. intros p Hp.
    apply list_elem_of_In, list_elem_of_fmap in Hp as (p0 & -> & _). reflexivity. }
  { intros j p _ Hp. unfold gB in Hp. simpl in Hp.
    rewrite list_lookup_fmap in Hp. destruct (players g !! j); [|discriminate].
    simpl in Hp. inversion Hp. reflexivity. }
  assert (deal_hole_cards gB = Done tt g2) as Hdeal'
    by (unfold deal_hole_cards, for_each_player, bind at 1, get; exact Hdeal).
  unfold bind at 1. rewrite Hdeal'.
  assert (players g2 <> []) as Hne
    by (intros E; rewrite E, HlenB in Hlen2; simpl in Hlen2; lia).
  destruct (deal_hole_cards_chips folded (fun _ _ => eq_refl) _ _ Hdeal') as [Htable Hfolded].
  destruct (deal_hole_cards_chips all_in (fun _ _ => eq_refl) _ _ Hdeal') as [_ Hallin].
  destruct (post_blinds_keeps
              (fun p => (hole_cards p, folded p, all_in p)) g2 (fun _ _ => eq_refl) Hne)
    as (g0 & Hpost & Hsame & Hdeck0 & Hboard & Hround & Hnum & Hdealer & Hact).
  exists g0. split; [exact Hpost|].
  assert (length (players g0) = length (players g2)) as Hlen0
    by (apply (f_equal length) in Hsame; now rewrite !length_fmap in Hsame).
  assert (all_hole_cards g0 = all_hole_cards g2) as Hholes.
  { unfold all_hole_cards. apply (f_equal (fmap (fun x => fst (fst x)))) in Hsame.
    rewrite <- !list_fmap_compose in Hsame. simpl in Hsame.
    f_equal. exact Hsame. }
  assert (Permutation (all_hole_cards g0 ++ deck g0) fresh_cards) as Hall.
  { rewrite Hholes, Hdeck0, Hperm. unfold all_hole_cards, gB. simpl.
    rewrite all_hole_cards_fresh. simpl. apply Hshuffle. }
  split; [congruence|]. split; [|split; [exact Hall|split; [|split]]].
  - apply List.Forall_forall. intros p Hp.
    apply list_elem_of_In, list_elem_of_lookup in Hp as [j Hp].
    assert ((fun p => (hole_cards p, folded p, all_in p)) <$> players g0 !! j
            = (fun p => (hole_cards p, folded p, all_in p)) <$> players g2 !! j) as E
      by (rewrite <- !list_lookup_fmap; now rewrite Hsame).
    rewrite Hp in E. simpl in E.
    destruct (players g2 !! j) as [p2|] eqn:Hp2; [|discriminate].
    simpl in E. inversion E as [[Eh Ef Ea]].
    split; [rewrite Eh; apply (Htwo j p2);
            [apply lookup_lt_Some in Hp2; lia|exact Hp2]|].
    assert (folded <$> players g2 !! j = folded <$> players gB !! j) as E1
      by (rewrite <- !list_lookup_fmap; now rewrite Hfolded).
    assert (all_in <$> players g2 !! j = all_in <$> players gB !! j) as E2
      by (rewrite <- !list_lookup_fmap; now rewrite Hallin).
    rewrite Hp2 in E1, E2. unfold gB in E1, E2. simpl in E1, E2.
    rewrite list_lookup_fmap in E1, E2.
    destruct (players g !! j); [|discriminate].
    simpl in E1, E2. inversion E1. inversion E2. split; congruence.
  - rewrite Hall. apply fresh_cards_NoDup.
  - unfold cards_remaining. rewrite Hdeck0. lia.
  - unfold table_chips in Htable.
    assert (community_cards g2 = [] /\ current_round g2 = PREFLOP /\
            hand_number g2 = hand_number g + 1 /\
            dealer_position g2 = dealer_position g) as (E1 & E2 & E3 & E4).
    { rewrite Hshape. unfold gB. simpl. auto. }
    rewrite Hboard, Hround, Hnum, Hdealer, Hact, Hlen2, HlenB, E1, E2, E3, E4.
    repeat split.
Qed.

Lemma start_new_hand_deals_two_cards_each_witness :
  exists g0,
    start_new_hand (fun cards => cards) full_stack_table = Done tt g0 /\
    Forall (fun p => length (hole_cards p) = 2%nat /\
                     folded p = false /\ all_in p = false) (players g0) /\
    NoDup (all_hole_cards g0 ++ deck g0) /\
    cards_remaining (deck g0) = 46.
Proof.
  destruct (start_new_hand_deals_two_cards_each (fun cards => cards) full_stack_table)
    as (g0 & H & _ & Hall & _ & Hnd & Hleft & _).
  - intros l. reflexivity.
  - simpl. lia.
  - exists g0. repeat split; assumption.
Defined.

Lemma for_seats_app body seats1 seats2 g :
  for_seats (seats1 ++ seats2) body g =
  match for_seats seats1 body g with
  | Done _ g' => for_seats seats2 body g'
  | Raised e g' => Raised e g'
  | OutOfFuel => OutOfFuel
  end.
Proof.
  revert g. induction seats1 as [|i seats1 IH]; intros g; simpl; [reflexivity|].
  unfold bind. destruct (body i g) as [[] g1|e g1|]; auto.
Qed.

(** X10. At a table of more than 26 seats [start_new_hand] raises the
    [ValueError] of [Deck.deal] while dealing to the 27th seat.  The table is
    left mid-hand: the first 26 seats hold two cards each, the deck is empty,
    the hand number has grown, and no blind has been posted. *)
Theorem start_new_hand_runs_out_of_cards (shuffle : list Card -> list Card)
    (g : GameState.t) :
  (forall l, Permutation (shuffle l) l) ->
  (26 < length (players g))%nat ->
  exists g',
    start_new_hand shuffle g = Raised (ValueError (CannotDeal 2 0)) g' /\
    deck g' = [] /\
    (forall j p, (j < 26)%nat -> players g' !! j = Some p ->
                 length (hole_cards p) = 2%nat) /\
    hand_number g' = hand_number g + 1 /\
    pot g' = 0 /\ GameState.current_bet g' = 0.
Proof.
  intros Hshuffle Hn.
  unfold start_new_hand.
  do 7 (unfold bind at 1; simpl).
  unfold bind at 1. rewrite reset_all_players_eq. simpl.
  set (gB := set_players _ _).
  assert (length (players gB) = length (players g)) as HlenB
    by (unfold gB; simpl; apply length_fmap).
  assert (length (deck gB) = 52%nat) as HdeckB
    by (unfold gB; simpl; now rewrite (Permutation_length (Hshuffle fresh_cards))).
  destruct (deal_hole_cards_from 26 0 gB)
    as (g2 & Hdeal & Hlen2 & Htwo & _ & _ & Hleft & Hshape & Hfold).
  { rewrite HlenB. lia. }
  { rewrite HdeckB. lia. }
  { unfold gB. simpl. apply List.Forall_forall. intros p Hp.
    apply list_elem_of_In, list_elem_of_fmap in Hp as (p0 & -> & _). reflexivity. }
  { intros j p _ Hp. unfold gB in Hp. simpl in Hp.
    rewrite list_lookup_fmap in Hp. destruct (players g !! j); [|discriminate].
    simpl in Hp. inversion Hp. reflexivity. }
  assert (deck g2 = []) as Hempty
    by (rewrite HdeckB in Hleft; destruct (deck g2); [reflexivity|simpl in Hleft; lia]).
  destruct (lookup_lt_is_Some_2 (players g2) 26) as [p Hp];
    [rewrite Hlen2, HlenB; lia|].
  assert (folded p = false) as Hf.
  { apply (proj1 (List.Forall_forall _ _) Hfold).
    apply list_elem_of_In, list_elem_of_lookup. eauto. }
  assert (deal_hole_cards gB = Raised (ValueError (CannotDeal 2 0)) g2) as E.
  { unfold deal_hole_cards, for_each_player, bind at 1, get.
    replace (length (players gB)) with (26 + S (length (players g) - 27))%nat
      by (rewrite HlenB; lia).
    rewrite seq_app, for_seats_app, Hdeal. simpl.
    unfold bind at 1. unfold bind at 1.
    rewrite (player_at_eq g2 26 p Hp), Hf. simpl.
    unfold bind at 1, on_deck. rewrite Hempty. simpl.
    rewrite <- Hempty. now rewrite set_deck_id. }
  unfold bind at 1. rewrite E.
  exists g2. split; [reflexivity|]. split; [exact Hempty|].
  split; [intros j q Hj Hq; apply (Htwo j q); [lia|exact Hq]|].
  rewrite Hshape. unfold gB. simpl. auto.
Qed.

Lemma start_new_hand_runs_out_of_cards_witness :
  exists g',
    start_new_hand (fun cards => cards) (table_of 27)
      = Raised (ValueError (CannotDeal 2 0)) g' /\
    deck g' = [] /\ pot g' = 0.
Proof.
  destruct (start_new_hand_runs_out_of_cards (fun cards => cards) (table_of 27))
    as (g' & H & Hd & _ & _ & Hp & _).
  - intros l. reflexivity.
  - simpl. lia.
  - exists g'. repeat split; assumption.
Defined.

(** X11. At a table without seats every method that takes a seat number
    modulo the number of players raises [ZeroDivisionError]:
    [post_blinds], [reset_betting_round] and [advance_dealer] leave the table
    as it was apart from the table's bet, which the reset has already set to
    0; [start_new_hand] fails after it has reshuffled and counted the hand. *)
Theorem empty_table_raises_zero_division (shuffle : list Card -> list Card)
    (fuel : nat) (g : GameState.t) :
  players g = [] ->
  post_blinds g = Raised ZeroDivisionError g /\
  advance_dealer g = Raised ZeroDivisionError g /\
  reset_betting_round fuel g = Raised ZeroDivisionError (GameState.set_current_bet 0 g) /\
  start_new_hand shuffle g =
    Raised ZeroDivisionError
      (set_current_round PREFLOP
         (GameState.set_current_bet 0
            (set_side_pots []
               (set_pot 0
                  (set_community_cards []
                     (set_deck (shuffle fresh_cards)
                        (set_hand_number (hand_number g + 1) g))))))).
Proof.
  intros H. destruct g as [ps d cc p sp cb sb bb dp cr ap hn].
  simpl in H. subst ps. split; [|split; [|split]].
  - unfold post_blinds, bind, get, mod_seats. reflexivity.
  - unfold advance_dealer, bind, get, mod_seats. reflexivity.
  - unfold reset_betting_round, for_each_player, bind, get, modify, mod_seats.
    reflexivity.
  - unfold start_new_hand.
    do 7 (unfold bind at 1; simpl).
    unfold bind at 1. rewrite reset_all_players_eq.
    cbn [players set_players fmap list_fmap].
    unfold bind at 1.
    match goal with
    | |- context [deal_hole_cards ?gB] =>
        assert (deal_hole_cards gB = Done tt gB) as E by reflexivity
    end.
    rewrite E.
    match goal with
    | |- post_blinds ?gB = _ =>
        assert (post_blinds gB = Raised ZeroDivisionError gB) as E'
          by (unfold post_blinds, bind, get, mod_seats; reflexivity)
    end.
    rewrite E'. reflexivity.
Qed.

Lemma empty_table_raises_zero_division_witness :
  post_blinds (table_of 0) = Raised ZeroDivisionError (table_of 0) /\
  advance_dealer (table_of 0) = Raised ZeroDivisionError (table_of 0).
Proof.
  destruct (empty_table_raises_zero_division (fun cards => cards) 0 (table_of 0))
    as (H1 & H2 & _); [reflexivity|].
  split; assumption.
Defined.

(** ** Dealing the board *)

Lemma least_true (f : nat -> bool) (n : nat) :
  (exists d, (d < n)%nat /\ f d = true) ->
  exists d, (d < n)%nat /\ f d = true /\ forall k, (k < d)%nat -> f k = false.
Proof.
  induction n as [|n IH]; intros (d & Hd & Hf); [lia|].
  destruct (existsb f (seq 0 n)) eqn:E.
  - apply existsb_exists in E as (d' & Hin & Hf'). apply in_seq in Hin.
    destruct IH as (d0 & ? & ? & ?); [exists d'; split; [lia|exact Hf']|].
    exists d0. split; [lia|auto].
  - assert (forall k, (k < n)%nat -> f k = false) as Hnone.
    { intros k Hk. destruct (f k) eqn:Hfk; [|reflexivity].
      assert (existsb f (seq 0 n) = true) as E'
        by (apply existsb_exists; exists k; split; [apply in_seq; lia|exact Hfk]).
      congruence. }
    assert (d = n) as -> by (destruct (decide (d < n)%nat); [rewrite Hnone in Hf by lia; discriminate|lia]).
    exists n. split; [lia|]. split; [exact Hf|exact Hnone].
Qed.

Lemma scan_seats_reaches g : forall d a fuel,
  0 <= a < Z.of_nat (length (players g)) ->
  (d <= fuel)%nat ->
  (forall k, (k < d)%nat -> live_at (players g) (a + Z.of_nat k) = false) ->
  live_at (players g) (a + Z.of_nat d) = true ->
  scan_seats fuel (set_action_position a g) =
  Done tt (set_action_position ((a + Z.of_nat d) mod Z.of_nat (length (players g))) g).
Proof.
  induction d as [|d IH]; intros a fuel Ha Hfuel Hdead Hlive.
  - unfold live_at in Hlive. replace (a + Z.of_nat 0) with a in * by lia.
    rewrite Z.mod_small in * by exact Ha.
    destruct (players g !! Z.to_nat a) as [p|] eqn:Hp; [|discriminate].
    now rewrite (scan_seats_step fuel a g p Ha Hp), Hlive.
  - destruct (lookup_lt_is_Some_2 (players g) (Z.to_nat a)) as [q Hq]; [lia|].
    rewrite (scan_seats_step fuel a g q Ha Hq).
    pose proof (Hdead 0%nat ltac:(lia)) as H0. unfold live_at in H0.
    replace (a + Z.of_nat 0) with a in H0 by lia.
    rewrite Z.mod_small, Hq in H0 by exact Ha. rewrite H0.
    destruct fuel as [|fuel]; [lia|].
    rewrite IH.
    + f_equal. f_equal. rewrite Zplus_mod_idemp_l. f_equal. lia.
    + apply Z.mod_pos_bound. lia.
    + lia.
    + intros k Hk. specialize (Hdead (S k) ltac:(lia)).
      unfold live_at in *. rewrite Zplus_mod_idemp_l.
      replace (a + 1 + Z.of_nat k) with (a + Z.of_nat (S k)) by lia. exact Hdead.
    + unfold live_at in *. rewrite Zplus_mod_idemp_l.
      replace (a + 1 + Z.of_nat d) with (a + Z.of_nat (S d)) by lia. exact Hlive.
Qed.

Lemma live_at_reset_bets ps pos :
  live_at (Player.set_current_bet 0 <$> ps) pos = live_at ps pos.
Proof.
  unfold live_at. rewrite length_fmap, list_lookup_fmap.
  now destruct (ps !! _).
Qed.

Lemma live_at_mod ps pos :
  live_at ps (pos mod Z.of_nat (length ps)) = live_at ps pos.
Proof.
  unfold live_at. destruct ps as [|p ps]; [reflexivity|].
  now rewrite Z.mod_mod by (simpl; lia).
Qed.

(** [reset_betting_round] with a live player: the bets go to 0 and the
    action goes to the first live seat after the dealer. *)
Lemma reset_betting_round_first_live g fuel :
  (exists i p, players g !! i = Some p /\ can_act p = true) ->
  (length (players g) <= fuel)%nat ->
  exists d,
    (d < length (players g))%nat /\
    live_at (players g) (dealer_position g + 1 + Z.of_nat d) = true /\
    (forall k, (k < d)%nat ->
               live_at (players g) (dealer_position g + 1 + Z.of_nat k) = false) /\
    reset_betting_round fuel g =
    Done tt
      (set_action_position
         ((dealer_position g + 1 + Z.of_nat d) mod Z.of_nat (length (players g)))
         (set_players (Player.set_current_bet 0 <$> players g)
            (GameState.set_current_bet 0 g))).
Proof.
  intros (i & p & Hp & Hact) Hfuel.
  assert (players g <> []) as Hne by (intros E; rewrite E in Hp; discriminate).
  pose proof (seats_positive g Hne) as Hpos.
  assert (i < length (players g))%nat as Hi by now apply lookup_lt_Some in Hp.
  set (n := Z.of_nat (length (players g))) in *.
  destruct (least_true (fun d => live_at (players g) (dealer_position g + 1 + Z.of_nat d))
              (length (players g))) as (d & Hd & Hlive & Hdead).
  { exists (Z.to_nat ((Z.of_nat i - (dealer_position g + 1)) mod n)).
    pose proof (Z.mod_pos_bound (Z.of_nat i - (dealer_position g + 1)) n Hpos).
    split; [unfold n in *; lia|].
    rewrite Z2Nat.id by lia. rewrite <- live_at_mod. fold n.
    rewrite Zplus_mod_idemp_r.
    replace (dealer_position g + 1 + (Z.of_nat i - (dealer_position g + 1)))
      with (Z.of_nat i) by lia.
    unfold live_at. fold n. rewrite Z.mod_mod, Z.mod_small by (unfold n; lia).
    now rewrite Nat2Z.id, Hp. }
  exists d. split; [exact Hd|]. split; [exact Hlive|]. split; [exact Hdead|].
  rewrite reset_betting_round_eq by exact Hne. fold n.
  set (g1 := set_players (Player.set_current_bet 0 <$> players g)
               (GameState.set_current_bet 0 g)).
  assert (Z.of_nat (length (players g1)) = n) as Hn1
    by (unfold g1; simpl; now rewrite length_fmap).
  rewrite (scan_seats_reaches g1 d).
  - rewrite Hn1. rewrite Zplus_mod_idemp_l. reflexivity.
  - rewrite Hn1. apply Z.mod_pos_bound. exact Hpos.
  - lia.
  - intros k Hk. unfold g1. simpl. rewrite live_at_reset_bets.
    rewrite <- live_at_mod. fold n. rewrite Zplus_mod_idemp_l.
    rewrite <- (Hdead k Hk). rewrite <- (live_at_mod _ (dealer_position g + 1 + _)).
    reflexivity.
  - unfold g1. simpl. rewrite live_at_reset_bets.
    rewrite <- live_at_mod. fold n. rewrite Zplus_mod_idemp_l.
    rewrite <- Hlive. rewrite <- (live_at_mod _ (dealer_position g + 1 + _)).
    reflexivity.
Qed.

Lemma deal_one_top (cards : list Card) :
  (1 <= length cards)%nat ->
  exists burn rest, Deck.deal_one cards = Done burn rest /\ cards = rest ++ [burn].
Proof.
  intros Hlen.
  destruct (deal_from_the_top cards 1) as (dealt & rest & E & Hsplit & Hl & _); [lia|].
  destruct dealt as [|burn [|? ?]]; simpl in Hl; try lia.
  exists burn, rest. unfold Deck.deal_one, bind. rewrite E. split; [reflexivity|exact Hsplit].
Qed.

(** A burn, [k] cards to the board, and the reset of the round. *)
Lemma deal_phase_spec (k : Z) (round : BettingRound) g fuel :
  0 <= k -> k + 1 <= Z.of_nat (length (deck g)) ->
  (exists i p, players g !! i = Some p /\ can_act p = true) ->
  (length (players g) <= fuel)%nat ->
  exists burn cards rest d,
    deck g = rest ++ rev cards ++ [burn] /\
    Z.of_nat (length cards) = k /\
    (d < length (players g))%nat /\
    live_at (players g) (dealer_position g + 1 + Z.of_nat d) = true /\
    (forall j, (j < d)%nat ->
               live_at (players g) (dealer_position g + 1 + Z.of_nat j) = false) /\
    (on_deck Deck.deal_one ;;;
     cards <- on_deck (Deck.deal k) ;;
     extend_community cards ;;;
     modify (set_current_round round) ;;;
     reset_betting_round fuel)%py g =
    Done tt
      (set_action_position
         ((dealer_position g + 1 + Z.of_nat d) mod Z.of_nat (length (players g)))
         (set_players (Player.set_current_bet 0 <$> players g)
            (GameState.set_current_bet 0
               (set_current_round round
                  (set_community_cards (community_cards g ++ cards)
                     (set_deck rest g)))))).
Proof.
  intros Hk Hdeck Hlive Hfuel.
  destruct (deal_one_top (deck g)) as (burn & rest1 & Eburn & Hsplit1); [lia|].
  assert (length (deck g) = S (length rest1)) as Hlen1
    by (rewrite Hsplit1, length_app; simpl; lia).
  destruct (deal_from_the_top rest1 k)
    as (cards & rest & Edeal & Hsplit & Hl & _); [lia|].
  set (g3 := set_current_round round
               (set_community_cards (community_cards g ++ cards) (set_deck rest g))).
  destruct (reset_betting_round_first_live g3 fuel Hlive Hfuel)
    as (d & Hd & Hl1 & Hl2 & Ereset).
  exists burn, cards, rest, d.
  split; [rewrite Hsplit1, Hsplit; now rewrite <- app_assoc|].
  split; [lia|]. split; [exact Hd|]. split; [exact Hl1|]. split; [exact Hl2|].
  unfold bind at 1. unfold on_deck at 1. rewrite Eburn.
  unfold bind at 1. unfold on_deck at 1. simpl. rewrite Edeal.
  unfold bind, extend_community, modify. simpl.
  exact Ereset.
Qed.

(** X12. With a player who can act, a loop bound of at least the number of
    seats, and 4 cards in the deck for the flop (2 for the turn or the river),
    [deal_flop], [deal_turn] and [deal_river] return: the top card is burnt,
    the next 3 (1, 1) go to the board in the order dealt, the round is set,
    the table's bet and every player's bet are 0, pot, stacks, flags and
    dealer are untouched, and the action is on the first player after the
    dealer, in seating order and cyclically, who can act. *)
Theorem deal_phases_burn_deal_and_reset (g : GameState.t) (fuel : nat) :
  (exists i p, players g !! i = Some p /\ can_act p = true) ->
  (length (players g) <= fuel)%nat ->
  exists d,
    (d < length (players g))%nat /\
    live_at (players g) (dealer_position g + 1 + Z.of_nat d) = true /\
    (forall j, (j < d)%nat ->
               live_at (players g) (dealer_position g + 1 + Z.of_nat j) = false) /\
    let after round board rest :=
      set_action_position
        ((dealer_position g + 1 + Z.of_nat d) mod Z.of_nat (length (players g)))
        (set_players (Player.set_current_bet 0 <$> players g)
           (GameState.set_current_bet 0
              (set_current_round round
                 (set_community_cards (community_cards g ++ board)
                    (set_deck rest g))))) in
    (forall rest c1 c2 c3 burn,
       deck g = rest ++ [c3; c2; c1; burn] ->
       deal_flop fuel g = Done tt (after FLOP [c1; c2; c3] rest)) /\
    (forall rest c burn,
       deck g = rest ++ [c; burn] ->
       deal_turn fuel g = Done tt (after TURN [c] rest) /\
       deal_river fuel g = Done tt (after RIVER [c] rest)).
Proof.
  intros Hlive Hfuel.
  destruct (reset_betting_round_first_live g fuel Hlive Hfuel) as (d & Hd & Hl1 & Hl2 & _).
  assert (forall d', (d' < length (players g))%nat ->
            live_at (players g) (dealer_position g + 1 + Z.of_nat d') = true ->
            (forall j, (j < d')%nat ->
               live_at (players g) (dealer_position g + 1 + Z.of_nat j) = false) ->
            d' = d) as Huniq.
  { intros d' _ Hl1' Hl2'. destruct (lt_eq_lt_dec d' d) as [[Hlt|Heq]|Hgt]; [|exact Heq|].
    - rewrite (Hl2 d' Hlt) in Hl1'. discriminate.
    - rewrite (Hl2' d Hgt) in Hl1. discriminate. }
  exists d. split; [exact Hd|]. split; [exact Hl1|]. split; [exact Hl2|].
  intros after. split.
  - intros rest c1 c2 c3 burn Hdeck.
    destruct (deal_phase_spec 3 FLOP g fuel) as (b & cs & r & d' & Hsplit & Hl & Hd' & Hl1' & Hl2' & E);
      [lia|rewrite Hdeck, length_app; simpl; lia|exact Hlive|exact Hfuel|].
    rewrite (Huniq d' Hd' Hl1' Hl2') in E.
    destruct cs as [|x1 [|x2 [|x3 [|? ?]]]]; simpl in Hl; try lia.
    rewrite Hdeck in Hsplit. simpl in Hsplit.
    apply app_inj_2 in Hsplit as [<- Heq]; [|reflexivity].
    injection Heq as <- <- <- <-.
    exact E.
  - intros rest c burn Hdeck.
    assert (forall round,
              (on_deck Deck.deal_one ;;;
               cards <- on_deck (Deck.deal 1) ;;
               extend_community cards ;;;
               modify (set_current_round round) ;;;
               reset_betting_round fuel)%py g = Done tt (after round [c] rest)) as Hphase.
    { intros round.
      destruct (deal_phase_spec 1 round g fuel)
        as (b & cs & r & d' & Hsplit & Hl & Hd' & Hl1' & Hl2' & E);
        [lia|rewrite Hdeck, length_app; simpl; lia|exact Hlive|exact Hfuel|].
      rewrite (Huniq d' Hd' Hl1' Hl2') in E.
      destruct cs as [|x1 [|? ?]]; simpl in Hl; try lia.
      rewrite Hdeck in Hsplit. simpl in Hsplit.
      apply app_inj_2 in Hsplit as [<- Heq]; [|reflexivity].
      injection Heq as <- <-.
      exact E. }
    split; apply Hphase.
Qed.

Lemma deal_phases_burn_deal_and_reset_witness :
  exists g',
    deal_flop 3 one_live_table = Done tt g' /\
    community_cards g' = [mkCard ACE DIAMONDS; mkCard ACE HEARTS; mkCard ACE SPADES] /\
    current_round g' = FLOP /\
    cards_remaining (deck g') = 48.
Proof.
  destruct (deal_phases_burn_deal_and_reset one_live_table 3)
    as (d & _ & _ & _ & Hflop & _).
  - exists 2%nat, (Player.new "villain" 1000). split; reflexivity.
  - simpl. lia.
  - eexists. split.
    + apply (Hflop (take 48 fresh_cards) (mkCard ACE DIAMONDS) (mkCard ACE HEARTS)
               (mkCard ACE SPADES) (mkCard ACE CLUBS)).
      reflexivity.
    + repeat split.
Defined.

(** ** Whose turn it is *)

Lemma get_active_players_lookup g i p :
  In (i, p) (get_active_players g) <-> players g !! i = Some p /\ folded p = false.
Proof.
  unfold get_active_players. rewrite List.filter_In. simpl.
  rewrite <- list_elem_of_In, elem_of_lookup_imap.
  rewrite negb_true_iff. split.
  - intros [(j & q & E & Hq) Hf]. inversion E; subst. auto.
  - intros [Hp Hf]. split; [exists i, p; auto|exact Hf].
Qed.

Lemma round_incomplete_someone_owes g :
  is_betting_round_complete g = false ->
  exists i p, players g !! i = Some p /\ owes g p = true.
Proof.
  unfold is_betting_round_complete.
  destruct (length (get_active_players g) <=? 1)%nat; [discriminate|].
  intros H.
  assert (exists ip, In ip (get_active_players g) /\
                     negb (negb (all_in (snd ip))
                           && (Player.current_bet (snd ip) <? GameState.current_bet g))
                     = false) as ([i p] & Hin & Hip).
  { clear -H. induction (get_active_players g) as [|x l IH]; [discriminate|].
    simpl in H. apply andb_false_iff in H as [H|H].
    - exists x. split; [now left|exact H].
    - destruct (IH H) as (ip & ? & ?). exists ip. split; [now right|assumption]. }
  apply get_active_players_lookup in Hin as [Hp Hf].
  exists i, p. split; [exact Hp|]. unfold owes. rewrite Hf. simpl in *.
  now apply negb_false_iff in Hip.
Qed.

Lemma next_seat_is_not_start (start j n : Z) :
  0 <= start < n -> 0 <= j -> j + 1 < n ->
  ((start + j) mod n + 1) mod n <> start.
Proof.
  intros Hs Hj Hn. rewrite Zplus_mod_idemp_l.
  destruct (Z.lt_ge_cases (start + j + 1) n).
  - rewrite Z.mod_small by lia. lia.
  - replace (start + j + 1) with (start + j + 1 - n + 1 * n) by lia.
    rewrite Z_mod_plus_full, Z.mod_small by lia. lia.
Qed.

Lemma next_to_act_loop_step fuel start cur g p :
  0 <= cur < Z.of_nat (length (players g)) ->
  players g !! Z.to_nat cur = Some p ->
  next_to_act_loop fuel start cur g =
  if owes g p then Done (Some (Z.to_nat cur)) g
  else if (cur + 1) mod Z.of_nat (length (players g)) =? start then Done None g
  else match fuel with
       | O => OutOfFuel
       | S fuel' =>
           next_to_act_loop fuel' start
             ((cur + 1) mod Z.of_nat (length (players g))) g
       end.
Proof.
  intros Hc Hp.
  assert (players g <> []) as Hne by (intros E; rewrite E in Hp; discriminate).
  destruct fuel as [|fuel]; simpl; unfold bind, get.
  all: rewrite (seat_at_in_range cur g Hc), (player_at_eq g _ p Hp).
  all: unfold owes; destruct (negb (folded p) && negb (all_in p)
                              && (Player.current_bet p <? GameState.current_bet g));
    [reflexivity|].
  all: rewrite (mod_seats_eq _ g Hne).
  all: now destruct (_ =? start).
Qed.

Lemma next_to_act_loop_finds g (start : Z) (d : nat) :
  0 <= start < Z.of_nat (length (players g)) ->
  (d < length (players g))%nat ->
  owes_at g (start + Z.of_nat d) = true ->
  (forall k, (k < d)%nat -> owes_at g (start + Z.of_nat k) = false) ->
  forall r j fuel, (j + r = d)%nat -> (r <= fuel)%nat ->
  next_to_act_loop fuel start
    ((start + Z.of_nat j) mod Z.of_nat (length (players g))) g =
  Done (Some (Z.to_nat ((start + Z.of_nat d) mod Z.of_nat (length (players g))))) g.
Proof.
  intros Hs Hd Hfound Hnone.
  set (n := Z.of_nat (length (players g))) in *.
  induction r as [|r IH]; intros j fuel Hj Hfuel.
  - replace j with d by lia.
    unfold owes_at in Hfound. fold n in Hfound.
    destruct (players g !! Z.to_nat ((start + Z.of_nat d) mod n)) as [p|] eqn:Hp;
      [|discriminate].
    rewrite (next_to_act_loop_step fuel start _ g p);
      [now rewrite Hfound|apply Z.mod_pos_bound; lia|exact Hp].
  - pose proof (Hnone j ltac:(lia)) as Hj0. unfold owes_at in Hj0. fold n in Hj0.
    destruct (lookup_lt_is_Some_2 (players g) (Z.to_nat ((start + Z.of_nat j) mod n)))
      as [p Hp].
    { pose proof (Z.mod_pos_bound (start + Z.of_nat j) n ltac:(lia)). unfold n in *. lia. }
    rewrite Hp in Hj0.
    rewrite (next_to_act_loop_step fuel start _ g p);
      [|apply Z.mod_pos_bound; lia|exact Hp].
    rewrite Hj0. fold n.
    destruct (Z.eqb_spec (((start + Z.of_nat j) mod n + 1) mod n) start) as [E|_].
    { exfalso. revert E. apply next_seat_is_not_start; unfold n in *; lia. }
    destruct fuel as [|fuel]; [lia|].
    rewrite Zplus_mod_idemp_l.
    replace (start + Z.of_nat j + 1) with (start + Z.of_nat (S j)) by lia.
    apply IH; lia.
Qed.

(** X13. With [action_position] at a seat and a loop bound of at least the
    number of seats, [get_next_to_act] returns [None] when the betting round
    is complete, and otherwise the first player, from [action_position] on in
    seating order and cyclically, who is neither folded nor all-in and has
    less in than the table's bet; such a player exists.  The table is not
    changed. *)
Theorem get_next_to_act_finds_who_owes (g : GameState.t) (fuel : nat) :
  0 <= action_position g < Z.of_nat (length (players g)) ->
  (length (players g) <= fuel)%nat ->
  (is_betting_round_complete g = true ->
   get_next_to_act fuel g = Done None g) /\
  (is_betting_round_complete g = false ->
   exists d,
     (d < length (players g))%nat /\
     owes_at g (action_position g + Z.of_nat d) = true /\
     (forall k, (k < d)%nat -> owes_at g (action_position g + Z.of_nat k) = false) /\
     get_next_to_act fuel g =
     Done (Some (Z.to_nat ((action_position g + Z.of_nat d)
                           mod Z.of_nat (length (players g))))) g).
Proof.
  intros Hap Hfuel. unfold get_next_to_act, bind, get. split.
  - intros ->. reflexivity.
  - intros Hc. rewrite Hc.
    destruct (round_incomplete_someone_owes g Hc) as (i & p & Hp & Hop).
    assert (i < length (players g))%nat as Hi by now apply lookup_lt_Some in Hp.
    set (n := Z.of_nat (length (players g))) in *.
    destruct (least_true (fun d => owes_at g (action_position g + Z.of_nat d))
                (length (players g))) as (d & Hd & Hfound & Hnone).
    { exists (Z.to_nat ((Z.of_nat i - action_position g) mod n)).
      pose proof (Z.mod_pos_bound (Z.of_nat i - action_position g) n ltac:(lia)).
      split; [unfold n in *; lia|].
      rewrite Z2Nat.id by lia. unfold owes_at. fold n.
      rewrite Zplus_mod_idemp_r.
      replace (action_position g + (Z.of_nat i - action_position g))
        with (Z.of_nat i) by lia.
      rewrite Z.mod_small by (unfold n; lia).
      now rewrite Nat2Z.id, Hp. }
    exists d. split; [exact Hd|]. split; [exact Hfound|]. split; [exact Hnone|].
    pose proof (next_to_act_loop_finds g (action_position g) d Hap Hd Hfound Hnone
                  d 0%nat fuel ltac:(lia) ltac:(lia)) as E.
    replace (action_position g + Z.of_nat 0) with (action_position g) in E by lia.
    rewrite Z.mod_small in E by exact Hap. exact E.
Qed.

Lemma get_next_to_act_finds_who_owes_witness :
  get_next_to_act 3 one_live_table = Done (Some 2%nat) one_live_table.
Proof.
  destruct (get_next_to_act_finds_who_owes one_live_table 3) as [_ H].
  - simpl. lia.
  - simpl. lia.
  - destruct (H eq_refl) as (d & Hd & Hfound & _ & E).
    destruct d as [|[|[|d]]]; [discriminate Hfound|discriminate Hfound|exact E|].
    simpl in Hd. lia.
Defined.

(** ** A betting round that has just been opened *)

Lemma scan_seats_moves_the_action fuel : forall g g',
  scan_seats fuel g = Done tt g' -> exists a, g' = set_action_position a g.
Proof.
  induction fuel as [|fuel IH]; intros g g'; simpl; unfold bind, get, seat_at, mod_seats,
    player_at, on_player, modify.
  all: destruct (_ || _); [discriminate|].
  all: destruct (players g !! _) as [p|] eqn:Hp; [|discriminate]; simpl.
  all: rewrite (list_insert_id _ _ _ Hp), set_players_id.
  all: destruct (folded p || all_in p).
  all: try discriminate.
  all: try (intros [= <-]; exists (action_position g); now destruct g).
  destruct (_ =? 0); [discriminate|].
  intros H. apply IH in H as [a ->]. now exists a.
Qed.

Lemma reset_betting_round_done fuel g g' :
  reset_betting_round fuel g = Done tt g' ->
  exists a, g' = set_action_position a
                   (set_players (Player.set_current_bet 0 <$> players g)
                      (GameState.set_current_bet 0 g)).
Proof.
  destruct (players g) as [|p ps] eqn:Hps.
  - unfold reset_betting_round, bind at 1. simpl.
    unfold bind at 1. rewrite for_each_player_modify.
    unfold bind at 1, get. unfold bind at 1, mod_seats. simpl. rewrite Hps. discriminate.
  - rewrite reset_betting_round_eq by (rewrite Hps; discriminate).
    intros H. apply scan_seats_moves_the_action in H as [a ->].
    exists a. rewrite Hps. reflexivity.
Qed.

Lemma nobody_owes_round_complete g :
  (forall p, p ∈ players g -> Player.current_bet p = GameState.current_bet g) ->
  is_betting_round_complete g = true.
Proof.
  intros H. unfold is_betting_round_complete.
  destruct (_ <=? _)%nat; [reflexivity|].
  apply forallb_forall. intros [i p] Hin.
  apply get_active_players_lookup in Hin as [Hp _]. simpl.
  rewrite (H p) by (eapply list_elem_of_lookup_2; exact Hp).
  rewrite Z.ltb_irrefl. now destruct (all_in p).
Qed.

Lemma deal_phase_ends_in_reset (k : Z) (round : BettingRound) fuel g g' :
  (on_deck Deck.deal_one ;;;
   cards <- on_deck (Deck.deal k) ;;
   extend_community cards ;;;
   modify (set_current_round round) ;;;
   reset_betting_round fuel)%py g = Done tt g' ->
  exists g1, reset_betting_round fuel g1 = Done tt g'.
Proof.
  unfold bind at 1. destruct (on_deck Deck.deal_one g) as [[] g1| |]; try discriminate.
  unfold bind at 1. destruct (on_deck (Deck.deal k) g1) as [cards g2| |]; try discriminate.
  unfold bind at 1, extend_community, modify. unfold bind at 1.
  intros H. eexists. exact H.
Qed.

(** X14. When [reset_betting_round] returns, and so when [deal_flop],
    [deal_turn] or [deal_river] returns, the table's bet and every player's
    bet are 0, [is_betting_round_complete] is already true and
    [get_next_to_act] returns [None]: on a round just opened nobody is asked
    to act, whoever is at the table. *)
Theorem opened_round_has_no_one_to_act (g g' : GameState.t) (fuel : nat) :
  reset_betting_round fuel g = Done tt g' \/
  deal_flop fuel g = Done tt g' \/
  deal_turn fuel g = Done tt g' \/
  deal_river fuel g = Done tt g' ->
  GameState.current_bet g' = 0 /\
  (forall p, p ∈ players g' -> Player.current_bet p = 0) /\
  is_betting_round_complete g' = true /\
  forall fuel', get_next_to_act fuel' g' = Done None g'.
Proof.
  intros H.
  assert (exists g1, reset_betting_round fuel g1 = Done tt g') as [g1 H1].
  { destruct H as [H|[H|[H|H]]].
    - now exists g.
    - exact (deal_phase_ends_in_reset 3 FLOP fuel g g' H).
    - exact (deal_phase_ends_in_reset 1 TURN fuel g g' H).
    - exact (deal_phase_ends_in_reset 1 RIVER fuel g g' H). }
  apply reset_betting_round_done in H1 as [a ->].
  assert (forall p, p ∈ Player.set_current_bet 0 <$> players g1 ->
                    Player.current_bet p = 0) as Hbets.
  { intros p Hp. apply list_elem_of_fmap in Hp as (q & -> & _). reflexivity. }
  assert (is_betting_round_complete
            (set_action_position a
               (set_players (Player.set_current_bet 0 <$> players g1)
                  (GameState.set_current_bet 0 g1))) = true) as Hc
    by (apply nobody_owes_round_complete; exact Hbets).
  split; [reflexivity|]. split; [exact Hbets|]. split; [exact Hc|].
  intros fuel'. unfold get_next_to_act, bind, get. now rewrite Hc.
Qed.

Lemma opened_round_has_no_one_to_act_witness :
  exists g', deal_flop 3 one_live_table = Done tt g' /\
             get_next_to_act 3 g' = Done None g'.
Proof.
  destruct (deal_flop 3 one_live_table) as [[] g'| |] eqn:E.
  - exists g'. split; [reflexivity|].
    apply (opened_round_has_no_one_to_act one_live_table g' 3). right. left. exact E.
  - vm_compute in E. discriminate E.
  - vm_compute in E. discriminate E.
Defined.

(** ** [execute_action], branch by branch *)

Lemma bet_eq amount p :
  bet amount p = Done (Z.min amount (stack p)) (after_bet amount p).
Proof.
  unfold bet, after_bet, commit. destruct (Z.ltb_spec (stack p) amount).
  - rewrite Z.min_r by lia. simpl. now rewrite Z.sub_diag.
  - rewrite Z.min_l by lia. reflexivity.
Qed.

Lemma execute_action_eq g i p action amount :
  players g !! i = Some p ->
  can_act p = true ->
  execute_action i action amount g =
  let seat q table :=
    set_players (<[i := recorded action amount (current_round g) q]> (players g)) table in
  match action with
  | FOLD => Done true (seat (set_folded true p) g)
  | CHECK =>
      if Player.current_bet p <? GameState.current_bet g then Done false g
      else Done true (seat p g)
  | CALL =>
      let owed := GameState.current_bet g - Player.current_bet p in
      if owed <=? 0 then Done false g
      else Done true (seat (after_bet owed p)
                        (set_pot (pot g + Z.min owed (stack p)) g))
  | RAISE =>
      let total_bet := GameState.current_bet g + amount in
      let to_bet := total_bet - Player.current_bet p in
      if stack p <? to_bet then
        Done true (seat (after_bet (stack p) p)
                     (GameState.set_current_bet (Player.current_bet p + stack p)
                        (set_pot (pot g + stack p) g)))
      else
        Done true (seat (commit to_bet p)
                     (GameState.set_current_bet total_bet
                        (set_pot (pot g + to_bet) g)))
  | ALL_IN => Done true (seat p g)
  end.
Proof.
  intros Hp Hact. unfold can_act in Hact. apply negb_true_iff in Hact.
  assert (i < length (players g))%nat as Hi by now apply lookup_lt_Some in Hp.
  unfold execute_action. unfold bind at 1. rewrite (player_at_eq g i p Hp), Hact.
  unfold bind at 1.
  destruct action; simpl.
  - (* FOLD *)
    unfold bind at 1. rewrite (on_player_eq _ g i p Hp). simpl.
    unfold ret, bind, get, on_player, modify. simpl.
    rewrite list_lookup_insert_eq by exact Hi. simpl.
    rewrite list_insert_insert_eq. reflexivity.
  - (* CALL *)
    unfold bind at 1, get. unfold bind at 1. rewrite (player_at_eq g i p Hp).
    destruct (_ <=? 0); [reflexivity|].
    unfold bind at 1. rewrite (on_player_eq _ g i p Hp), bet_eq.
    unfold bind, modify, ret, get, on_player. simpl.
    rewrite list_lookup_insert_eq by exact Hi. simpl.
    rewrite list_insert_insert_eq. reflexivity.
  - (* RAISE *)
    unfold bind at 1, get. unfold bind at 1. rewrite (player_at_eq g i p Hp).
    destruct (Z.ltb_spec (stack p) (GameState.current_bet g + amount - Player.current_bet p)).
    + unfold bind at 1. rewrite (on_player_eq _ g i p Hp), bet_eq.
      unfold bind at 1, modify. unfold bind at 1.
      match goal with
      | |- context [player_at i ?g1] =>
          rewrite (player_at_eq g1 i (after_bet (stack p) p))
            by (simpl; now rewrite list_lookup_insert_eq)
      end.
      unfold bind, ret, get, on_player. simpl.
      rewrite list_lookup_insert_eq by exact Hi. simpl.
      rewrite list_insert_insert_eq, Z.min_id.
      unfold after_bet. rewrite Z.ltb_irrefl. reflexivity.
    + unfold bind at 1. rewrite (on_player_eq _ g i p Hp), bet_eq.
      unfold bind, modify, ret, get, on_player. simpl.
      rewrite list_lookup_insert_eq by exact Hi. simpl.
      rewrite list_insert_insert_eq, Z.min_l by lia.
      unfold after_bet. destruct (Z.ltb_spec (stack p)
        (GameState.current_bet g + amount - Player.current_bet p)); [lia|]. reflexivity.
  - (* CHECK *)
    unfold bind at 1, get. unfold bind at 1. rewrite (player_at_eq g i p Hp).
    destruct (_ <? _); [reflexivity|].
    unfold bind, ret, get, on_player, modify. simpl. rewrite Hp. reflexivity.
  - (* ALL_IN *)
    unfold bind, ret, get, on_player, modify. simpl. rewrite Hp. reflexivity.
Qed.

Lemma execute_action_cannot_act g i p action amount :
  players g !! i = Some p -> can_act p = false ->
  execute_action i action amount g = Done false g.
Proof.
  intros Hp Hact. unfold can_act in Hact. apply negb_false_iff in Hact.
  unfold execute_action, bind. now rewrite (player_at_eq g i p Hp), Hact.
Qed.

(** X15. On a seated player [execute_action] never raises.  It returns
    [True] exactly when the player is neither folded nor all-in and the
    action is a fold, a raise, an all-in, a check with the table's bet not
    above the player's bet, or a call with the table's bet above the
    player's bet; a raise is accepted whatever its amount.  When it returns
    [False] the table is left as it was. *)
Theorem execute_action_accepts (g : GameState.t) (i : nat) (p : Player.t)
    (action : Action) (amount : Z) :
  players g !! i = Some p ->
  exists g',
    execute_action i action amount g = Done (can_act p && accepted g p action) g' /\
    (can_act p && accepted g p action = false -> g' = g).
Proof.
  intros Hp. destruct (can_act p) eqn:Hact.
  - rewrite (execute_action_eq g i p action amount Hp Hact). simpl.
    destruct action; simpl.
    + eexists. split; [reflexivity|discriminate].
    + destruct (Z.leb_spec (GameState.current_bet g - Player.current_bet p) 0);
        destruct (Z.ltb_spec (Player.current_bet p) (GameState.current_bet g)); try lia.
      * eexists. split; [reflexivity|reflexivity].
      * eexists. split; [reflexivity|discriminate].
    + destruct (_ <? _); eexists; (split; [reflexivity|discriminate]).
    + rewrite Z.leb_antisym.
      destruct (_ <? _); simpl; eexists; (split; [reflexivity|]);
        [reflexivity|discriminate].
    + eexists. split; [reflexivity|discriminate].
  - exists g. split; [|reflexivity].
    exact (execute_action_cannot_act g i p action amount Hp Hact).
Qed.

Lemma execute_action_accepts_witness :
  exists g',
    execute_action 0 RAISE (-30) short_stack_table = Done true g' /\
    execute_action 0 CHECK 0 short_stack_table = Done false short_stack_table.
Proof.
  destruct (execute_action_accepts short_stack_table 0 (Player.new "hero" 50) RAISE (-30)
              eq_refl) as (g' & E & _).
  destruct (execute_action_accepts short_stack_table 0 (Player.new "hero" 50) CHECK 0
              eq_refl) as (g'' & E' & Hsame).
  exists g'. split; [exact E|].
  rewrite <- (Hsame eq_refl) at 2. exact E'.
Defined.

(** X16. A raise by a player who can act and whose stack covers it is
    accepted whatever the amount, zero and negative amounts included: the
    table's bet becomes the old bet plus the amount, the player's bet
    becomes the table's bet, and the difference to the player's old bet moves
    from the stack to the pot (out of the pot when it is negative).  The
    [all_in] flag stays unset, also when the stack reaches 0. *)
Theorem raise_within_stack_sets_the_bet (g : GameState.t) (i : nat) (p : Player.t)
    (amount : Z) :
  players g !! i = Some p ->
  can_act p = true ->
  GameState.current_bet g + amount - Player.current_bet p <= stack p ->
  exists g' p',
    execute_action i RAISE amount g = Done true g' /\
    players g' = <[i := p']> (players g) /\
    GameState.current_bet g' = GameState.current_bet g + amount /\
    Player.current_bet p' = GameState.current_bet g + amount /\
    stack p' = stack p - (GameState.current_bet g + amount - Player.current_bet p) /\
    pot g' = pot g + (GameState.current_bet g + amount - Player.current_bet p) /\
    all_in p' = false /\ folded p' = false.
Proof.
  intros Hp Hact Hcover.
  rewrite (execute_action_eq g i p RAISE amount Hp Hact). simpl.
  destruct (Z.ltb_spec (stack p) (GameState.current_bet g + amount - Player.current_bet p));
    [lia|].
  unfold can_act in Hact. apply negb_true_iff, orb_false_iff in Hact as [Hf Ha].
  eexists. eexists. split; [reflexivity|]. simpl.
  repeat split; try assumption. simpl. lia.
Qed.

Lemma raise_within_stack_sets_the_bet_witness :
  exists g' p',
    execute_action 0 RAISE (-30) short_stack_table = Done true g' /\
    players g' !! 0%nat = Some p' /\
    GameState.current_bet g' = -10 /\ Player.current_bet p' = -10 /\
    stack p' = 60 /\ pot g' = 20.
Proof.
  destruct (raise_within_stack_sets_the_bet short_stack_table 0 (Player.new "hero" 50) (-30))
    as (g' & p' & E & Hps & Hbet & Hpbet & Hstack & Hpot & _).
  - reflexivity.
  - reflexivity.
  - simpl. lia.
  - exists g', p'. split; [exact E|]. rewrite Hps. split; [reflexivity|].
    split; [exact Hbet|]. split; [exact Hpbet|]. split; [exact Hstack|exact Hpot].
Defined.

(** X17. A call by a player who can act and has less in than the table's
    bet is accepted; the amount passed is not used for the chips.  The player
    pays the smaller of what is owed and the stack, from the stack into the
    player's bet and the pot; the table's bet stays.  The [all_in] flag is set
    exactly when the stack is smaller than what is owed, so not by a call for
    exactly the whole stack. *)
Theorem call_pays_what_is_owed (g : GameState.t) (i : nat) (p : Player.t) (amount : Z) :
  players g !! i = Some p ->
  can_act p = true ->
  Player.current_bet p < GameState.current_bet g ->
  let owed := GameState.current_bet g - Player.current_bet p in
  let paid := Z.min owed (stack p) in
  exists g' p',
    execute_action i CALL amount g = Done true g' /\
    players g' = <[i := p']> (players g) /\
    stack p' = stack p - paid /\
    Player.current_bet p' = Player.current_bet p + paid /\
    pot g' = pot g + paid /\
    GameState.current_bet g' = GameState.current_bet g /\
    (all_in p' = true <-> stack p < owed) /\
    folded p' = false.
Proof.
  intros Hp Hact Howes owed paid.
  rewrite (execute_action_eq g i p CALL amount Hp Hact). simpl. fold owed.
  destruct (Z.leb_spec owed 0); [unfold owed in *; lia|].
  unfold can_act in Hact. apply negb_true_iff, orb_false_iff in Hact as [Hf Ha].
  eexists. eexists. split; [reflexivity|]. simpl.
  split; [reflexivity|]. unfold after_bet, paid.
  destruct (Z.ltb_spec (stack p) owed); simpl.
  - rewrite Z.min_r by lia. repeat split; auto; lia.
  - rewrite Z.min_l by lia. repeat split; auto; try lia. congruence.
Qed.

Lemma call_pays_what_is_owed_witness :
  exists g' p',
    execute_action 0 CALL 0 big_bet_table = Done true g' /\
    players g' !! 0%nat = Some p' /\
    stack p' = 0 /\ Player.current_bet p' = 50 /\ pot g' = 180 /\
    GameState.current_bet g' = 120 /\ all_in p' = true.
Proof.
  destruct (call_pays_what_is_owed big_bet_table 0 (Player.new "hero" 50) 0)
    as (g' & p' & E & Hps & Hstack & Hbet & Hpot & Htable & Hall & _).
  - reflexivity.
  - reflexivity.
  - simpl. lia.
  - exists g', p'. split; [exact E|]. rewrite Hps. split; [reflexivity|].
    split; [exact Hstack|]. split; [exact Hbet|]. split; [exact Hpot|].
    split; [exact Htable|]. apply Hall. simpl. lia.
Defined.

(** X18. Whatever the action and the amount, [execute_action] on a seated
    player changes nothing but that player, the pot and the table's bet: the
    other seats, the deck, the board, the round, the dealer and the action
    position stay (the action is not moved on).  The player keeps name and
    hole cards; chips only move between the player's stack and the player's
    bet, and the pot grows by what the stack loses; a stack that was not
    negative is not negative afterwards; the [all_in] flag is never cleared
    and [folded] is set exactly by an accepted fold. *)
Theorem execute_action_touches_one_seat (g : GameState.t) (i : nat) (p : Player.t)
    (action : Action) (amount : Z) :
  players g !! i = Some p ->
  exists b g' p',
    execute_action i action amount g = Done b g' /\
    g' = GameState.set_current_bet (GameState.current_bet g')
           (set_pot (pot g') (set_players (<[i := p']> (players g)) g)) /\
    name p' = name p /\ hole_cards p' = hole_cards p /\
    stack p' + Player.current_bet p' = stack p + Player.current_bet p /\
    pot g' - pot g = stack p - stack p' /\
    (0 <= stack p -> 0 <= stack p') /\
    (all_in p = true -> all_in p' = true) /\
    (folded p' = true <-> folded p = true \/ (action = FOLD /\ all_in p = false)).
Proof.
  intros Hp. destruct (can_act p) eqn:Hact.
  - rewrite (execute_action_eq g i p action amount Hp Hact). simpl.
    unfold can_act in Hact. apply negb_true_iff, orb_false_iff in Hact as [Hf Ha].
    destruct action; simpl.
    + do 3 eexists. split; [reflexivity|]. split; [reflexivity|]. seat_facts.
    + destruct (Z.leb_spec (GameState.current_bet g - Player.current_bet p) 0).
      * exists false, g, p. split; [reflexivity|].
        rewrite (list_insert_id _ _ _ Hp). split; [now destruct g|]. seat_facts.
      * do 3 eexists. split; [reflexivity|]. split; [reflexivity|].
        unfold after_bet.
        destruct (Z.ltb_spec (stack p)
                    (GameState.current_bet g - Player.current_bet p)); seat_facts.
    + destruct (Z.ltb_spec (stack p)
                  (GameState.current_bet g + amount - Player.current_bet p)).
      * do 3 eexists. split; [reflexivity|]. split; [reflexivity|].
        unfold after_bet. rewrite Z.ltb_irrefl. seat_facts.
      * do 3 eexists. split; [reflexivity|]. split; [reflexivity|]. seat_facts.
    + destruct (Z.ltb_spec (Player.current_bet p) (GameState.current_bet g)).
      * exists false, g, p. split; [reflexivity|].
        rewrite (list_insert_id _ _ _ Hp). split; [now destruct g|]. seat_facts.
      * do 3 eexists. split; [reflexivity|]. split; [now destruct g|]. seat_facts.
    + do 3 eexists. split; [reflexivity|]. split; [now destruct g|]. seat_facts.
  - rewrite (execute_action_cannot_act g i p action amount Hp Hact).
    exists false, g, p. split; [reflexivity|].
    rewrite (list_insert_id _ _ _ Hp).
    split; [now destruct g|].
    repeat split; auto; try lia.
    intros [H|[_ Ha]]; [exact H|].
    unfold can_act in Hact. rewrite Ha, orb_false_r in Hact.
    now apply negb_false_iff in Hact.
Qed.

Lemma execute_action_touches_one_seat_witness :
  exists b g',
    execute_action 0 RAISE 100 short_stack_table = Done b g' /\
    action_position g' = 0 /\ deck g' = fresh_cards /\
    players g' !! 1%nat = Some (Player.new "villain" 1000).
Proof.
  destruct (execute_action_touches_one_seat short_stack_table 0 (Player.new "hero" 50)
              RAISE 100 eq_refl) as (b & g' & p' & E & Hshape & _).
  exists b, g'. split; [exact E|]. rewrite Hshape. repeat split.
Defined.

(** ** The action history *)

Lemma execute_action_history g i p action amount g' :
  players g !! i = Some p ->
  execute_action i action amount g = Done true g' ->
  current_round g' = current_round g /\
  exists p',
    players g' = <[i := p']> (players g) /\
    action_history p' =
    add_action action amount (value (current_round g)) (action_history p).
Proof.
  intros Hp. destruct (can_act p) eqn:Hact.
  - rewrite (execute_action_eq g i p action amount Hp Hact). simpl.
    destruct action; simpl; unfold after_bet.
    all: repeat match goal with |- context [if ?c then _ else _] => destruct c end.
    all: intros [= <-]; (split; [reflexivity|]); eexists; (split; [reflexivity|]);
      reflexivity.
  - rewrite (execute_action_cannot_act g i p action amount Hp Hact). discriminate.
Qed.

Lemma run_actions_history acts : forall g g' i p,
  run_actions acts g = Some g' ->
  players g !! i = Some p ->
  exists p',
    players g' !! i = Some p' /\
    actions (action_history p') = actions (action_history p) ++ actions_of i acts /\
    bets (action_history p') = bets (action_history p) ++ map snd (actions_of i acts).
Proof.
  induction acts as [|[[j action] amount] acts IH]; intros g g' i p Hrun Hp; simpl in Hrun.
  - inversion Hrun; subst. exists p. unfold actions_of. simpl.
    now rewrite !app_nil_r.
  - destruct (execute_action j action amount g) as [[] g1| |] eqn:E; try discriminate.
    destruct (players g !! j) as [q|] eqn:Hq;
      [|rewrite (execute_action_unseated g j action amount Hq) in E; discriminate].
    destruct (execute_action_history g j q action amount g1 Hq E) as (_ & q' & Hps & Hh).
    assert (j < length (players g))%nat as Hj by now apply lookup_lt_Some in Hq.
    unfold actions_of. simpl. destruct (Nat.eqb_spec j i) as [->|Hne].
    + assert (q = p) as -> by congruence.
      destruct (IH g1 g' i q' Hrun) as (p' & Hp' & Ha & Hb).
      { rewrite Hps. now apply list_lookup_insert_eq. }
      exists p'. split; [exact Hp'|]. rewrite Ha, Hb, Hh. simpl.
      now rewrite <- !app_assoc.
    + destruct (IH g1 g' i p Hrun) as (p' & Hp' & Ha & Hb).
      { rewrite Hps. now rewrite list_lookup_insert_ne. }
      exists p'. auto.
Qed.

Lemma post_blinds_histories g g' :
  post_blinds g = Done tt g' ->
  action_history <$> players g' = action_history <$> players g.
Proof.
  destruct (decide (players g = [])) as [Hps|Hps].
  - unfold post_blinds, bind, get, mod_seats. rewrite Hps. discriminate.
  - destruct (post_blinds_eq g Hps) as (p & q & Hp & Hq & E).
    rewrite E. intros [= <-]. simpl.
    match type of Hq with
    | ?ps1 !! _ = _ =>
        assert (action_history <$> ps1 = action_history <$> players g) as H1
          by (rewrite list_fmap_insert; apply list_insert_id;
              rewrite list_lookup_fmap, Hp; reflexivity)
    end.
    rewrite list_fmap_insert, H1. apply list_insert_id.
    rewrite <- H1, list_lookup_fmap, Hq. reflexivity.
Qed.

Lemma start_new_hand_histories shuffle g g0 :
  start_new_hand shuffle g = Done tt g0 ->
  Forall (fun p => actions (action_history p) = [] /\ bets (action_history p) = [])
    (players g0).
Proof.
  unfold start_new_hand.
  do 7 (unfold bind at 1; simpl).
  unfold bind at 1. rewrite reset_all_players_eq. simpl.
  unfold bind at 1.
  match goal with
  | |- context [deal_hole_cards ?gB] =>
      destruct (deal_hole_cards gB) as [[] g2|e g2|] eqn:Hdeal; try discriminate
  end.
  intros Hpost.
  destruct (deal_hole_cards_chips action_history (fun _ _ => eq_refl) _ _ Hdeal)
    as [_ Hh].
  apply post_blinds_histories in Hpost. rewrite Hh in Hpost. simpl in Hpost.
  rewrite <- list_fmap_compose in Hpost.
  apply List.Forall_forall. intros p Hin.
  apply list_elem_of_In, list_elem_of_lookup_1 in Hin as [j Hj].
  assert ((action_history <$> players g0) !! j = Some (action_history p)) as Hj'
    by (rewrite list_lookup_fmap, Hj; reflexivity).
  rewrite Hpost, list_lookup_fmap in Hj'.
  destruct (players g !! j) as [q|]; [|discriminate].
  simpl in Hj'. inversion Hj' as [Heq]. split; reflexivity.
Qed.

(** X19. After [start_new_hand] and a sequence of accepted calls of
    [execute_action], the history of each player lists exactly that player's
    actions of the sequence, in order and with the amounts as they were
    passed, and [get_total_invested] is the sum of those amounts: the blinds
    are not in it, and a call counts with the amount passed, not with the
    chips it moved. *)
Theorem history_lists_the_amounts_passed (shuffle : list Card -> list Card)
    (g g0 g' : GameState.t) (acts : list (nat * Action * Z)) (i : nat) (p' : Player.t) :
  start_new_hand shuffle g = Done tt g0 ->
  run_actions acts g0 = Some g' ->
  players g' !! i = Some p' ->
  actions (action_history p') = actions_of i acts /\
  bets (action_history p') = map snd (actions_of i acts) /\
  get_total_invested (action_history p') =
    fold_right Z.add 0 (map snd (actions_of i acts)).
Proof.
  intros Hstart Hrun Hp'.
  pose proof (start_new_hand_histories shuffle g g0 Hstart) as Hclear.
  destruct (run_actions_invariant acts g0 g' Hrun) as (Hlen & _).
  destruct (lookup_lt_is_Some_2 (players g0) i) as [p Hp].
  { rewrite <- Hlen. now apply lookup_lt_Some in Hp'. }
  destruct (run_actions_history acts g0 g' i p Hrun Hp) as (p'' & Hp'' & Ha & Hb).
  assert (p'' = p') as -> by congruence.
  rewrite List.Forall_forall in Hclear.
  destruct (Hclear p) as [Ha0 Hb0];
    [apply list_elem_of_In; eapply list_elem_of_lookup_2; exact Hp|].
  rewrite Ha0 in Ha. rewrite Hb0 in Hb. simpl in Ha, Hb.
  unfold get_total_invested. rewrite Hb. auto.
Qed.

Lemma history_lists_the_amounts_passed_witness :
  exists p',
    players after_three_actions !! 1%nat = Some p' /\
    actions (action_history p') = [(CALL, 0)] /\
    get_total_invested (action_history p') = 0 /\
    Player.current_bet p' = 120.
Proof.
  assert (start_new_hand (fun cards => cards) full_stack_table = Done tt first_hand)
    as Hstart by (vm_compute; reflexivity).
  assert (run_actions three_actions first_hand = Some after_three_actions)
    as Hrun by (vm_compute; reflexivity).
  destruct (players after_three_actions !! 1%nat) as [p'|] eqn:Hp';
    [|vm_compute in Hp'; discriminate Hp'].
  exists p'. split; [reflexivity|].
  destruct (history_lists_the_amounts_passed _ _ _ _ _ 1 p' Hstart Hrun Hp')
    as (Ha & _ & Ht).
  split; [exact Ha|]. split; [exact Ht|].
  vm_compute in Hp'. injection Hp' as <-. reflexivity.
Defined.

(** ** Cards, chips and names *)

Lemma numeric_value_inj (r1 r2 : Rank) :
  numeric_value r1 = numeric_value r2 -> r1 = r2.
Proof. destruct r1, r2; simpl; intros H; try reflexivity; discriminate H. Qed.

(** X20. The four comparisons of [Card] order cards by rank alone: [<] is
    irreflexive and transitive, [>] and [>=] are [<] and [<=] with the
    operands swapped, [<=] is the negation of the swapped [<], and two cards
    are [<=] both ways exactly when their ranks agree.  The order is not
    antisymmetric: every card has a different card that is [<=] it both
    ways. *)
Theorem card_comparisons_order_by_rank (a b c : Card) :
  card_lt a a = false /\
  (card_lt a b = true -> card_lt b c = true -> card_lt a c = true) /\
  card_gt a b = card_lt b a /\
  card_ge a b = card_le b a /\
  card_le a b = negb (card_lt b a) /\
  (card_le a b = true /\ card_le b a = true <-> rank a = rank b) /\
  exists a', a' <> a /\ card_le a a' = true /\ card_le a' a = true.
Proof.
  unfold card_lt, card_le, card_gt, card_ge.
  split; [apply Z.ltb_irrefl|].
  split; [rewrite !Z.ltb_lt; lia|].
  split; [reflexivity|]. split; [reflexivity|].
  split; [apply Z.leb_antisym|].
  split.
  - rewrite !Z.leb_le. split.
    + intros [? ?]. apply numeric_value_inj. lia.
    + intros ->. lia.
  - exists (mkCard (rank a) (match suit a with SPADES => HEARTS | _ => SPADES end)).
    simpl. rewrite Z.leb_refl. split; [|auto].
    destruct a as [r []]; simpl; discriminate.
Qed.

Lemma card_comparisons_order_by_rank_witness :
  card_lt (mkCard TWO SPADES) (mkCard ACE HEARTS) = true.
Proof.
  destruct (card_comparisons_order_by_rank (mkCard TWO SPADES) (mkCard KING CLUBS)
              (mkCard ACE HEARTS)) as (_ & Htrans & _).
  apply Htrans; reflexivity.
Defined.

(** X21. For a player who is neither folded nor all-in, [can_bet] tells what
    [bet] will do: [bet] pays the smaller of the amount and the stack, and
    [can_bet] is true exactly when it pays the amount in full, which is
    exactly when it leaves [all_in] unset; then the stack left is not
    negative.  A bet of the whole stack is such a bet. *)
Theorem can_bet_tells_a_full_bet (amount : Z) (p : Player.t) :
  folded p = false -> all_in p = false ->
  exists p',
    bet amount p = Done (Z.min amount (stack p)) p' /\
    stack p' = stack p - Z.min amount (stack p) /\
    Player.current_bet p' = Player.current_bet p + Z.min amount (stack p) /\
    (can_bet amount p = true <-> Z.min amount (stack p) = amount) /\
    (can_bet amount p = true <-> all_in p' = false) /\
    (can_bet amount p = true -> 0 <= stack p') /\
    can_bet (stack p) p = true.
Proof.
  intros Hf Ha. exists (after_bet amount p). split; [apply bet_eq|].
  unfold can_bet, after_bet, commit. rewrite Hf, Ha, !andb_true_r. rewrite !Z.leb_le.
  destruct (Z.ltb_spec (stack p) amount); simpl.
  - rewrite Z.min_r by lia. repeat split; try lia; try discriminate.
  - rewrite Z.min_l by lia. repeat split; try lia; auto.
Qed.

Lemma can_bet_tells_a_full_bet_witness :
  exists p',
    bet 50 (Player.new "hero" 50) = Done 50 p' /\ stack p' = 0 /\ all_in p' = false.
Proof.
  destruct (can_bet_tells_a_full_bet 50 (Player.new "hero" 50) eq_refl eq_refl)
    as (p' & E & Hs & _ & _ & Hall & _ & _).
  exists p'. split; [exact E|]. split; [exact Hs|]. apply Hall. reflexivity.
Defined.

Lemma fold_stacks_lookup (nm : string) (ps : list Player.t) : forall sizes : gmap string Z,
  fold_left (fun sizes player => <[name player := stack player]> sizes) ps sizes !! nm =
  match last (List.filter (fun p => bool_decide (name p = nm)) ps) with
  | Some p => Some (stack p)
  | None => sizes !! nm
  end.
Proof.
  induction ps as [|p ps IH]; intros sizes; [reflexivity|].
  cbn [fold_left List.filter]. rewrite IH.
  destruct (bool_decide_reflect (name p = nm)) as [E|E].
  - rewrite last_cons. destruct (last _); [reflexivity|].
    now rewrite <- E, lookup_insert_eq.
  - destruct (last _); [reflexivity|]. now rewrite lookup_insert_ne.
Qed.

Lemma last_of_a_unique_name (ps : list Player.t) : forall i p,
  NoDup (name <$> ps) -> ps !! i = Some p ->
  last (List.filter (fun q => bool_decide (name q = name p)) ps) = Some p.
Proof.
  induction ps as [|q ps IH]; intros i p Hnd Hp; [discriminate|].
  simpl in Hnd. apply NoDup_cons in Hnd as [Hq Hnd].
  assert (forall r, r ∈ ps -> name r <> name q) as Hother.
  { intros r Hr E. apply Hq. rewrite <- E. apply list_elem_of_fmap. eauto. }
  destruct i as [|i]; simpl in Hp; cbn [List.filter].
  - inversion Hp; subst. rewrite bool_decide_eq_true_2 by reflexivity.
    assert (List.filter (fun q => bool_decide (name q = name p)) ps = []) as ->; [|reflexivity].
    clear -Hother. induction ps as [|r ps IH]; [reflexivity|]. cbn [List.filter].
    rewrite bool_decide_eq_false_2 by (apply Hother; left).
    apply IH. intros r' Hr'. apply Hother. now right.
  - rewrite bool_decide_eq_false_2.
    + exact (IH i p Hnd Hp).
    + intros E. apply (Hother p); [eapply list_elem_of_lookup_2; exact Hp|]. now symmetry.
Qed.

(** X22. [get_effective_stack_sizes] maps a name to the stack of the last
    player of that name in seating order, and holds no other name; players
    who share a name share one entry.  When the names at the table are all
    different, every player's stack is found under the player's name. *)
Theorem effective_stacks_are_by_name (g : GameState.t) :
  (forall nm,
     get_effective_stack_sizes g !! nm =
     stack <$> last (List.filter (fun p => bool_decide (name p = nm)) (players g))) /\
  (NoDup (name <$> players g) ->
   forall i p, players g !! i = Some p ->
               get_effective_stack_sizes g !! name p = Some (stack p)).
Proof.
  assert (forall nm,
     get_effective_stack_sizes g !! nm =
     stack <$> last (List.filter (fun p => bool_decide (name p = nm)) (players g))) as H.
  { intros nm. unfold get_effective_stack_sizes. rewrite fold_stacks_lookup.
    destruct (last _); reflexivity. }
  split; [exact H|].
  intros Hnd i p Hp. rewrite H, (last_of_a_unique_name _ i p Hnd Hp). reflexivity.
Qed.

Lemma effective_stacks_are_by_name_witness :
  get_effective_stack_sizes short_stack_table !! "hero" = Some 50 /\
  get_effective_stack_sizes (table_of 3) !! "p" = Some 1000 /\
  get_effective_stack_sizes (table_of 3) !! "q" = None.
Proof.
  destruct (effective_stacks_are_by_name short_stack_table) as [_ Hnames].
  destruct (effective_stacks_are_by_name (table_of 3)) as [Hlast _].
  split.
  - assert (NoDup (name <$> players short_stack_table)) as Hnd.
    { apply NoDup_cons. split; [|apply NoDup_singleton].
      intros H. apply list_elem_of_singleton in H. discriminate H. }
    exact (Hnames Hnd 0%nat (Player.new "hero" 50) eq_refl).
  - split; [rewrite (Hlast "p")|rewrite (Hlast "q")]; reflexivity.
Defined.

(** ** The dealer button *)

Lemma advance_dealer_eq g :
  players g <> [] ->
  advance_dealer g =
  Done tt (set_dealer_position
             ((dealer_position g + 1) mod Z.of_nat (length (players g))) g).
Proof.
  intros Hne. unfold advance_dealer, bind, get.
  now rewrite (mod_seats_eq _ g Hne).
Qed.

(** X23. At a table with a seat and the dealer at one of the seats, [k]
    calls of [advance_dealer] move the button [k] seats on, cyclically, and
    change nothing else; as many calls as there are seats bring the table
    back as it was. *)
Theorem advance_dealer_goes_round (g : GameState.t) (k : nat) :
  0 <= dealer_position g < Z.of_nat (length (players g)) ->
  advance_dealer_times k g =
    Done tt (set_dealer_position
               ((dealer_position g + Z.of_nat k) mod Z.of_nat (length (players g))) g) /\
  advance_dealer_times (length (players g)) g = Done tt g.
Proof.
  intros Hd.
  assert (forall k g, 0 <= dealer_position g < Z.of_nat (length (players g)) ->
            advance_dealer_times k g =
            Done tt (set_dealer_position
                       ((dealer_position g + Z.of_nat k) mod Z.of_nat (length (players g)))
                       g)) as H.
  { clear. induction k as [|k IH]; intros g Hd.
    - simpl. unfold ret. rewrite Z.add_0_r, Z.mod_small by exact Hd. now destruct g.
    - assert (players g <> []) as Hne by (intros E; rewrite E in Hd; simpl in Hd; lia).
      cbn [advance_dealer_times]. unfold bind. rewrite (advance_dealer_eq g Hne).
      rewrite IH by (simpl; apply Z.mod_pos_bound; lia). simpl.
      rewrite Zplus_mod_idemp_l.
      replace (dealer_position g + 1 + Z.of_nat k)
        with (dealer_position g + Z.of_nat (S k)) by lia.
      reflexivity. }
  split; [exact (H k g Hd)|].
  rewrite (H _ g Hd).
  replace (dealer_position g + Z.of_nat (length (players g)))
    with (dealer_position g + 1 * Z.of_nat (length (players g))) by lia.
  rewrite Z_mod_plus_full, Z.mod_small by exact Hd. now destruct g.
Qed.

Lemma advance_dealer_goes_round_witness :
  advance_dealer_times 3 full_stack_table = Done tt full_stack_table /\
  advance_dealer_times 2 full_stack_table =
    Done tt (set_dealer_position 2 full_stack_table).
Proof.
  assert (0 <= dealer_position full_stack_table
          < Z.of_nat (length (players full_stack_table))) as Hd by (simpl; lia).
  split.
  - exact (proj2 (advance_dealer_goes_round full_stack_table 0 Hd)).
  - exact (proj1 (advance_dealer_goes_round full_stack_table 2 Hd)).
Defined.

(** ** A showdown that cannot be held *)

Lemma evaluate_players_short community active :
  Exists (fun ip => (length (hole_cards (snd ip) ++ community) < 5)%nat) active ->
  evaluate_players community active = Err (ValueError NeedFiveCards).
Proof.
  induction 1 as [[i p] rest Hshort|[i p] rest _ IH]; simpl.
  - unfold evaluate_hand. simpl in Hshort.
    destruct (Nat.ltb_spec (length (hole_cards p ++ community)) 5); [reflexivity|lia].
  - destruct (Nat.lt_ge_cases (length (hole_cards p ++ community)) 5) as [Hs|Hs].
    + unfold evaluate_hand.
      destruct (Nat.ltb_spec (length (hole_cards p ++ community)) 5); [reflexivity|lia].
    + destruct (evaluate_hand_maximum _ Hs) as (best & Hbest & _).
      rewrite Hbest. simpl. now rewrite IH.
Qed.

(** X24. [determine_winners] raises [IndexError] when every player has
    folded, and the [ValueError] of [evaluate_hand] when two or more players
    are left and one of them has fewer than five cards with the board, as at
    any showdown before the flop. *)
Theorem showdown_needs_players_and_cards (g : GameState.t) :
  (get_active_players g = [] -> determine_winners g = Err IndexError) /\
  ((2 <= length (get_active_players g))%nat ->
   Exists (fun ip => (length (hole_cards (snd ip) ++ community_cards g) < 5)%nat)
     (get_active_players g) ->
   determine_winners g = Err (ValueError NeedFiveCards)).
Proof.
  unfold determine_winners. split.
  - intros ->. reflexivity.
  - intros Hlen Hshort.
    rewrite (evaluate_players_short _ _ Hshort).
    destruct (get_active_players g) as [|[i p] [|y rest]]; simpl in Hlen; try lia.
    reflexivity.
Qed.

Lemma showdown_needs_players_and_cards_witness :
  determine_winners first_hand = Err (ValueError NeedFiveCards) /\
  determine_winners no_live_table = Ok [(0%nat, 30)].
Proof.
  split; [|reflexivity].
  apply (proj2 (showdown_needs_players_and_cards first_hand)).
  - vm_compute. lia.
  - apply Exists_cons_hd. vm_compute. lia.
Defined.

(** ** The logs of an action history *)

Lemma new_history_rounds (r : string) :
  round_actions new_history !! r =
  if bool_decide (r ∈ round_names) then Some [] else None.
Proof.
  unfold new_history, round_names. simpl.
  destruct (decide (r = "preflop")) as [->|H1]; [reflexivity|].
  rewrite lookup_insert_ne by congruence.
  destruct (decide (r = "flop")) as [->|H2]; [reflexivity|].
  rewrite lookup_insert_ne by congruence.
  destruct (decide (r = "turn")) as [->|H3]; [reflexivity|].
  rewrite lookup_insert_ne by congruence.
  destruct (decide (r = "river")) as [->|H4]; [reflexivity|].
  rewrite lookup_insert_ne by congruence.
  rewrite bool_decide_eq_false_2; [reflexivity|].
  rewrite !elem_of_cons, elem_of_nil. tauto.
Qed.

(** X25. However an [ActionHistory] is used after its creation, [actions]
    holds the actions added since the last [clear], [bets] their amounts, and
    [round_actions] keeps exactly the four round names as keys, each with the
    actions added under that name since the last [clear].  An action added
    under any other name, the default empty name included, is in [actions]
    and [bets] and in no round's log. *)
Theorem history_logs_by_round (ops : list history_op) :
  actions (run_history ops) = log_since_clear (fun _ => true) ops /\
  bets (run_history ops) = map snd (actions (run_history ops)) /\
  forall r,
    round_actions (run_history ops) !! r =
    if bool_decide (r ∈ round_names)
    then Some (log_since_clear (fun round_name => bool_decide (round_name = r)) ops)
    else None.
Proof.
  induction ops as [|op ops (Ha & Hb & Hr)] using rev_ind.
  - split; [reflexivity|]. split; [reflexivity|]. intros r.
    change (run_history []) with new_history.
    rewrite (new_history_rounds r). reflexivity.
  - unfold run_history, log_since_clear in *. rewrite !fold_left_app. cbn [fold_left].
    destruct op as [action amount round_name|]; cbn [apply_op].
    + split; [simpl; now rewrite Ha|].
      split; [simpl; now rewrite Hb, map_app|].
      intros r. rewrite fold_left_app. simpl. rewrite (Hr round_name).
      destruct (bool_decide_reflect (round_name ∈ round_names)) as [Hin|Hout].
      * destruct (bool_decide_reflect (round_name = r)) as [->|Hne].
        -- rewrite lookup_insert_eq. now rewrite bool_decide_eq_true_2 by exact Hin.
        -- rewrite lookup_insert_ne by exact Hne. apply Hr.
      * rewrite Hr. destruct (bool_decide_reflect (r ∈ round_names)) as [Hin|_];
          [|reflexivity].
        rewrite bool_decide_eq_false_2; [reflexivity|]. congruence.
    + split; [reflexivity|]. split; [reflexivity|].
      intros r. rewrite fold_left_app. simpl. rewrite lookup_fmap, Hr.
      now destruct (bool_decide (r ∈ round_names)).
Qed.

(** ** The category of a five-card hand *)

Lemma classify_selects values cs fl st h :
  classify values cs fl st = Ok h ->
  hand_rank h =
  selected fl st (royal_test values) (has_count 4 cs) (has_count 3 cs) (has_count 2 cs)
    (length (values_with_count 2 cs)).
Proof.
  unfold classify, selected, royal_test.
  destruct (fl && st) eqn:Hfs.
  - destruct (py_max values) as [hi|]; [|discriminate]. cbn [rbind].
    destruct (hi =? 14).
    + destruct (py_min values) as [lo|]; [|discriminate]. cbn [rbind andb].
      destruct (lo =? 10).
      * intros [= <-]. reflexivity.
      * destruct (get_straight_high_card values); [|discriminate].
        intros [= <-]. reflexivity.
    + cbn [rbind andb]. destruct (get_straight_high_card values); [|discriminate].
      destruct (py_min values); intros [= <-]; reflexivity.
  - cbn [rbind].
    repeat match goal with
           | |- context [if ?b then _ else _] => destruct b
           | |- context [rbind ?m _] => destruct m; cbn [rbind]
           end.
    all: try discriminate.
    all: intros [= <-]; reflexivity.
Qed.

Lemma counter_add_keys v cs :
  map fst (counter_add v cs) =
  if bool_decide (v ∈ map fst cs) then map fst cs else map fst cs ++ [v].
Proof.
  induction cs as [|[k c] t IH]; simpl; [reflexivity|].
  destruct (Z.eqb_spec k v) as [->|Hne]; simpl.
  - rewrite bool_decide_eq_true_2 by left. reflexivity.
  - rewrite IH. destruct (bool_decide_reflect (v ∈ map fst t)) as [Hin|Hout].
    + rewrite bool_decide_eq_true_2 by now right. reflexivity.
    + rewrite bool_decide_eq_false_2; [reflexivity|].
      rewrite elem_of_cons. intros [E|E]; [congruence|contradiction].
Qed.

Lemma Counter_keys_NoDup l : NoDup (map fst (Counter l)).
Proof.
  unfold Counter.
  assert (forall cs, NoDup (map fst cs) ->
            NoDup (map fst (fold_left (fun cs v => counter_add v cs) l cs))) as H.
  { induction l as [|x t IH]; intros cs Hcs; simpl; [exact Hcs|].
    apply IH. rewrite counter_add_keys.
    destruct (bool_decide_reflect (x ∈ map fst cs)) as [Hin|Hout]; [exact Hcs|].
    apply NoDup_app. split; [exact Hcs|]. split; [|apply NoDup_singleton].
    intros y Hy Hy'. apply list_elem_of_singleton in Hy'. congruence. }
  apply H. constructor.
Qed.

Lemma occurrences_replicate (c : nat) (k v : Z) :
  occurrences (replicate c k) v = if bool_decide (k = v) then c else 0%nat.
Proof.
  unfold occurrences. induction c as [|c IH]; simpl.
  - now destruct (bool_decide (k = v)).
  - rewrite IH. destruct (Z.eq_dec k v) as [E|E].
    + now rewrite bool_decide_eq_true_2.
    + now rewrite bool_decide_eq_false_2.
Qed.

Lemma occurrences_expand_absent cs v :
  v ∉ map fst cs -> occurrences (expand cs) v = 0%nat.
Proof.
  induction cs as [|[k c] t IH]; intros Hv; [reflexivity|].
  unfold expand, occurrences in *. simpl in *. rewrite count_occ_app.
  apply not_elem_of_cons in Hv as [Hne Hv].
  fold (occurrences (replicate c k) v). rewrite occurrences_replicate.
  rewrite bool_decide_eq_false_2 by congruence. now rewrite IH.
Qed.

Lemma occurrences_expand cs v c :
  NoDup (map fst cs) -> In (v, c) cs -> occurrences (expand cs) v = c.
Proof.
  induction cs as [|[k c'] t IH]; intros Hnd Hin; [destruct Hin|].
  simpl in Hnd. apply NoDup_cons in Hnd as [Hk Hnd].
  unfold expand, occurrences in *. simpl. rewrite count_occ_app.
  fold (occurrences (replicate c' k) v). rewrite occurrences_replicate.
  destruct Hin as [E|Hin].
  - inversion E; subst. rewrite bool_decide_eq_true_2 by reflexivity.
    pose proof (occurrences_expand_absent t v Hk) as H0.
    unfold expand, occurrences in H0. rewrite H0. lia.
  - rewrite bool_decide_eq_false_2.
    + now rewrite IH.
    + intros ->. apply Hk. apply list_elem_of_In, in_map_iff. now exists (v, c).
Qed.

Lemma occurrences_permuted l l' v :
  Permutation l l' -> occurrences l v = occurrences l' v.
Proof. intros H. unfold occurrences. now apply Permutation_count_occ. Qed.

(** A [Counter] holds each value that occurs, with the number of times. *)
Lemma Counter_occurrences l v c :
  In (v, c) (Counter l) <-> c = occurrences l v /\ (1 <= c)%nat.
Proof.
  split.
  - intros Hin. split.
    + rewrite <- (occurrences_permuted _ _ v (Counter_expand l)).
      symmetry. apply occurrences_expand; [apply Counter_keys_NoDup|exact Hin].
    + pose proof (Counter_positive l) as Hpos. rewrite List.Forall_forall in Hpos.
      exact (Hpos _ Hin).
  - intros [-> Hc].
    assert (In v (expand (Counter l))) as Hv.
    { apply (Permutation_in v (Permutation_sym (Counter_expand l))).
      apply (count_occ_In Z.eq_dec). unfold occurrences in Hc. lia. }
    unfold expand in Hv. apply in_flat_map in Hv as ([k c'] & Hin & Hv).
    simpl in Hv. apply list_elem_of_In, elem_of_replicate in Hv as [<- _].
    assert (c' = occurrences l v) as <-; [|exact Hin].
    rewrite <- (occurrences_permuted _ _ v (Counter_expand l)).
    symmetry. apply occurrences_expand; [apply Counter_keys_NoDup|exact Hin].
Qed.

Lemma has_count_occurs (n : nat) l :
  (1 <= n)%nat -> has_count n (Counter l) = true <-> occurs n l.
Proof.
  intros Hn. unfold has_count, occurs. rewrite existsb_exists. split.
  - intros ([v c] & Hin & Hc). simpl in Hc. apply Nat.eqb_eq in Hc. subst c.
    exists v. apply Counter_occurrences in Hin as [-> _]. reflexivity.
  - intros [v Hv]. exists (v, n). split; [|simpl; apply Nat.eqb_refl].
    apply Counter_occurrences. split; [now symmetry|exact Hn].
Qed.

Lemma values_with_count_spec (n : nat) l :
  (1 <= n)%nat ->
  NoDup (values_with_count n (Counter l)) /\
  forall v, v ∈ values_with_count n (Counter l) <-> occurrences l v = n.
Proof.
  intros Hn. unfold values_with_count. split.
  - pose proof (Counter_keys_NoDup l) as Hnd.
    induction (Counter l) as [|[k c] t IH]; simpl; [constructor|].
    simpl in Hnd. apply NoDup_cons in Hnd as [Hk Hnd].
    destruct (c =? n)%nat; simpl; [|now apply IH].
    apply NoDup_cons. split; [|now apply IH].
    intros Hin. apply Hk. apply list_elem_of_In, in_map_iff in Hin as ([k' c'] & E & Hin).
    simpl in E. subst k'. apply filter_In in Hin as [Hin _].
    apply list_elem_of_In, in_map_iff. now exists (k, c').
  - intros v. rewrite list_elem_of_In, in_map_iff. split.
    + intros ([k c] & E & Hin). simpl in E. subst k.
      apply filter_In in Hin as [Hin Hc]. simpl in Hc. apply Nat.eqb_eq in Hc. subst c.
      apply Counter_occurrences in Hin as [-> _]. reflexivity.
    + intros Hv. exists (v, n). split; [reflexivity|].
      apply filter_In. split; [|simpl; apply Nat.eqb_refl].
      apply Counter_occurrences. split; [now symmetry|exact Hn].
Qed.

Lemma occurrences_of_two l v w :
  v <> w -> (occurrences l v + occurrences l w <= length l)%nat.
Proof.
  intros Hne. unfold occurrences. induction l as [|x t IH]; simpl; [lia|].
  destruct (Z.eq_dec x v), (Z.eq_dec x w); lia.
Qed.

Lemma occurrences_of_three l u v w :
  u <> v -> u <> w -> v <> w ->
  (occurrences l u + occurrences l v + occurrences l w <= length l)%nat.
Proof.
  intros H1 H2 H3. unfold occurrences. induction l as [|x t IH]; simpl; [lia|].
  destruct (Z.eq_dec x u), (Z.eq_dec x v), (Z.eq_dec x w); lia.
Qed.

Lemma pairs_at_most_two l :
  length l = 5%nat -> (length (values_with_count 2 (Counter l)) <= 2)%nat.
Proof.
  intros Hlen.
  destruct (values_with_count_spec 2 l ltac:(lia)) as [Hnd Hin].
  destruct (values_with_count 2 (Counter l)) as [|u [|v [|w rest]]]; simpl; try lia.
  exfalso.
  apply NoDup_cons in Hnd as [Hu Hnd]. apply NoDup_cons in Hnd as [Hv _].
  apply not_elem_of_cons in Hu as [Huv Hu]. apply not_elem_of_cons in Hu as [Huw _].
  apply not_elem_of_cons in Hv as [Hvw _].
  pose proof (proj1 (Hin u) ltac:(left)).
  pose proof (proj1 (Hin v) ltac:(right; left)).
  pose proof (proj1 (Hin w) ltac:(right; right; left)).
  pose proof (occurrences_of_three l u v w Huv Huw Hvw).
  lia.
Qed.

Lemma two_pairs_counted l :
  length l = 5%nat ->
  length (values_with_count 2 (Counter l)) = 2%nat <->
  exists v w, v <> w /\ occurrences l v = 2%nat /\ occurrences l w = 2%nat.
Proof.
  intros Hlen.
  pose proof (pairs_at_most_two l Hlen) as Hmost.
  destruct (values_with_count_spec 2 l ltac:(lia)) as [Hnd Hin].
  split.
  - intros H2.
    destruct (values_with_count 2 (Counter l)) as [|v [|w [|? ?]]]; try discriminate H2.
    exists v, w. apply NoDup_cons in Hnd as [Hv _]. rewrite not_elem_of_cons in Hv.
    split; [tauto|]. split; apply Hin; [left|right; left].
  - intros (v & w & Hne & Hv & Hw).
    apply Hin in Hv, Hw.
    destruct (values_with_count 2 (Counter l)) as [|a [|b rest]].
    + inversion Hv.
    + apply list_elem_of_singleton in Hv, Hw. congruence.
    + simpl in *. lia.
Qed.

Lemma one_pair_counted l :
  length l = 5%nat ->
  length (values_with_count 2 (Counter l)) = 1%nat <->
  occurs 2 l /\
  ~ (exists v w, v <> w /\ occurrences l v = 2%nat /\ occurrences l w = 2%nat).
Proof.
  intros Hlen.
  pose proof (pairs_at_most_two l Hlen) as Hmost.
  pose proof (two_pairs_counted l Hlen) as Htwo.
  destruct (values_with_count_spec 2 l ltac:(lia)) as [Hnd Hin].
  split.
  - intros H1. split.
    + destruct (values_with_count 2 (Counter l)) as [|v [|? ?]]; try discriminate H1.
      exists v. apply Hin. left.
    + intros H. apply Htwo in H. lia.
  - intros [[v Hv] Hnot]. apply Hin in Hv.
    destruct (values_with_count 2 (Counter l)) as [|a [|b [|c rest]]]; simpl in *.
    + inversion Hv.
    + reflexivity.
    + exfalso. apply Hnot, Htwo. reflexivity.
    + lia.
Qed.

Lemma no_pair_counted l :
  length (values_with_count 2 (Counter l)) = 0%nat <-> ~ occurs 2 l.
Proof.
  destruct (values_with_count_spec 2 l ltac:(lia)) as [_ Hin].
  split.
  - intros H0 [v Hv]. apply Hin in Hv.
    destruct (values_with_count 2 (Counter l)); [inversion Hv|discriminate].
  - intros Hnot. destruct (values_with_count 2 (Counter l)) as [|v rest] eqn:E;
      [reflexivity|].
    exfalso. apply Hnot. exists v. apply Hin. left.
Qed.

(** ** Flushes and straights, said without the code *)

Lemma is_flush_suited (cards : list Card) :
  length cards = 5%nat -> is_flush cards = true <-> suited cards.
Proof.
  intros Hlen. unfold is_flush, suited. rewrite Hlen. cbn [Nat.ltb Nat.leb].
  rewrite Nat.eqb_eq. split.
  - intros H1.
    destruct (remove_dups (map suit cards)) as [|s [|? ?]] eqn:E; try discriminate H1.
    exists s. apply List.Forall_forall. intros c Hc.
    assert (suit c ∈ remove_dups (map suit cards)) as Hin
      by (apply elem_of_remove_dups, list_elem_of_In, in_map, Hc).
    rewrite E in Hin. now apply list_elem_of_singleton in Hin.
  - intros [s Hs].
    assert (forall x, x ∈ remove_dups (map suit cards) -> x = s) as Hall.
    { intros x Hx. apply elem_of_remove_dups, list_elem_of_In, in_map_iff in Hx
        as (c & <- & Hc).
      rewrite List.Forall_forall in Hs. now apply Hs. }
    pose proof (NoDup_remove_dups (map suit cards)) as Hnd.
    destruct cards as [|c0 cards]; [discriminate Hlen|].
    assert (suit c0 ∈ remove_dups (map suit (c0 :: cards))) as H0
      by (apply elem_of_remove_dups; left).
    destruct (remove_dups (map suit (c0 :: cards))) as [|a [|b rest]].
    + inversion H0.
    + reflexivity.
    + exfalso. apply NoDup_cons in Hnd as [Ha _]. apply Ha.
      rewrite (Hall a) by left. rewrite (Hall b) by (right; left). left.
Qed.

Lemma sorted_desc_run hi :
  sorted_desc [hi; hi - 1; hi - 2; hi - 3; hi - 4] = [hi; hi - 1; hi - 2; hi - 3; hi - 4].
Proof.
  apply (StronglySorted_unique_strong (fun a b => b <= a)).
  - intros; lia.
  - apply sorted_desc_sorted.
  - repeat (constructor; [|repeat (constructor; try lia)]). constructor.
  - apply sorted_desc_perm.
Qed.

Lemma is_straight_run (values : list Z) :
  length values = 5%nat ->
  is_straight (sorted_desc values) = true <-> run values.
Proof.
  intros Hlen. split.
  - intros Hst.
    pose proof (sorted_desc_perm values) as Hp.
    pose proof (sorted_desc_length values) as Hl. rewrite Hlen in Hl.
    destruct (sorted_desc values) as [|a [|b [|c [|d [|e [|? ?]]]]]];
      try discriminate Hl.
    apply is_straight_five in Hst as [Hw|(-> & -> & -> & ->)].
    + left. rewrite <- Hw. now symmetry.
    + right. exists a. now symmetry.
  - intros [Hw|[hi Hr]].
    + rewrite (sorted_desc_permuted _ _ Hw). reflexivity.
    + rewrite (sorted_desc_permuted _ _ Hr), sorted_desc_run.
      unfold is_straight. cbn [length Nat.ltb Nat.leb].
      destruct (eqb_list _ wheel); [reflexivity|].
      cbn [consecutive]. rewrite !andb_true_iff, !Z.eqb_eq. lia.
Qed.

Lemma run_NoDup (values : list Z) : run values -> NoDup values.
Proof.
  intros [Hw|[hi Hr]].
  - rewrite Hw. unfold wheel.
    repeat (apply NoDup_cons; split;
            [rewrite ?elem_of_cons, elem_of_nil; lia|]). constructor.
  - rewrite Hr.
    repeat (apply NoDup_cons; split;
            [rewrite ?elem_of_cons, elem_of_nil; lia|]). constructor.
Qed.

Lemma suited_values_NoDup (cards : list Card) :
  NoDup cards -> suited cards -> NoDup (card_values cards).
Proof.
  intros Hnd [s Hs]. unfold card_values.
  induction cards as [|c cards IH]; simpl; [constructor|].
  apply NoDup_cons in Hnd as [Hc Hnd]. apply Forall_cons in Hs as [Hcs Hs].
  apply NoDup_cons. split; [|now apply IH].
  intros Hin. apply list_elem_of_In, in_map_iff in Hin as (c' & E & Hc').
  apply numeric_value_inj in E. apply Hc.
  rewrite List.Forall_forall in Hs. pose proof (Hs c' Hc') as Hs'.
  assert (c = c') as -> by (destruct c, c'; simpl in *; congruence).
  now apply list_elem_of_In.
Qed.

Lemma at_most_four_of_a_rank (cards : list Card) (v : Z) :
  NoDup cards -> (occurrences (card_values cards) v <= 4)%nat.
Proof.
  intros Hnd.
  set (same := List.filter (fun c => bool_decide (numeric_value (rank c) = v)) cards).
  assert (occurrences (card_values cards) v = length same) as ->.
  { unfold same, occurrences, card_values. clear Hnd.
    induction cards as [|c cards IH]; simpl; [reflexivity|].
    destruct (Z.eq_dec (numeric_value (rank c)) v) as [E|E].
    - rewrite bool_decide_eq_true_2 by exact E. simpl. now rewrite IH.
    - rewrite bool_decide_eq_false_2 by exact E. exact IH. }
  assert (NoDup (map suit same)) as Hsuits.
  { unfold same. clear same.
    induction cards as [|c cards IH]; simpl; [constructor|].
    apply NoDup_cons in Hnd as [Hc Hnd].
    destruct (bool_decide_reflect (numeric_value (rank c) = v)) as [E|E];
      [|now apply IH].
    simpl. apply NoDup_cons. split; [|now apply IH].
    intros Hin. apply list_elem_of_In, in_map_iff in Hin as (c' & Es & Hc').
    apply filter_In in Hc' as [Hc' Ev]. apply bool_decide_eq_true_1 in Ev.
    apply Hc. rewrite <- Ev in E. apply numeric_value_inj in E.
    assert (c = c') as -> by (destruct c, c'; simpl in *; congruence).
    now apply list_elem_of_In. }
  rewrite <- (length_map suit same).
  change 4%nat with (length [SPADES; HEARTS; DIAMONDS; CLUBS]).
  apply NoDup_incl_length; [now apply NoDup_ListNoDup|].
  intros s _. destruct s; simpl; tauto.
Qed.

Lemma NoDup_occurs (values : list Z) (n : nat) :
  NoDup values -> (2 <= n)%nat -> ~ occurs n values.
Proof.
  intros Hnd Hn [v Hv]. apply NoDup_ListNoDup in Hnd.
  rewrite (NoDup_count_occ Z.eq_dec) in Hnd.
  specialize (Hnd v). unfold occurrences in Hv. lia.
Qed.

Lemma royal_test_broadway (values : list Z) :
  length values = 5%nat -> Forall (fun v => 2 <= v) values ->
  is_straight (sorted_desc values) = true ->
  royal_test (sorted_desc values) = true <-> Permutation values broadway.
Proof.
  intros Hlen Hlow Hst.
  pose proof (sorted_desc_perm values) as Hp.
  pose proof (sorted_desc_length values) as Hl. rewrite Hlen in Hl.
  rewrite <- Hp in Hlow.
  assert (sorted_desc values = broadway <-> Permutation values broadway) as <-.
  { split; [intros E; rewrite <- E; now symmetry|].
    intros Hb. now rewrite (sorted_desc_permuted _ _ Hb). }
  destruct (sorted_desc values) as [|a [|b [|c [|d [|e [|? ?]]]]]];
    try discriminate Hl.
  apply is_straight_five in Hst as [Hw|(-> & -> & -> & ->)].
  - rewrite Hw. split; discriminate.
  - assert (6 <= a) as Ha.
    { do 4 apply Forall_cons in Hlow as [_ Hlow].
      apply Forall_cons in Hlow as [Hlow _]. lia. }
    destruct (straight_run_high a Ha) as (_ & Hmax & Hmin).
    unfold royal_test. rewrite Hmax, Hmin.
    rewrite andb_true_iff, !Z.eqb_eq. unfold broadway. split.
    + intros [-> _]. reflexivity.
    + intros [= ->]. lia.
Qed.

(** X26. The category of five different cards is the one the rules of
    poker give.  With the ranks counted and a run being five consecutive
    ranks or the wheel A-2-3-4-5: royal flush exactly for one suit and the
    ranks ten to ace; straight flush for one suit and any other run; four of
    a kind when a rank occurs four times; full house for a rank three times
    and a rank twice; flush for one suit and no run; straight for a run in
    more than one suit; three of a kind for a rank three times and none
    twice; two pair for two ranks twice each; one pair for exactly one rank
    twice and none three times; high card when all ranks differ and there is
    neither one suit nor a run. *)
Theorem five_cards_get_their_category (cards : list Card) :
  length cards = 5%nat -> NoDup cards ->
  let values := card_values cards in
  let two_pairs :=
    exists v w, v <> w /\ occurrences values v = 2%nat /\ occurrences values w = 2%nat in
  exists h,
    evaluate_hand cards = Ok (Some h) /\
    (hand_rank h = ROYAL_FLUSH <-> suited cards /\ Permutation values broadway) /\
    (hand_rank h = STRAIGHT_FLUSH <->
       suited cards /\ run values /\ ~ Permutation values broadway) /\
    (hand_rank h = FOUR_OF_A_KIND <-> occurs 4 values) /\
    (hand_rank h = FULL_HOUSE <-> occurs 3 values /\ occurs 2 values) /\
    (hand_rank h = FLUSH <-> suited cards /\ ~ run values) /\
    (hand_rank h = STRAIGHT <-> run values /\ ~ suited cards) /\
    (hand_rank h = THREE_OF_A_KIND <-> occurs 3 values /\ ~ occurs 2 values) /\
    (hand_rank h = TWO_PAIR <-> two_pairs) /\
    (hand_rank h = ONE_PAIR <-> occurs 2 values /\ ~ occurs 3 values /\ ~ two_pairs) /\
    (hand_rank h = HIGH_CARD <->
       NoDup values /\ ~ suited cards /\ ~ run values).
Proof.
  intros Hlen Hnd values two_pairs.
  destruct (evaluate_five_cards_well_formed cards Hlen) as (h & Hh & _).
  exists h. split; [now rewrite (evaluate_hand_of_five cards Hlen), Hh|].
  unfold _evaluate_five_cards in Hh. fold (card_values cards) in Hh. fold values in Hh.
  apply classify_selects in Hh. rewrite Hh. clear Hh h.
  assert (length values = 5%nat) as Hlv by (unfold values, card_values; now rewrite length_map).
  assert (length (sorted_desc values) = 5%nat) as Hls by now rewrite sorted_desc_length.
  assert (forall n, occurs n (sorted_desc values) <-> occurs n values) as Hocc.
  { intros n. unfold occurs. split; intros [v Hv]; exists v.
    - now rewrite <- (occurrences_permuted _ _ v (sorted_desc_perm values)).
    - now rewrite (occurrences_permuted _ _ v (sorted_desc_perm values)). }
  assert ((exists v w, v <> w /\ occurrences (sorted_desc values) v = 2%nat /\
                       occurrences (sorted_desc values) w = 2%nat) <-> two_pairs) as Htp.
  { unfold two_pairs. split; intros (v & w & Hne & Hv & Hw); exists v, w.
    - now rewrite <- !(occurrences_permuted _ _ _ (sorted_desc_perm values)).
    - now rewrite !(occurrences_permuted _ _ _ (sorted_desc_perm values)). }
  (* the tests, as facts about the hand *)
  pose proof (is_flush_suited cards Hlen) as Hfl.
  pose proof (is_straight_run values Hlv) as Hst.
  assert (is_straight (sorted_desc values) = true ->
          (royal_test (sorted_desc values) = true <-> Permutation values broadway))
    as Hroyal.
  { apply royal_test_broadway; [exact Hlv|].
    unfold values, card_values. apply List.Forall_forall. intros v Hv.
    apply in_map_iff in Hv as (c & <- & _). apply numeric_value_bounds. }
  pose proof (has_count_occurs 4 (sorted_desc values) ltac:(lia)) as Hq4.
  pose proof (has_count_occurs 3 (sorted_desc values) ltac:(lia)) as Hq3.
  pose proof (has_count_occurs 2 (sorted_desc values) ltac:(lia)) as Hq2.
  rewrite Hocc in Hq4, Hq3, Hq2.
  pose proof (two_pairs_counted (sorted_desc values) Hls) as Hn2.
  pose proof (one_pair_counted (sorted_desc values) Hls) as Hn1.
  pose proof (no_pair_counted (sorted_desc values)) as Hn0.
  pose proof (pairs_at_most_two (sorted_desc values) Hls) as Hmost.
  rewrite Htp in Hn2, Hn1. rewrite Hocc in Hn1, Hn0.
  (* what excludes what *)
  assert (suited cards -> NoDup values) as Hsn by apply (suited_values_NoDup cards Hnd).
  pose proof (run_NoDup values) as Hrn.
  assert (NoDup values -> ~ occurs 4 values /\ ~ occurs 3 values /\ ~ occurs 2 values)
    as Hno by (intros H; repeat split; apply NoDup_occurs; (exact H || lia)).
  assert (occurs 4 values -> ~ occurs 3 values /\ ~ occurs 2 values) as H4.
  { intros [v Hv]. split; intros [w Hw].
    all: assert (v <> w) as Hne by (intros ->; lia).
    all: pose proof (occurrences_of_two values v w Hne); lia. }
  assert (occurs 3 values -> ~ two_pairs) as H3.
  { intros [u Hu] (v & w & Hne & Hv & Hw).
    assert (u <> v) by (intros ->; lia). assert (u <> w) by (intros ->; lia).
    pose proof (occurrences_of_three values u v w ltac:(assumption) ltac:(assumption) Hne).
    lia. }
  assert (two_pairs -> occurs 2 values) as H2 by (intros (v & _ & _ & Hv & _); now exists v).
  assert (~ occurs 4 values -> ~ occurs 3 values -> ~ occurs 2 values -> NoDup values)
    as Hall.
  { intros N4 N3 N2. apply NoDup_ListNoDup, (NoDup_count_occ Z.eq_dec). intros x.
    pose proof (at_most_four_of_a_rank cards x Hnd) as H4'. fold values in H4'.
    unfold occurrences in H4'.
    destruct (count_occ Z.eq_dec values x) as [|[|[|[|[|n]]]]] eqn:E; try lia.
    - exfalso. apply N2. now exists x.
    - exfalso. apply N3. now exists x.
    - exfalso. apply N4. now exists x. }
  assert (Permutation values broadway -> run values) as Hbr
    by (intros H; right; exists 14; exact H).
  clearbody two_pairs. clear Hocc Htp Hlv Hls Hlen Hnd.
  generalize dependent (length (values_with_count 2 (Counter (sorted_desc values)))).
  intros pairs Hn2 Hn1 Hn0 Hmost.
  destruct (is_flush cards); settle Hfl.
  all: destruct (is_straight (sorted_desc values)); settle Hst.
  all: try (specialize (Hroyal eq_refl)).
  all: destruct (royal_test (sorted_desc values)); try settle Hroyal.
  all: destruct (has_count 4 (Counter (sorted_desc values))); settle Hq4.
  all: try (exfalso; tauto).
  all: destruct (has_count 3 (Counter (sorted_desc values))); settle Hq3.
  all: try (exfalso; tauto).
  all: destruct (has_count 2 (Counter (sorted_desc values))); settle Hq2.
  all: try (exfalso; tauto).
  all: destruct pairs as [|[|[|pairs]]]; try (exfalso; lia).
  all: try (apply proj1 in Hn0; specialize (Hn0 eq_refl)).
  all: try (apply proj1 in Hn1; specialize (Hn1 eq_refl)).
  all: try (apply proj1 in Hn2; specialize (Hn2 eq_refl)).
  all: try (exfalso; tauto).
  all: cbn [selected andb Nat.eqb].
  all: repeat split; try discriminate; try reflexivity; try tauto.
Qed.

Lemma five_cards_get_their_category_witness :
  exists h, evaluate_hand wheel_spades = Ok (Some h) /\ hand_rank h = STRAIGHT_FLUSH.
Proof.
  assert (NoDup wheel_spades) as Hnd
    by (apply (bool_decide_unpack _); vm_compute; exact I).
  destruct (five_cards_get_their_category wheel_spades eq_refl Hnd)
    as (h & E & _ & Hsf & _).
  exists h. split; [exact E|]. apply Hsf. split; [|split].
  - exists SPADES. repeat constructor.
  - left. vm_compute. solve_Permutation.
  - intros Hp. apply (Permutation_in 2) in Hp; [simpl in Hp; lia|simpl; tauto].
Defined.

(** ** The evaluator of [poker_shared] and the engine's *)

Lemma shared_card_value (c : Card) :
  Shared.card_value (shared_card c) = inr (numeric_value (rank c) - 2).
Proof. destruct c as [r s]. destruct r; reflexivity. Qed.

Lemma shared_card_values (cards : list Card) :
  Shared.card_values (map shared_card cards) =
  inr (map (fun v => v - 2) (card_values cards)).
Proof.
  induction cards as [|c cards IH]; [reflexivity|].
  cbn [map Shared.card_values card_values]. rewrite shared_card_value, IH. reflexivity.
Qed.

Lemma insert_desc_shift x l :
  insert_desc (x - 2) (map (fun v => v - 2) l) = map (fun v => v - 2) (insert_desc x l).
Proof.
  induction l as [|y t IH]; [reflexivity|]. simpl.
  destruct (Z.ltb_spec (y - 2) (x - 2)), (Z.ltb_spec y x); try lia; [reflexivity|].
  simpl. now rewrite IH.
Qed.

Lemma sorted_desc_shift l :
  sorted_desc (map (fun v => v - 2) l) = map (fun v => v - 2) (sorted_desc l).
Proof.
  unfold sorted_desc.
  assert (forall acc,
            fold_left (fun acc x => insert_desc x acc) (map (fun v => v - 2) l)
              (map (fun v => v - 2) acc) =
            map (fun v => v - 2) (fold_left (fun acc x => insert_desc x acc) l acc)) as H.
  { induction l as [|x t IH]; intros acc; [reflexivity|].
    simpl. rewrite insert_desc_shift. apply IH. }
  apply (H []).
Qed.

Lemma counter_add_shift v cs :
  counter_add (v - 2) (map (fun vc => (fst vc - 2, snd vc)) cs) =
  map (fun vc => (fst vc - 2, snd vc)) (counter_add v cs).
Proof.
  induction cs as [|[k c] t IH]; [reflexivity|]. simpl.
  destruct (Z.eqb_spec (k - 2) (v - 2)), (Z.eqb_spec k v); try lia; [reflexivity|].
  simpl. now rewrite IH.
Qed.

Lemma Counter_shift l :
  Counter (map (fun v => v - 2) l) = map (fun vc => (fst vc - 2, snd vc)) (Counter l).
Proof.
  unfold Counter.
  assert (forall cs,
            fold_left (fun cs v => counter_add v cs) (map (fun v => v - 2) l)
              (map (fun vc => (fst vc - 2, snd vc)) cs) =
            map (fun vc => (fst vc - 2, snd vc))
              (fold_left (fun cs v => counter_add v cs) l cs)) as H.
  { induction l as [|x t IH]; intros cs; [reflexivity|].
    simpl. rewrite counter_add_shift. apply IH. }
  apply (H []).
Qed.

Lemma has_count_shift n cs :
  has_count n (map (fun vc : Z * nat => (fst vc - 2, snd vc)) cs) = has_count n cs.
Proof.
  unfold has_count. induction cs as [|[k c] t IH]; [reflexivity|].
  simpl. now rewrite IH.
Qed.

Lemma count_of_shift n cs :
  Shared.count_of n (map (fun vc : Z * nat => (fst vc - 2, snd vc)) cs) =
  length (values_with_count n cs).
Proof.
  unfold Shared.count_of, values_with_count. rewrite length_map.
  induction cs as [|[k c] t IH]; [reflexivity|].
  simpl. destruct (c =? n)%nat; simpl; now rewrite IH.
Qed.

Lemma has_count_some n cs :
  has_count n cs = negb (length (values_with_count n cs) =? 0)%nat.
Proof.
  unfold has_count, values_with_count. rewrite length_map.
  induction cs as [|[k c] t IH]; [reflexivity|].
  simpl. destruct (c =? n)%nat; [reflexivity|exact IH].
Qed.

Lemma py_max_shift l :
  py_max (map (fun v => v - 2) l) =
  match py_max l with
  | Ok top => Ok (top - 2)
  | Err e => Err e
  end.
Proof.
  destruct l as [|x t]; [reflexivity|]. simpl. f_equal.
  revert x. induction t as [|y t IH]; intros x; [reflexivity|].
  simpl. rewrite <- IH. f_equal. lia.
Qed.

Lemma remove_dups_length_inj {A B} `{EqDecision A} `{EqDecision B} (f : A -> B)
    (l : list A) :
  (forall x y, f x = f y -> x = y) ->
  length (remove_dups (map f l)) = length (remove_dups l).
Proof.
  intros Hinj. induction l as [|x l IH]; [reflexivity|]. simpl.
  destruct (decide_rel elem_of (f x) (map f l)) as [Hin|Hout];
    destruct (decide_rel elem_of x l) as [Hin'|Hout']; simpl.
  - exact IH.
  - exfalso. apply Hout'.
    apply list_elem_of_In, in_map_iff in Hin as (y & E & Hy).
    apply Hinj in E. subst y. now apply list_elem_of_In.
  - exfalso. apply Hout. apply list_elem_of_In, in_map. now apply list_elem_of_In.
  - now rewrite IH.
Qed.

Lemma shared_is_flush (cards : list Card) :
  length cards = 5%nat ->
  Shared.is_flush (map shared_card cards) = is_flush cards.
Proof.
  intros Hlen. unfold Shared.is_flush, is_flush. rewrite Hlen. cbn [Nat.ltb Nat.leb].
  rewrite map_map.
  change (map (fun x => Shared.suit (shared_card x)) cards)
    with (map (fun x => shared_suit (suit x)) cards).
  rewrite <- (map_map suit shared_suit).
  rewrite (remove_dups_length_inj shared_suit); [reflexivity|].
  intros x y. destruct x, y; simpl; intros E; try reflexivity; discriminate E.
Qed.

Lemma insert_asc_perm x l : Permutation (Shared.insert_asc x l) (x :: l).
Proof.
  induction l as [|y t IH]; simpl; [reflexivity|].
  destruct (x <? y); [reflexivity|]. rewrite IH. apply perm_swap.
Qed.

Lemma sorted_asc_perm l : Permutation (Shared.sorted_asc l) l.
Proof.
  unfold Shared.sorted_asc.
  assert (forall acc,
            Permutation (fold_left (fun acc x => Shared.insert_asc x acc) l acc)
              (acc ++ l)) as H.
  { induction l as [|x t IH]; intros acc; simpl; [now rewrite app_nil_r|].
    rewrite IH, insert_asc_perm. apply Permutation_middle. }
  apply (H []).
Qed.

Lemma insert_asc_sorted x l :
  StronglySorted Z.le l -> StronglySorted Z.le (Shared.insert_asc x l).
Proof.
  induction 1 as [|y t Ht IH Hy]; simpl; [repeat constructor|].
  destruct (Z.ltb_spec x y).
  - constructor; [now constructor|].
    constructor; [lia|]. eapply Forall_impl; [exact Hy|]. simpl. intros; lia.
  - constructor; [exact IH|].
    rewrite (insert_asc_perm x t). constructor; [lia|exact Hy].
Qed.

Lemma sorted_asc_sorted l : StronglySorted Z.le (Shared.sorted_asc l).
Proof.
  unfold Shared.sorted_asc.
  assert (forall acc, StronglySorted Z.le acc ->
            StronglySorted Z.le
              (fold_left (fun acc x => Shared.insert_asc x acc) l acc)) as H.
  { induction l as [|x t IH]; intros acc Hacc; simpl; [exact Hacc|].
    apply IH. now apply insert_asc_sorted. }
  apply H. constructor.
Qed.

(** The straight test of [poker_shared] is the engine's without the wheel. *)
Lemma shared_is_straight (cards : list Card) :
  length cards = 5%nat ->
  Shared.is_straight (map shared_card cards) =
  inr (consecutive (sorted_desc (card_values cards))).
Proof.
  intros Hlen. unfold Shared.is_straight. rewrite shared_card_values. f_equal.
  pose proof (sorted_desc_perm (card_values cards)) as Hp.
  pose proof (sorted_desc_sorted (card_values cards)) as Hs.
  pose proof (sorted_desc_length (card_values cards)) as Hl.
  unfold card_values in Hl at 2. rewrite length_map, Hlen in Hl.
  destruct (sorted_desc (card_values cards)) as [|a [|b [|c [|d [|e [|? ?]]]]]];
    try discriminate Hl.
  assert (e <= d /\ d <= c /\ c <= b /\ b <= a) as Hord.
  { apply StronglySorted_inv in Hs as [Hs Ha].
    apply StronglySorted_inv in Hs as [Hs Hb].
    apply StronglySorted_inv in Hs as [Hs Hc].
    apply StronglySorted_inv in Hs as [_ Hd].
    apply Forall_cons in Ha as [? _]. apply Forall_cons in Hb as [? _].
    apply Forall_cons in Hc as [? _]. apply Forall_cons in Hd as [? _]. lia. }
  assert (Shared.sorted_asc (map (fun v => v - 2) (card_values cards)) =
          [e - 2; d - 2; c - 2; b - 2; a - 2]) as ->.
  { apply (StronglySorted_unique_strong Z.le).
    - intros; lia.
    - apply sorted_asc_sorted.
    - repeat (constructor; [|repeat (constructor; try lia)]). constructor.
    - rewrite sorted_asc_perm, <- Hp. simpl.
      change [e - 2; d - 2; c - 2; b - 2; a - 2]
        with (rev [a - 2; b - 2; c - 2; d - 2; e - 2]).
      apply Permutation_rev. }
  cbn [Shared.steps_of_one consecutive].
  destruct (Z.eqb_spec (e - 2 + 1) (d - 2)), (Z.eqb_spec (d - 2 + 1) (c - 2)),
    (Z.eqb_spec (c - 2 + 1) (b - 2)), (Z.eqb_spec (b - 2 + 1) (a - 2)),
    (Z.eqb_spec (a - 1) b), (Z.eqb_spec (b - 1) c), (Z.eqb_spec (c - 1) d),
    (Z.eqb_spec (d - 1) e); simpl; try reflexivity; lia.
Qed.

(** The category names of the two evaluators, on five cards. *)
Lemma shared_rank_of_five (cards : list Card) (h : HandStrength) :
  length cards = 5%nat ->
  _evaluate_five_cards cards = Ok h ->
  (~ Permutation (card_values cards) wheel ->
   Shared.get_hand_rank (map shared_card cards) = inr (descriptions (hand_rank h))) /\
  (Permutation (card_values cards) wheel ->
   hand_rank h = (if is_flush cards then STRAIGHT_FLUSH else STRAIGHT) /\
   Shared.get_hand_rank (map shared_card cards) =
     inr (if is_flush cards then "Flush" else "High Card")).
Proof.
  intros Hlen Hh.
  unfold _evaluate_five_cards in Hh. fold (card_values cards) in Hh.
  apply classify_selects in Hh. rewrite Hh. clear Hh h.
  assert (Shared.index "A" Shared.RANKS = inr 12) as Hace by reflexivity.
  unfold Shared.get_hand_rank.
  rewrite shared_card_values, sorted_desc_shift, Counter_shift, !has_count_shift,
    count_of_shift, (shared_is_flush cards Hlen), (shared_is_straight cards Hlen),
    py_max_shift, Hace.
  assert (length (sorted_desc (card_values cards)) = 5%nat) as Hls
    by (unfold card_values; now rewrite sorted_desc_length, length_map).
  pose proof (pairs_at_most_two _ Hls) as Hmost.
  pose proof (has_count_some 2 (Counter (sorted_desc (card_values cards)))) as Hq2.
  assert (Forall (fun v => 2 <= v) (sorted_desc (card_values cards))) as Hlow.
  { rewrite sorted_desc_perm. unfold card_values.
    apply List.Forall_forall. intros v Hv. apply in_map_iff in Hv as (c & <- & _).
    apply numeric_value_bounds. }
  assert (Permutation (card_values cards) wheel <->
          sorted_desc (card_values cards) = wheel) as Hw.
  { split.
    - intros Hp. now rewrite (sorted_desc_permuted _ _ Hp).
    - intros Hs. rewrite <- Hs. symmetry. apply sorted_desc_perm. }
  rewrite Hw. clear Hw.
  generalize dependent (sorted_desc (card_values cards)). intros sv Hls Hmost Hq2 Hlow.
  split.
  - intros Hnw.
    assert (is_straight sv = consecutive sv) as Hst.
    { unfold is_straight. rewrite Hls. cbn [Nat.ltb Nat.leb].
      destruct (eqb_list sv wheel) eqn:Ew; [|reflexivity].
      apply eqb_list_true in Ew. contradiction. }
    rewrite Hst.
    destruct (is_flush cards); destruct (consecutive sv).
    + (* one suit and a run *)
      destruct sv as [|a [|b [|c [|d [|e [|? ?]]]]]]; try discriminate Hls.
      apply is_straight_five in Hst as [Hwheel|(-> & -> & -> & ->)];
        [contradiction|].
      assert (6 <= a) as Ha.
      { do 4 apply Forall_cons in Hlow as [_ Hlow].
        apply Forall_cons in Hlow as [Hlow _]. lia. }
      destruct (straight_run_high a Ha) as (_ & Hmax & Hmin).
      unfold selected, royal_test. rewrite Hmax, Hmin. cbn [andb].
      destruct (Z.eqb_spec a 14), (Z.eqb_spec (a - 4) 10), (Z.eqb_spec (a - 2) 12);
        try lia; reflexivity.
    + (* one suit, no run *)
      unfold selected. cbn [andb].
      destruct (has_count 4 (Counter sv)); [reflexivity|].
      destruct (has_count 3 (Counter sv)); cbn [andb]; [|reflexivity].
      destruct (has_count 2 (Counter sv)); reflexivity.
    + (* a run in more than one suit *)
      unfold selected. cbn [andb].
      destruct (has_count 4 (Counter sv)); [reflexivity|].
      destruct (has_count 3 (Counter sv)); cbn [andb]; [|reflexivity].
      destruct (has_count 2 (Counter sv)); reflexivity.
    + (* neither *)
      unfold selected. cbn [andb].
      destruct (has_count 4 (Counter sv)); [reflexivity|].
      destruct (has_count 3 (Counter sv)); cbn [andb].
      * destruct (has_count 2 (Counter sv)); reflexivity.
      * rewrite Hq2.
        destruct (length (values_with_count 2 (Counter sv))) as [|[|[|n]]];
          try reflexivity; lia.
  - intros ->. destruct (is_flush cards); split; reflexivity.
Qed.

(** X27. On five cards the evaluator of [poker_shared] names the category
    that the engine's [get_hand_description] names, except for the wheel
    A-2-3-4-5, which it does not know as a straight: there the engine says
    Straight Flush or Straight and [poker_shared] says Flush or High Card. *)
Theorem shared_evaluator_misses_the_wheel (cards : list Card) :
  length cards = 5%nat ->
  exists h,
    evaluate_hand cards = Ok (Some h) /\
    get_hand_description cards = Ok (descriptions (hand_rank h)) /\
    (~ Permutation (card_values cards) wheel ->
     Shared.get_hand_rank (map shared_card cards) = inr (descriptions (hand_rank h))) /\
    (Permutation (card_values cards) wheel ->
     hand_rank h = (if is_flush cards then STRAIGHT_FLUSH else STRAIGHT) /\
     Shared.get_hand_rank (map shared_card cards) =
       inr (if is_flush cards then "Flush" else "High Card")).
Proof.
  intros Hlen.
  destruct (evaluate_five_cards_well_formed cards Hlen) as (h & Hh & _).
  assert (evaluate_hand cards = Ok (Some h)) as E
    by now rewrite (evaluate_hand_of_five cards Hlen), Hh.
  exists h. split; [exact E|].
  split; [unfold get_hand_description; now rewrite E|].
  exact (shared_rank_of_five cards h Hlen Hh).
Qed.

Lemma shared_evaluator_misses_the_wheel_witness :
  get_hand_description wheel_spades = Ok "Straight Flush" /\
  Shared.get_hand_rank (map shared_card wheel_spades) = inr "Flush".
Proof.
  destruct (shared_evaluator_misses_the_wheel wheel_spades eq_refl)
    as (h & _ & Hd & _ & Hwheel).
  destruct Hwheel as [Hr Hs]; [vm_compute; solve_Permutation|].
  rewrite Hd, Hr. split; [reflexivity|exact Hs].
Defined.

Lemma combinations_short {A} (l : list A) (k : nat) :
  (length l < k)%nat -> combinations l k = [].
Proof.
  revert k. induction l as [|x t IH]; intros [|k] Hk; simpl in *; try lia.
  - reflexivity.
  - rewrite !IH by lia. reflexivity.
Qed.

(** X28. On fewer than five cards [evaluate_hand] of [poker_shared] does not
    look at the cards and returns High Card, whatever their ranks are, where
    the engine's [evaluate_hand] and [get_hand_description] raise
    [ValueError]. *)
Theorem shared_evaluate_hand_on_few_cards :
  (forall cards : list Shared.Card,
     (length cards < 5)%nat -> Shared.evaluate_hand cards = inr "High Card") /\
  (forall cards : list Card,
     (length cards < 5)%nat ->
     evaluate_hand cards = Err (ValueError NeedFiveCards) /\
     get_hand_description cards = Err (ValueError NeedFiveCards)).
Proof.
  split.
  - intros cards Hlen. unfold Shared.evaluate_hand.
    now rewrite (combinations_short cards 5 Hlen).
  - intros cards Hlen.
    assert (evaluate_hand cards = Err (ValueError NeedFiveCards)) as E.
    { unfold evaluate_hand.
      destruct (Nat.ltb_spec (length cards) 5); [reflexivity|lia]. }
    split; [exact E|]. unfold get_hand_description. now rewrite E.
Qed.

Lemma shared_evaluate_hand_on_few_cards_witness :
  Shared.evaluate_hand [Shared.mkCard "joker" "none"] = inr "High Card" /\
  get_hand_description [mkCard ACE SPADES] = Err (ValueError NeedFiveCards).
Proof.
  destruct shared_evaluate_hand_on_few_cards as [Hshared Hcore].
  split.
  - apply Hshared. simpl. lia.
  - apply Hcore. simpl. lia.
Defined.

Lemma combinations_map {A B} (f : A -> B) (l : list A) : forall k,
  combinations (map f l) k = map (map f) (combinations l k).
Proof.
  induction l as [|x t IH]; intros [|k]; try reflexivity.
  simpl. rewrite !IH, map_app, !map_map. reflexivity.
Qed.

Lemma index_of_description (r : HandRank) :
  Shared.index (descriptions r) Shared.HAND_RANKINGS = inr (rank_value r - 1).
Proof. destruct r; reflexivity. Qed.

(** The loop of [poker_shared.evaluate_hand] on hands whose names are the
    engine's: it ends with the name of the highest category met. *)
Lemma shared_best_of_names (combos : list (list Card)) : forall r0,
  (forall five, In five combos ->
     exists h, _evaluate_five_cards five = Ok h /\
               Shared.get_hand_rank (map shared_card five) =
               inr (descriptions (hand_rank h))) ->
  exists r,
    Shared.best_of (map (map shared_card) combos) (descriptions r0) =
    inr (descriptions r) /\
    rank_value r0 <= rank_value r /\
    (forall five h, In five combos -> _evaluate_five_cards five = Ok h ->
                    rank_value (hand_rank h) <= rank_value r) /\
    (r = r0 \/ exists five h, In five combos /\ _evaluate_five_cards five = Ok h /\
                              hand_rank h = r).
Proof.
  induction combos as [|combo rest IH]; intros r0 Hnames.
  - exists r0. split; [reflexivity|]. split; [lia|]. split; [intros ? ? []|now left].
  - destruct (Hnames combo (or_introl eq_refl)) as (h & Hh & Hname).
    cbn [map Shared.best_of]. rewrite Hname, !index_of_description.
    set (r1 := if rank_value r0 - 1 <? rank_value (hand_rank h) - 1
               then hand_rank h else r0).
    assert ((if rank_value r0 - 1 <? rank_value (hand_rank h) - 1
             then descriptions (hand_rank h) else descriptions r0) = descriptions r1)
      as -> by (unfold r1; now destruct (_ <? _)).
    destruct (IH r1) as (r & Hr & Hge & Hall & Hfrom).
    { intros five Hin. apply Hnames. now right. }
    assert (rank_value r0 <= rank_value r1 /\
            rank_value (hand_rank h) <= rank_value r1) as [H0 H1]
      by (unfold r1; destruct (Z.ltb_spec (rank_value r0 - 1)
                                 (rank_value (hand_rank h) - 1)); lia).
    exists r. split; [exact Hr|]. split; [lia|]. split.
    + intros five h' [<-|Hin] Hh'.
      * assert (h' = h) as -> by congruence. lia.
      * exact (Hall five h' Hin Hh').
    + destruct Hfrom as [->|(five & h' & Hin & Hh' & Hr')].
      * unfold r1. destruct (_ <? _); [|now left].
        right. exists combo, h. split; [now left|]. split; [exact Hh|reflexivity].
      * right. exists five, h'. split; [now right|]. split; assumption.
Qed.

Lemma le_strength_category (a b : HandStrength) :
  le_strength a b -> rank_value (hand_rank a) <= rank_value (hand_rank b).
Proof.
  intros [H| ->]; [|lia]. apply lt_true_iff in H. lia.
Qed.

(** X29. On five cards or more that do not hold an ace, a two, a three, a
    four and a five together, [evaluate_hand] of [poker_shared] returns the
    name that the engine's [get_hand_description] returns: the category of
    the best five-card hand among them. *)
Theorem shared_evaluate_hand_names_the_best (cards : list Card) :
  (5 <= length cards)%nat ->
  ~ (forall v, v ∈ wheel -> v ∈ card_values cards) ->
  exists name,
    get_hand_description cards = Ok name /\
    Shared.evaluate_hand (map shared_card cards) = inr name.
Proof.
  intros Hlen Hnw.
  destruct (evaluate_hand_maximum cards Hlen)
    as (best & Hbest & _ & (top & Htop_sub & Htop_len & Htop) & Hmax).
  exists (descriptions (hand_rank best)).
  split; [unfold get_hand_description; now rewrite Hbest|].
  unfold Shared.evaluate_hand. rewrite combinations_map.
  change "High Card"%string with (descriptions HIGH_CARD).
  destruct (shared_best_of_names (combinations cards 5) HIGH_CARD)
    as (r & Hr & _ & Hall & Hfrom).
  { intros five Hin. apply combinations_sublist in Hin as [Hsub Hfive].
    destruct (Hmax five Hsub Hfive) as (h & Hh & _).
    exists h. split; [exact Hh|].
    apply (shared_rank_of_five five h Hfive Hh).
    intros Hwheel. apply Hnw. intros v Hv.
    apply list_elem_of_In in Hv.
    apply (Permutation_in v (Permutation_sym Hwheel)) in Hv.
    unfold card_values in *. apply list_elem_of_In.
    apply in_map_iff in Hv as (c & <- & Hc).
    apply (in_map (fun card => numeric_value (rank card))).
    apply list_elem_of_In. apply (elem_of_sublist five); [|exact Hsub].
    now apply list_elem_of_In. }
  rewrite Hr. do 2 f_equal. apply rank_value_inj.
  apply Z.le_antisymm.
  - destruct Hfrom as [->|(five & h & Hin & Hh & <-)].
    + destruct (hand_rank best); simpl; lia.
    + apply combinations_sublist in Hin as [Hsub Hfive].
      destruct (Hmax five Hsub Hfive) as (h' & Hh' & Hle).
      assert (h' = h) as -> by congruence.
      now apply le_strength_category.
  - apply (Hall top best); [|exact Htop].
    apply combinations_sublist. split; assumption.
Qed.

Lemma shared_evaluate_hand_names_the_best_witness :
  get_hand_description aces_over_kings = Ok "Full House" /\
  Shared.evaluate_hand (map shared_card aces_over_kings) = inr "Full House".
Proof.
  destruct (shared_evaluate_hand_names_the_best aces_over_kings)
    as (name & Hcore & Hshared).
  - simpl. lia.
  - intros H. assert (5 ∈ wheel) as H5 by (apply list_elem_of_In; simpl; tauto).
    apply H, list_elem_of_In in H5. simpl in H5. lia.
  - assert (get_hand_description aces_over_kings = Ok "Full House") as E
      by (vm_compute; reflexivity).
    rewrite E in Hcore. injection Hcore as <-. split; [exact E|exact Hshared].
Defined.

(** ** The blinds *)

(** X30. At a table of two seats or more [post_blinds] takes the small
    blind from the seat after the dealer and the big blind from the seat
    after that, each blind cut down to the player's stack; nobody else is
    touched and no [all_in] flag is set, also when a blind takes a whole
    stack.  The pot grows by both payments, the table's bet is what the big
    blind paid (less than the small blind's payment when that stack is
    short), and the action is on the third seat after the dealer.  At a
    table of two the big blind is the dealer's. *)
Theorem blinds_come_from_the_seats_after_the_dealer (g : GameState.t) :
  (2 <= length (players g))%nat ->
  let n := Z.of_nat (length (players g)) in
  let sb := Z.to_nat ((dealer_position g + 1) mod n) in
  let bb := Z.to_nat ((dealer_position g + 2) mod n) in
  exists p q g',
    players g !! sb = Some p /\ players g !! bb = Some q /\ sb <> bb /\
    post_blinds g = Done tt g' /\
    players g' =
      <[bb := commit (Z.min (big_blind g) (stack q)) q]>
        (<[sb := commit (Z.min (small_blind g) (stack p)) p]> (players g)) /\
    pot g' = pot g + Z.min (small_blind g) (stack p) + Z.min (big_blind g) (stack q) /\
    GameState.current_bet g' = Z.min (big_blind g) (stack q) /\
    action_position g' = (dealer_position g + 3) mod n /\
    dealer_position g' = dealer_position g /\
    deck g' = deck g /\ community_cards g' = community_cards g /\
    (length (players g) = 2%nat -> 0 <= dealer_position g < 2 ->
     Z.of_nat bb = dealer_position g).
Proof.
  intros Hn n sb bb.
  assert (players g <> []) as Hne by (intros E; rewrite E in Hn; simpl in Hn; lia).
  destruct (post_blinds_eq g Hne) as (p & q & Hp & Hq & E).
  fold n sb bb in Hp, Hq, E.
  assert (sb <> bb) as Hdiff.
  { unfold sb, bb. intros Heq. symmetry in Heq. revert Heq.
    apply next_seat_differs. unfold n. lia. }
  rewrite list_lookup_insert_ne in Hq by exact Hdiff.
  exists p, q. eexists. split; [exact Hp|]. split; [exact Hq|]. split; [exact Hdiff|].
  split; [exact E|]. cbn. split; [reflexivity|]. split; [reflexivity|].
  split; [reflexivity|]. split.
  - unfold bb. rewrite Z2Nat.id by (apply Z.mod_pos_bound; unfold n; lia).
    rewrite Zplus_mod_idemp_l. f_equal. lia.
  - split; [reflexivity|]. split; [reflexivity|]. split; [reflexivity|].
    intros H2 Hd. unfold bb, n. rewrite H2.
    rewrite Z2Nat.id by (apply Z.mod_pos_bound; lia).
    replace (dealer_position g + 2) with (dealer_position g + 1 * Z.of_nat 2) by lia.
    rewrite Z_mod_plus_full. apply Z.mod_small. lia.
Qed.

Lemma blinds_come_from_the_seats_after_the_dealer_witness :
  exists g',
    post_blinds short_blind_table = Done tt g' /\
    pot g' = 15 /\ GameState.current_bet g' = 5 /\ action_position g' = 0.
Proof.
  destruct (blinds_come_from_the_seats_after_the_dealer short_blind_table)
    as (p & q & g' & Hp & Hq & _ & E & _ & Hpot & Hbet & Hact & _).
  - simpl. lia.
  - exists g'. split; [exact E|].
    injection Hp as <-. injection Hq as <-.
    split; [exact Hpot|]. split; [exact Hbet|exact Hact].
Defined.

(** ** Claim on the pot and the table's bet: whose bet the table's bet is *)

Lemma post_blinds_big_blind g g' :
  post_blinds g = Done tt g' ->
  (2 <= length (players g))%nat ->
  Forall (fun p => Player.current_bet p = 0) (players g) ->
  exists q, players g' !! big_blind_seat g = Some q /\
            Player.current_bet q = GameState.current_bet g'.
Proof.
  intros Hpost Hn Hzero.
  assert (players g <> []) as Hne by (intros E; rewrite E in Hn; simpl in Hn; lia).
  destruct (post_blinds_eq g Hne) as (p & q & Hp & Hq & E).
  rewrite E in Hpost. injection Hpost as <-.
  rewrite list_lookup_insert_ne in Hq
    by (intros Heq; symmetry in Heq; revert Heq; apply next_seat_differs; lia).
  unfold big_blind_seat. cbn [players GameState.current_bet set_action_position
                              GameState.set_current_bet set_pot set_players].
  eexists. split.
  - apply list_lookup_insert_eq. rewrite length_insert.
    now apply lookup_lt_Some in Hq.
  - unfold post_blind. cbn [Player.current_bet Player.set_current_bet].
    rewrite List.Forall_forall in Hzero.
    rewrite (Hzero q); [lia|].
    apply list_elem_of_In. eapply list_elem_of_lookup_2. exact Hq.
Qed.

Lemma start_new_hand_big_blind shuffle g g0 :
  start_new_hand shuffle g = Done tt g0 ->
  (2 <= length (players g))%nat ->
  exists q, players g0 !! big_blind_seat g = Some q /\
            Player.current_bet q = GameState.current_bet g0.
Proof.
  unfold start_new_hand.
  do 7 (unfold bind at 1; simpl).
  match goal with
  | |- _ ?gA = _ -> _ =>
      destruct (reset_all_players gA) as (ps & E & Hstacks & Hzero)
  end.
  unfold bind at 1. rewrite E. clear E. simpl in Hstacks.
  unfold bind at 1.
  match goal with
  | |- context [deal_hole_cards ?gB] =>
      destruct (deal_hole_cards gB) as [[] g2|e g2|] eqn:Hdeal; try discriminate
  end.
  intros Hpost Hn.
  destruct (deal_hole_cards_chips stack (fun _ _ => eq_refl) _ _ Hdeal) as [Htable Hs].
  destruct (deal_hole_cards_chips Player.current_bet (fun _ _ => eq_refl) _ _ Hdeal)
    as [_ Hb].
  simpl in Htable, Hs, Hb.
  assert (dealer_position g2 = dealer_position g) as Hdealer
    by (unfold table_chips in Htable; simpl in Htable; congruence).
  assert (length (players g2) = length (players g)) as Hlen.
  { apply (f_equal length) in Hs, Hstacks. rewrite !length_fmap in *. congruence. }
  assert (big_blind_seat g2 = big_blind_seat g) as <-
    by (unfold big_blind_seat; now rewrite Hdealer, Hlen).
  apply (post_blinds_big_blind g2 g0 Hpost); [lia|].
  apply List.Forall_forall. intros p Hp.
  apply list_elem_of_In in Hp.
  assert (Player.current_bet p ∈ Player.current_bet <$> players g2) as Hin
    by (apply list_elem_of_fmap; eauto).
  rewrite Hb in Hin. apply list_elem_of_fmap in Hin as (p0 & -> & Hp0).
  apply (proj1 (List.Forall_forall _ _) Hzero). now apply list_elem_of_In.
Qed.

(** One accepted action: the table's bet stays the bet of the same seat,
    or, after a raise, is the bet of the seat that raised. *)
Lemma execute_action_bet_setter g j action amount g1 s :
  execute_action j action amount g = Done true g1 ->
  (exists q, players g !! s = Some q /\
             Player.current_bet q = GameState.current_bet g) ->
  exists q, players g1 !! (match action with RAISE => j | _ => s end) = Some q /\
            Player.current_bet q = GameState.current_bet g1.
Proof.
  intros E (q & Hq & Hbet).
  destruct (players g !! j) as [p|] eqn:Hp;
    [|rewrite (execute_action_unseated g j action amount Hp) in E; discriminate].
  destruct (can_act p) eqn:Hact;
    [|rewrite (execute_action_cannot_act g j p action amount Hp Hact) in E; discriminate].
  assert (j < length (players g))%nat as Hj by now apply lookup_lt_Some in Hp.
  rewrite (execute_action_eq g j p action amount Hp Hact) in E. cbn zeta in E.
  assert (forall p' table,
            Player.current_bet p' = Player.current_bet p ->
            GameState.current_bet table = GameState.current_bet g ->
            exists q', <[j := p']> (players g) !! s = Some q' /\
                       Player.current_bet q' = GameState.current_bet table) as Hkeep.
  { intros p' table Hp' Htable. destruct (decide (j = s)) as [->|Hne].
    - exists p'. split; [now apply list_lookup_insert_eq|].
      assert (q = p) as -> by congruence. congruence.
    - exists q. split; [now rewrite list_lookup_insert_ne|]. congruence. }
  destruct action.
  - (* FOLD *)
    injection E as <-. cbn [players GameState.current_bet set_players].
    destruct (Hkeep (recorded FOLD amount (current_round g) (set_folded true p)) g)
      as (q' & Hq' & Hb'); [reflexivity|reflexivity|]. eauto.
  - (* CALL *)
    destruct (Z.leb_spec (GameState.current_bet g - Player.current_bet p) 0) as [Hle|Hgt];
      [discriminate E|].
    injection E as <-. cbn [players GameState.current_bet set_players set_pot].
    destruct (decide (j = s)) as [->|Hne].
    + exfalso. assert (q = p) as -> by congruence. lia.
    + exists q. split; [now rewrite list_lookup_insert_ne|exact Hbet].
  - (* RAISE *)
    destruct (Z.ltb_spec (stack p)
                (GameState.current_bet g + amount - Player.current_bet p));
      injection E as <-;
      cbn [players GameState.current_bet set_players set_pot GameState.set_current_bet].
    + eexists. split; [now apply list_lookup_insert_eq|].
      unfold after_bet. rewrite Z.ltb_irrefl. reflexivity.
    + eexists. split; [now apply list_lookup_insert_eq|].
      unfold recorded, commit. cbn. lia.
  - (* CHECK *)
    destruct (Player.current_bet p <? GameState.current_bet g); [discriminate E|].
    injection E as <-. cbn [players GameState.current_bet set_players].
    destruct (Hkeep (recorded CHECK amount (current_round g) p) g)
      as (q' & Hq' & Hb'); [reflexivity|reflexivity|]. eauto.
  - (* ALL_IN *)
    injection E as <-. cbn [players GameState.current_bet set_players].
    destruct (Hkeep (recorded ALL_IN amount (current_round g) p) g)
      as (q' & Hq' & Hb'); [reflexivity|reflexivity|]. eauto.
Qed.

Lemma run_actions_bet_setter acts : forall g0 g' s,
  run_actions acts g0 = Some g' ->
  (exists q, players g0 !! s = Some q /\
             Player.current_bet q = GameState.current_bet g0) ->
  exists q, players g' !! bet_setter s acts = Some q /\
            Player.current_bet q = GameState.current_bet g'.
Proof.
  induction acts as [|[[j action] amount] acts IH]; intros g0 g' s Hrun Hseat;
    simpl in Hrun.
  - inversion Hrun; subst. exact Hseat.
  - destruct (execute_action j action amount g0) as [[] g1| |] eqn:E; try discriminate.
    unfold bet_setter. cbn [fold_left fst snd].
    apply (IH g1 g' _ Hrun).
    exact (execute_action_bet_setter g0 j action amount g1 s E Hseat).
Qed.

(** C7, amended.  After [start_new_hand] and any sequence of successful
    [execute_action] calls, the pot equals the sum over the seats of the
    stack at the start of the hand minus the stack now; and at a table of at
    least two seats the table's bet is the bet of the player at the big
    blind's seat, two after the dealer, until a raise is made, and from then
    on the bet of the player who raised last. *)
Theorem pot_is_the_chips_committed (shuffle : list Card -> list Card)
    (g g0 g' : GameState.t) (acts : list (nat * Action * Z)) :
  start_new_hand shuffle g = Done tt g0 ->
  run_actions acts g0 = Some g' ->
  length (players g') = length (players g) /\
  pot g' = chips_committed (players g) (players g') /\
  ((2 <= length (players g))%nat ->
   exists q, players g' !! bet_setter (big_blind_seat g) acts = Some q /\
             Player.current_bet q = GameState.current_bet g').
Proof.
  intros Hstart Hrun.
  destruct (start_new_hand_effect shuffle g g0 Hstart) as (Hlen0 & Hsum0 & _).
  destruct (run_actions_invariant acts g0 g' Hrun) as (Hlen & Hsum & _).
  split; [congruence|]. split.
  - rewrite chips_committed_eq by congruence. lia.
  - intros Hn. apply (run_actions_bet_setter acts g0 g' _ Hrun).
    exact (start_new_hand_big_blind shuffle g g0 Hstart Hn).
Qed.

Lemma pot_is_the_chips_committed_witness :
  start_new_hand (fun cards => cards) full_stack_table = Done tt first_hand /\
  run_actions three_actions first_hand = Some after_three_actions /\
  pot after_three_actions =
    chips_committed (players full_stack_table) (players after_three_actions) /\
  pot after_three_actions = 260 /\
  (exists q, players first_hand !! 2%nat = Some q /\
             Player.current_bet q = GameState.current_bet first_hand) /\
  (exists q, players after_three_actions !! 0%nat = Some q /\
             Player.current_bet q = GameState.current_bet after_three_actions).
Proof.
  assert (start_new_hand (fun cards => cards) full_stack_table = Done tt first_hand)
    as Hstart by (vm_compute; reflexivity).
  assert (run_actions three_actions first_hand = Some after_three_actions)
    as Hrun by (vm_compute; reflexivity).
  destruct (pot_is_the_chips_committed _ _ _ _ _ Hstart Hrun) as (_ & Hpot & Hseat).
  destruct (pot_is_the_chips_committed _ _ _ _ [] Hstart eq_refl) as (_ & _ & Hblind).
  split; [exact Hstart|]. split; [exact Hrun|]. split; [exact Hpot|].
  split; [vm_compute; reflexivity|]. split.
  - apply Hblind. simpl. lia.
  - apply Hseat. simpl. lia.
Defined.
